(** * LearnVulkanInCLibrary: the renderer of [engine::render::VulkanRenderer]

    A shallow embedding of [src/engine/render/VulkanRenderer.cpp] (and of the
    declarations of [VulkanRenderer.hpp]) together with the properties of the
    device selection, the swap-chain negotiation, the letterboxed viewport and
    the per-frame protocol.

    Conventions.
    - [uint32_t] values are integers of [Z]; arithmetic that can leave the
      range is wrapped with [wrap32], casts from [int] likewise.
    - [float] is IEEE-754 binary32, computed with the parametric operations of
      [SpecFloat] at precision 24 and maximal exponent 128.
    - Vulkan handles are integers; [VK_NULL_HANDLE] is 0.
    - The member functions that talk to the driver run in a small state and
      error monad over a [World]: the renderer object and the driver side
      (the chronological list of API calls and the status of every fence).
      What the driver answers is an explicit argument (a [FrameEnv] or a
      [SwapChainEnv]). *)

From Stdlib Require Import ZArith List Bool Lia.
From Stdlib Require Import Floats.SpecFloat.
From stdpp Require Import base list gmap strings.

Local Open Scope Z_scope.

(** ** Machine integers *)

Definition UINT32_MAX : Z := 4294967295.

(** [uint32_t] arithmetic and [static_cast<uint32_t>]. *)
Definition wrap32 (z : Z) : Z := z mod 4294967296.

Definition is_uint32 (z : Z) : Prop := 0 <= z <= UINT32_MAX.

(** [std::clamp(v, lo, hi)] of <algorithm>.  The standard defines it for
    [lo <= hi] only; outside, the value is the one of libstdc++, whose
    [std::clamp] is [std::min(std::max(v, lo), hi)]. *)
Definition clamp (v lo hi : Z) : Z := Z.min (Z.max v lo) hi.

(** ** Constants of vulkan_core.h used by the renderer *)

Definition VK_NULL_HANDLE : Z := 0.
Definition VK_SUCCESS : Z := 0.
Definition VK_SUBOPTIMAL_KHR : Z := 1000001003.
Definition VK_ERROR_OUT_OF_DATE_KHR : Z := -1000001004.
Definition VK_FORMAT_B8G8R8A8_SRGB : Z := 50.
Definition VK_COLOR_SPACE_SRGB_NONLINEAR_KHR : Z := 0.
Definition VK_PRESENT_MODE_MAILBOX_KHR : Z := 1.
Definition VK_PRESENT_MODE_FIFO_KHR : Z := 2.
Definition VK_QUEUE_GRAPHICS_BIT : Z := 1.
Definition VK_SHARING_MODE_EXCLUSIVE : Z := 0.
Definition VK_SHARING_MODE_CONCURRENT : Z := 1.
Definition VK_IMAGE_USAGE_COLOR_ATTACHMENT_BIT : Z := 16.
Definition VK_COMPOSITE_ALPHA_OPAQUE_BIT_KHR : Z := 1.

(** ** Plain structures *)

Record VkExtent2D := { width : Z; height : Z }.

Record VkSurfaceFormatKHR := { format : Z; colorSpace : Z }.

Record VkSurfaceCapabilitiesKHR := {
  minImageCount : Z;
  maxImageCount : Z;
  currentExtent : VkExtent2D;
  minImageExtent : VkExtent2D;
  maxImageExtent : VkExtent2D;
  currentTransform : Z
}.

Record VkQueueFamilyProperties := { queueFlags : Z; queueCount : Z }.

(** [QueueFamilyIndices] of VulkanRenderer.hpp: two [std::optional<uint32_t>]. *)
Record QueueFamilyIndices := {
  graphicsFamily : option Z;
  presentFamily : option Z
}.

Definition isComplete (indices : QueueFamilyIndices) : bool :=
  match graphicsFamily indices, presentFamily indices with
  | Some _, Some _ => true
  | _, _ => false
  end.

(** [SwapChainSupportDetails] of VulkanRenderer.hpp. *)
Record SwapChainSupportDetails := {
  capabilities : VkSurfaceCapabilitiesKHR;
  formats : list VkSurfaceFormatKHR;
  presentModes : list Z
}.

(** What the driver reports about one physical device: the queue families in
    enumeration order ([vkGetPhysicalDeviceQueueFamilyProperties]) and, per
    family index and surface, whether the family can present to the surface
    ([vkGetPhysicalDeviceSurfaceSupportKHR]). *)
Record PhysicalDevice := {
  queueFamilyProperties : list VkQueueFamilyProperties;
  surfaceSupport : Z -> Z -> bool
}.

(** ** Device selection: [findQueueFamilies] *)

Definition hasGraphics (queueFamily : VkQueueFamilyProperties) : bool :=
  negb (Z.land (queueFlags queueFamily) VK_QUEUE_GRAPHICS_BIT =? 0).

(** The body of the range-for of [findQueueFamilies]: family [i] is examined
    with the indices found so far; the loop leaves at the [break] with the
    current [i], or at the end of the vector with [i] one past the last
    family.  (The counter is an [int] in the source; it does not leave its
    range for any family count a driver reports.) *)
Fixpoint findQueueFamilies_loop (device : PhysicalDevice) (m_surface : Z)
    (queueFamilies : list VkQueueFamilyProperties) (i : Z)
    (indices : QueueFamilyIndices) : QueueFamilyIndices * Z :=
  match queueFamilies with
  | [] => (indices, i)
  | queueFamily :: rest =>
      let indices1 :=
        if hasGraphics queueFamily
        then {| graphicsFamily := Some i; presentFamily := presentFamily indices |}
        else indices in
      let presentSupport := surfaceSupport device i m_surface in
      let indices2 :=
        if presentSupport
        then {| graphicsFamily := graphicsFamily indices1; presentFamily := Some i |}
        else indices1 in
      if isComplete indices2 then (indices2, i)
      else findQueueFamilies_loop device m_surface rest (i + 1) indices2
  end.

Definition findQueueFamilies_scan (device : PhysicalDevice) (m_surface : Z)
    : QueueFamilyIndices * Z :=
  findQueueFamilies_loop device m_surface (queueFamilyProperties device) 0
    {| graphicsFamily := None; presentFamily := None |}.

Definition findQueueFamilies (device : PhysicalDevice) (m_surface : Z)
    : QueueFamilyIndices :=
  fst (findQueueFamilies_scan device m_surface).

(** ** Swap-chain negotiation *)

Definition isPreferredFormat (availableFormat : VkSurfaceFormatKHR) : bool :=
  (format availableFormat =? VK_FORMAT_B8G8R8A8_SRGB)
  && (colorSpace availableFormat =? VK_COLOR_SPACE_SRGB_NONLINEAR_KHR).

Fixpoint chooseSwapSurfaceFormat_loop (l : list VkSurfaceFormatKHR)
    : option VkSurfaceFormatKHR :=
  match l with
  | [] => None
  | availableFormat :: rest =>
      if isPreferredFormat availableFormat then Some availableFormat
      else chooseSwapSurfaceFormat_loop rest
  end.

(** [None] stands for the read of [availableFormats[0]] on an empty vector. *)
Definition chooseSwapSurfaceFormat (availableFormats : list VkSurfaceFormatKHR)
    : option VkSurfaceFormatKHR :=
  match chooseSwapSurfaceFormat_loop availableFormats with
  | Some availableFormat => Some availableFormat
  | None => availableFormats !! 0%nat
  end.

Fixpoint chooseSwapPresentMode (availablePresentModes : list Z) : Z :=
  match availablePresentModes with
  | [] => VK_PRESENT_MODE_FIFO_KHR
  | availablePresentMode :: rest =>
      if availablePresentMode =? VK_PRESENT_MODE_MAILBOX_KHR
      then availablePresentMode
      else chooseSwapPresentMode rest
  end.

(** [windowSize] is what [SDL_GetWindowSizeInPixels] stores in the two [int]s. *)
Definition chooseSwapExtent (windowSize : Z * Z)
    (capabilities : VkSurfaceCapabilitiesKHR) : VkExtent2D :=
  if negb (width (currentExtent capabilities) =? UINT32_MAX)
  then currentExtent capabilities
  else
    let actualExtent :=
      {| width := wrap32 (fst windowSize); height := wrap32 (snd windowSize) |} in
    {| width := clamp (width actualExtent)
                  (width (minImageExtent capabilities))
                  (width (maxImageExtent capabilities));
       height := clamp (height actualExtent)
                   (height (minImageExtent capabilities))
                   (height (maxImageExtent capabilities)) |}.

(** The image count that [createSwapChain] puts into
    [createInfo.minImageCount]. *)
Definition swapChainImageCount (capabilities : VkSurfaceCapabilitiesKHR) : Z :=
  let imageCount := wrap32 (minImageCount capabilities + 1) in
  if (0 <? maxImageCount capabilities) && (maxImageCount capabilities <? imageCount)
  then maxImageCount capabilities
  else imageCount.

(** ** Single-precision arithmetic *)

Module Float32.
Definition prec : Z := 24.
Definition emax : Z := 128.

(** [static_cast<float>] of an integer, and integer-valued literals. *)
Definition of_Z (z : Z) : spec_float := binary_normalize prec emax z 0 false.

Definition sub : spec_float -> spec_float -> spec_float := SFsub prec emax.
Definition mul : spec_float -> spec_float -> spec_float := SFmul prec emax.
Definition div : spec_float -> spec_float -> spec_float := SFdiv prec emax.

(** [a > b] on floats: false as soon as one side is a NaN. *)
Definition gtb (a b : spec_float) : bool := SFltb b a.

Definition zero : spec_float := S754_zero false.

(** Neither an infinity nor a NaN. *)
Definition is_finite (f : spec_float) : bool :=
  match f with
  | S754_zero _ | S754_finite _ _ _ => true
  | S754_infinity _ | S754_nan => false
  end.
End Float32.

Record VkViewport := {
  vp_x : spec_float;
  vp_y : spec_float;
  vp_width : spec_float;
  vp_height : spec_float;
  vp_minDepth : spec_float;
  vp_maxDepth : spec_float
}.

(** [4.0f / 3.0f]. *)
Definition targetAspectRatio : spec_float :=
  Float32.div (Float32.of_Z 4) (Float32.of_Z 3).

(** The viewport block of [recordCommandBuffer] (the statements between
    [vkCmdBindPipeline] and [vkCmdSetViewport]). *)
Definition letterboxViewport (m_swapChainExtent : VkExtent2D) : VkViewport :=
  let width0 := Float32.of_Z (width m_swapChainExtent) in
  let height0 := Float32.of_Z (height m_swapChainExtent) in
  let '(width1, height1) :=
    if Float32.gtb (Float32.div width0 height0) targetAspectRatio
    then (Float32.mul height0 targetAspectRatio, height0)
    else (width0, Float32.div width0 targetAspectRatio) in
  let x := Float32.div
             (Float32.sub (Float32.of_Z (width m_swapChainExtent)) width1)
             (Float32.of_Z 2) in
  let y := Float32.div
             (Float32.sub (Float32.of_Z (height m_swapChainExtent)) height1)
             (Float32.of_Z 2) in
  {| vp_x := x; vp_y := y; vp_width := width1; vp_height := height1;
     vp_minDepth := Float32.zero; vp_maxDepth := Float32.of_Z 1 |}.

(** ** The renderer object *)

(** The data members of [class VulkanRenderer] (VulkanRenderer.hpp), without
    the window pointer. *)
Record VulkanRenderer := {
  m_initialized : bool;
  m_instance : Z;
  m_debugMessenger : Z;
  m_surface : Z;
  m_physicalDevice : Z;
  m_device : Z;
  m_graphicsQueue : Z;
  m_presentQueue : Z;
  m_swapChain : Z;
  m_swapChainImages : list Z;
  m_swapChainImageFormat : Z;
  m_swapChainExtent : VkExtent2D;
  m_swapChainImageViews : list Z;
  m_swapChainFramebuffers : list Z;
  m_renderPass : Z;
  m_pipelineLayout : Z;
  m_graphicsPipeline : Z;
  m_commandPool : Z;
  m_commandBuffers : list Z;
  m_imageAvailableSemaphores : list Z;
  m_renderFinishedSemaphores : list Z;
  m_inFlightFences : list Z;
  m_currentFrame : Z;
  m_framebufferResized : bool
}.

(** The swap-chain members, the ones [recreateSwapChain] assigns. *)
Record SwapChainMembers := {
  sc_swapChain : Z;
  sc_images : list Z;
  sc_imageFormat : Z;
  sc_extent : VkExtent2D;
  sc_imageViews : list Z;
  sc_framebuffers : list Z
}.

Definition swapChainMembers (r : VulkanRenderer) : SwapChainMembers :=
  {| sc_swapChain := m_swapChain r; sc_images := m_swapChainImages r;
     sc_imageFormat := m_swapChainImageFormat r; sc_extent := m_swapChainExtent r;
     sc_imageViews := m_swapChainImageViews r;
     sc_framebuffers := m_swapChainFramebuffers r |}.

(** Assignment to the swap-chain members; every other member is kept. *)
Definition with_swapChainMembers (sc : SwapChainMembers) (r : VulkanRenderer)
    : VulkanRenderer :=
  {| m_initialized := m_initialized r; m_instance := m_instance r;
     m_debugMessenger := m_debugMessenger r; m_surface := m_surface r;
     m_physicalDevice := m_physicalDevice r; m_device := m_device r;
     m_graphicsQueue := m_graphicsQueue r; m_presentQueue := m_presentQueue r;
     m_swapChain := sc_swapChain sc; m_swapChainImages := sc_images sc;
     m_swapChainImageFormat := sc_imageFormat sc;
     m_swapChainExtent := sc_extent sc;
     m_swapChainImageViews := sc_imageViews sc;
     m_swapChainFramebuffers := sc_framebuffers sc;
     m_renderPass := m_renderPass r; m_pipelineLayout := m_pipelineLayout r;
     m_graphicsPipeline := m_graphicsPipeline r; m_commandPool := m_commandPool r;
     m_commandBuffers := m_commandBuffers r;
     m_imageAvailableSemaphores := m_imageAvailableSemaphores r;
     m_renderFinishedSemaphores := m_renderFinishedSemaphores r;
     m_inFlightFences := m_inFlightFences r;
     m_currentFrame := m_currentFrame r;
     m_framebufferResized := m_framebufferResized r |}.

Definition with_swapChain (h : Z) (r : VulkanRenderer) : VulkanRenderer :=
  with_swapChainMembers
    {| sc_swapChain := h; sc_images := m_swapChainImages r;
       sc_imageFormat := m_swapChainImageFormat r; sc_extent := m_swapChainExtent r;
       sc_imageViews := m_swapChainImageViews r;
       sc_framebuffers := m_swapChainFramebuffers r |} r.

Definition with_swapChainImages (l : list Z) (r : VulkanRenderer) : VulkanRenderer :=
  with_swapChainMembers
    {| sc_swapChain := m_swapChain r; sc_images := l;
       sc_imageFormat := m_swapChainImageFormat r; sc_extent := m_swapChainExtent r;
       sc_imageViews := m_swapChainImageViews r;
       sc_framebuffers := m_swapChainFramebuffers r |} r.

Definition with_swapChainImageFormat (f : Z) (r : VulkanRenderer) : VulkanRenderer :=
  with_swapChainMembers
    {| sc_swapChain := m_swapChain r; sc_images := m_swapChainImages r;
       sc_imageFormat := f; sc_extent := m_swapChainExtent r;
       sc_imageViews := m_swapChainImageViews r;
       sc_framebuffers := m_swapChainFramebuffers r |} r.

Definition with_swapChainExtent (e : VkExtent2D) (r : VulkanRenderer) : VulkanRenderer :=
  with_swapChainMembers
    {| sc_swapChain := m_swapChain r; sc_images := m_swapChainImages r;
       sc_imageFormat := m_swapChainImageFormat r; sc_extent := e;
       sc_imageViews := m_swapChainImageViews r;
       sc_framebuffers := m_swapChainFramebuffers r |} r.

Definition with_swapChainImageViews (l : list Z) (r : VulkanRenderer) : VulkanRenderer :=
  with_swapChainMembers
    {| sc_swapChain := m_swapChain r; sc_images := m_swapChainImages r;
       sc_imageFormat := m_swapChainImageFormat r; sc_extent := m_swapChainExtent r;
       sc_imageViews := l;
       sc_framebuffers := m_swapChainFramebuffers r |} r.

Definition with_swapChainFramebuffers (l : list Z) (r : VulkanRenderer) : VulkanRenderer :=
  with_swapChainMembers
    {| sc_swapChain := m_swapChain r; sc_images := m_swapChainImages r;
       sc_imageFormat := m_swapChainImageFormat r; sc_extent := m_swapChainExtent r;
       sc_imageViews := m_swapChainImageViews r;
       sc_framebuffers := l |} r.

(** The members that only [drawFrame], [cleanup] and the setter assign. *)
Definition with_flags (initialized : bool) (currentFrame : Z)
    (framebufferResized : bool) (r : VulkanRenderer) : VulkanRenderer :=
  {| m_initialized := initialized; m_instance := m_instance r;
     m_debugMessenger := m_debugMessenger r; m_surface := m_surface r;
     m_physicalDevice := m_physicalDevice r; m_device := m_device r;
     m_graphicsQueue := m_graphicsQueue r; m_presentQueue := m_presentQueue r;
     m_swapChain := m_swapChain r; m_swapChainImages := m_swapChainImages r;
     m_swapChainImageFormat := m_swapChainImageFormat r;
     m_swapChainExtent := m_swapChainExtent r;
     m_swapChainImageViews := m_swapChainImageViews r;
     m_swapChainFramebuffers := m_swapChainFramebuffers r;
     m_renderPass := m_renderPass r; m_pipelineLayout := m_pipelineLayout r;
     m_graphicsPipeline := m_graphicsPipeline r; m_commandPool := m_commandPool r;
     m_commandBuffers := m_commandBuffers r;
     m_imageAvailableSemaphores := m_imageAvailableSemaphores r;
     m_renderFinishedSemaphores := m_renderFinishedSemaphores r;
     m_inFlightFences := m_inFlightFences r;
     m_currentFrame := currentFrame;
     m_framebufferResized := framebufferResized |}.

Definition with_initialized (b : bool) (r : VulkanRenderer) : VulkanRenderer :=
  with_flags b (m_currentFrame r) (m_framebufferResized r) r.

Definition with_currentFrame (i : Z) (r : VulkanRenderer) : VulkanRenderer :=
  with_flags (m_initialized r) i (m_framebufferResized r) r.

(** [void setFramebufferResized(bool resized) { m_framebufferResized = resized; }] *)
Definition setFramebufferResized (resized : bool) (r : VulkanRenderer)
    : VulkanRenderer :=
  with_flags (m_initialized r) (m_currentFrame r) resized r.

(** The render pass, the pipeline, the command buffers and the
    synchronization objects: what swap-chain recreation has no business
    with. *)
Record PipelineMembers := {
  pm_renderPass : Z;
  pm_pipelineLayout : Z;
  pm_graphicsPipeline : Z;
  pm_commandPool : Z;
  pm_commandBuffers : list Z;
  pm_imageAvailableSemaphores : list Z;
  pm_renderFinishedSemaphores : list Z;
  pm_inFlightFences : list Z
}.

Definition with_pipelineMembers (pm : PipelineMembers) (r : VulkanRenderer)
    : VulkanRenderer :=
  {| m_initialized := m_initialized r; m_instance := m_instance r;
     m_debugMessenger := m_debugMessenger r; m_surface := m_surface r;
     m_physicalDevice := m_physicalDevice r; m_device := m_device r;
     m_graphicsQueue := m_graphicsQueue r; m_presentQueue := m_presentQueue r;
     m_swapChain := m_swapChain r; m_swapChainImages := m_swapChainImages r;
     m_swapChainImageFormat := m_swapChainImageFormat r;
     m_swapChainExtent := m_swapChainExtent r;
     m_swapChainImageViews := m_swapChainImageViews r;
     m_swapChainFramebuffers := m_swapChainFramebuffers r;
     m_renderPass := pm_renderPass pm; m_pipelineLayout := pm_pipelineLayout pm;
     m_graphicsPipeline := pm_graphicsPipeline pm;
     m_commandPool := pm_commandPool pm;
     m_commandBuffers := pm_commandBuffers pm;
     m_imageAvailableSemaphores := pm_imageAvailableSemaphores pm;
     m_renderFinishedSemaphores := pm_renderFinishedSemaphores pm;
     m_inFlightFences := pm_inFlightFences pm;
     m_currentFrame := m_currentFrame r;
     m_framebufferResized := m_framebufferResized r |}.

Definition pipelineMembers (r : VulkanRenderer) : PipelineMembers :=
  {| pm_renderPass := m_renderPass r; pm_pipelineLayout := m_pipelineLayout r;
     pm_graphicsPipeline := m_graphicsPipeline r; pm_commandPool := m_commandPool r;
     pm_commandBuffers := m_commandBuffers r;
     pm_imageAvailableSemaphores := m_imageAvailableSemaphores r;
     pm_renderFinishedSemaphores := m_renderFinishedSemaphores r;
     pm_inFlightFences := m_inFlightFences r |}.

(** ** The driver side *)

(** [VkSwapchainCreateInfoKHR] as [createSwapChain] fills it. *)
Record VkSwapchainCreateInfoKHR := {
  ci_surface : Z;
  ci_minImageCount : Z;
  ci_imageFormat : Z;
  ci_imageColorSpace : Z;
  ci_imageExtent : VkExtent2D;
  ci_imageArrayLayers : Z;
  ci_imageUsage : Z;
  ci_imageSharingMode : Z;
  ci_queueFamilyIndices : list Z;
  ci_preTransform : Z;
  ci_compositeAlpha : Z;
  ci_presentMode : Z;
  ci_clipped : bool;
  ci_oldSwapchain : Z
}.

(** The API calls that wait for, create, destroy, record or submit something,
    with the handles they are given.  Pure queries are not listed. *)
Inductive Call :=
  | WaitForFences (device fence : Z)
  | AcquireNextImageKHR (device swapChain semaphore : Z)
  | ResetFences (device fence : Z)
  | ResetCommandBuffer (commandBuffer : Z)
  | BeginCommandBuffer (commandBuffer : Z)
  | CmdBeginRenderPass (commandBuffer renderPass framebuffer : Z) (extent : VkExtent2D)
  | CmdBindPipeline (commandBuffer pipeline : Z)
  | CmdSetViewport (commandBuffer : Z) (viewport : VkViewport)
  | CmdSetScissor (commandBuffer : Z) (extent : VkExtent2D)
  | CmdDraw (commandBuffer vertexCount instanceCount firstVertex firstInstance : Z)
  | CmdEndRenderPass (commandBuffer : Z)
  | EndCommandBuffer (commandBuffer : Z)
  | QueueSubmit (queue waitSemaphore commandBuffer signalSemaphore fence : Z)
  | QueuePresentKHR (queue waitSemaphore swapChain imageIndex : Z)
  | DeviceWaitIdle (device : Z)
  | DestroyFramebuffer (device framebuffer : Z)
  | DestroyImageView (device imageView : Z)
  | DestroySwapchainKHR (device swapChain : Z)
  | CreateSwapchainKHR (device : Z) (createInfo : VkSwapchainCreateInfoKHR)
  | CreateImageView (device image format : Z)
  | CreateFramebuffer (device renderPass imageView : Z) (extent : VkExtent2D)
  | AllocateCommandBuffers (device commandPool count : Z)
  | CreateSemaphore (device : Z)
  | CreateFence (device : Z) (signaled : bool)
  | DestroyPipeline (device pipeline : Z)
  | DestroyPipelineLayout (device pipelineLayout : Z)
  | DestroyRenderPass (device renderPass : Z)
  | DestroySemaphore (device semaphore : Z)
  | DestroyFence (device fence : Z)
  | DestroyCommandPool (device commandPool : Z)
  | DestroyDevice (device : Z)
  | DestroyDebugUtilsMessengerEXT (instance messenger : Z)
  | DestroySurfaceKHR (instance surface : Z)
  | DestroyInstance (instance : Z).

(** A fence is signaled, unsignaled with nothing submitted that would signal
    it, or unsignaled with a submission in flight that will. *)
Inductive FenceStatus := Signaled | Unsignaled | Pending.

Record Driver := {
  calls : list Call;
  fenceStatus : gmap Z FenceStatus
}.

Record World := { renderer : VulkanRenderer; driver : Driver }.

(** The [std::runtime_error]s of the modelled functions, by throw site, and
    [std::bad_optional_access] of [optional::value]. *)
Inductive Exception :=
  | AcquireFailed
  | BeginCommandBufferFailed
  | EndCommandBufferFailed
  | SubmitFailed
  | PresentFailed
  | CreateSwapChainFailed
  | CreateImageViewFailed
  | CreateFramebufferFailed
  | AllocateCommandBuffersFailed
  | CreateSyncObjectsFailed
  | BadOptionalAccess.

(** How a call can end other than by returning: an exception leaves the
    function, the behaviour is undefined (a vector read out of range, a
    remainder by zero, a fence handle the driver does not know), or a wait
    with [UINT64_MAX] timeout never comes back. *)
Inductive Fault :=
  | Thrown (e : Exception)
  | Undefined
  | NeverReturns.

Inductive Outcome (A : Type) :=
  | Returned (a : A) (w : World)
  | Stopped (f : Fault) (w : World).
Arguments Returned {A} a w.
Arguments Stopped {A} f w.

(** The world a call leaves behind, however it ends. *)
Definition finalWorld {A : Type} (o : Outcome A) : World :=
  match o with
  | Returned _ w => w
  | Stopped _ w => w
  end.

Definition returns {A : Type} (o : Outcome A) : bool :=
  match o with
  | Returned _ _ => true
  | Stopped _ _ => false
  end.

Definition M (A : Type) : Type := World -> Outcome A.

#[global] Instance M_ret : MRet M := λ A a w, Returned a w.

#[global] Instance M_bind : MBind M := λ A B k m w,
  match m w with
  | Returned a w' => k a w'
  | Stopped f w' => Stopped f w'
  end.

Definition throw {A : Type} (e : Exception) : M A := λ w, Stopped (Thrown e) w.

Definition undefined {A : Type} : M A := λ w, Stopped Undefined w.

Definition this : M VulkanRenderer := λ w, Returned (renderer w) w.

Definition assign (f : VulkanRenderer -> VulkanRenderer) : M unit :=
  λ w, Returned tt {| renderer := f (renderer w); driver := driver w |}.

Definition call (c : Call) : M unit :=
  λ w, Returned tt
    {| renderer := renderer w;
       driver := {| calls := calls (driver w) ++ [c];
                    fenceStatus := fenceStatus (driver w) |} |}.

Definition setFences (f : gmap Z FenceStatus -> gmap Z FenceStatus) : M unit :=
  λ w, Returned tt
    {| renderer := renderer w;
       driver := {| calls := calls (driver w);
                    fenceStatus := f (fenceStatus (driver w)) |} |}.

(** [v[i]] on a [std::vector]. *)
Definition at_index {A : Type} (v : list A) (i : Z) : M A :=
  if i <? 0 then undefined
  else match v !! Z.to_nat i with
       | Some a => mret a
       | None => undefined
       end.

(** [o.value()] on a [std::optional]. *)
Definition value {A : Type} (o : option A) : M A :=
  match o with
  | Some a => mret a
  | None => throw BadOptionalAccess
  end.

(** [v.resize(n)]: keeps the first [n] elements, pads with value-initialized
    ones. *)
Definition resize (v : list Z) (n : nat) : list Z :=
  take n v ++ replicate (n - length v) VK_NULL_HANDLE.

(** [vkWaitForFences(device, 1, &fence, VK_TRUE, UINT64_MAX)].  The work in
    flight completes; a fence nothing will signal is waited for forever. *)
Definition awaitFence (fence : Z) : M unit :=
  λ w, match fenceStatus (driver w) !! fence with
       | Some Signaled => Returned tt w
       | Some Pending => setFences (insert fence Signaled) w
       | Some Unsignaled => Stopped NeverReturns w
       | None => Stopped Undefined w
       end.

Definition vkWaitForFences (device fence : Z) : M unit :=
  call (WaitForFences device fence);;
  awaitFence fence.

Definition vkResetFences (device fence : Z) : M unit :=
  call (ResetFences device fence);;
  setFences (insert fence Unsignaled).

(** All submitted work drains: every fence in flight becomes signaled. *)
Definition drain (s : FenceStatus) : FenceStatus :=
  match s with
  | Pending => Signaled
  | _ => s
  end.

Definition vkDeviceWaitIdle (device : Z) : M unit :=
  call (DeviceWaitIdle device);;
  setFences (fmap drain).

Definition vkDestroyFence (device fence : Z) : M unit :=
  call (DestroyFence device fence);;
  setFences (delete fence).

(** Runs [body] on every element in order (a range-for without [break]). *)
Fixpoint for_each {A : Type} (body : A -> M unit) (v : list A) : M unit :=
  match v with
  | [] => mret tt
  | a :: rest => body a;; for_each body rest
  end.

(** ** Swap chain: creation, destruction, recreation *)

(** What the window and the driver answer while a swap chain is built:
    [querySwapChainSupport(m_physicalDevice)], the families of
    [m_physicalDevice], [SDL_GetWindowSizeInPixels], and for each creation
    call the [VkResult] with what the driver leaves in the output parameter.
    The creation calls are handed the member itself ([&m_swapChain],
    [&m_swapChainImageViews[i]], [&m_swapChainFramebuffers[i]]), so the
    member holds that value whatever the result: the new handle on success,
    anything on an error (the value it had, if the driver wrote nothing). *)
Record SwapChainEnv := {
  physicalDevice : PhysicalDevice;
  swapChainSupport : SwapChainSupportDetails;
  windowSizeInPixels : Z * Z;
  createSwapchainResult : Z * Z;
  swapchainImages : list Z;
  createImageViewResult : nat -> Z * Z;
  createFramebufferResult : nat -> Z * Z
}.

Definition createSwapChain (env : SwapChainEnv) : M unit :=
  r ← this;
  let support := swapChainSupport env in
  surfaceFormat ← match chooseSwapSurfaceFormat (formats support) with
                  | Some f => mret f
                  | None => undefined
                  end;
  let presentMode := chooseSwapPresentMode (presentModes support) in
  let extent := chooseSwapExtent (windowSizeInPixels env) (capabilities support) in
  let imageCount := swapChainImageCount (capabilities support) in
  let indices := findQueueFamilies (physicalDevice env) (m_surface r) in
  g ← value (graphicsFamily indices);
  p ← value (presentFamily indices);
  let concurrent := negb (g =? p) in
  let createInfo :=
    {| ci_surface := m_surface r;
       ci_minImageCount := imageCount;
       ci_imageFormat := format surfaceFormat;
       ci_imageColorSpace := colorSpace surfaceFormat;
       ci_imageExtent := extent;
       ci_imageArrayLayers := 1;
       ci_imageUsage := VK_IMAGE_USAGE_COLOR_ATTACHMENT_BIT;
       ci_imageSharingMode :=
         if concurrent then VK_SHARING_MODE_CONCURRENT else VK_SHARING_MODE_EXCLUSIVE;
       ci_queueFamilyIndices := if concurrent then [g; p] else [];
       ci_preTransform := currentTransform (capabilities support);
       ci_compositeAlpha := VK_COMPOSITE_ALPHA_OPAQUE_BIT_KHR;
       ci_presentMode := presentMode;
       ci_clipped := true;
       ci_oldSwapchain := VK_NULL_HANDLE |} in
  call (CreateSwapchainKHR (m_device r) createInfo);;
  assign (with_swapChain (snd (createSwapchainResult env)));;
  if negb (fst (createSwapchainResult env) =? VK_SUCCESS)
  then throw CreateSwapChainFailed
  else
    assign (with_swapChainImages (swapchainImages env));;
    assign (with_swapChainImageFormat (format surfaceFormat));;
    assign (with_swapChainExtent extent).

Fixpoint createImageViews_loop (env : SwapChainEnv) (images : list Z) (i : nat)
    : M unit :=
  match images with
  | [] => mret tt
  | image :: rest =>
      r ← this;
      call (CreateImageView (m_device r) image (m_swapChainImageFormat r));;
      assign (λ r, with_swapChainImageViews
                     (<[i := snd (createImageViewResult env i)]>
                        (m_swapChainImageViews r)) r);;
      if negb (fst (createImageViewResult env i) =? VK_SUCCESS)
      then throw CreateImageViewFailed
      else createImageViews_loop env rest (S i)
  end.

Definition createImageViews (env : SwapChainEnv) : M unit :=
  r ← this;
  assign (with_swapChainImageViews
            (resize (m_swapChainImageViews r) (length (m_swapChainImages r))));;
  createImageViews_loop env (m_swapChainImages r) 0.

Fixpoint createFramebuffers_loop (env : SwapChainEnv) (views : list Z) (i : nat)
    : M unit :=
  match views with
  | [] => mret tt
  | view :: rest =>
      r ← this;
      call (CreateFramebuffer (m_device r) (m_renderPass r) view (m_swapChainExtent r));;
      assign (λ r, with_swapChainFramebuffers
                     (<[i := snd (createFramebufferResult env i)]>
                        (m_swapChainFramebuffers r)) r);;
      if negb (fst (createFramebufferResult env i) =? VK_SUCCESS)
      then throw CreateFramebufferFailed
      else createFramebuffers_loop env rest (S i)
  end.

Definition createFramebuffers (env : SwapChainEnv) : M unit :=
  r ← this;
  assign (with_swapChainFramebuffers
            (resize (m_swapChainFramebuffers r) (length (m_swapChainImageViews r))));;
  r' ← this;
  createFramebuffers_loop env (m_swapChainImageViews r') 0.

Definition cleanupSwapChain : M unit :=
  r ← this;
  for_each (λ framebuffer, call (DestroyFramebuffer (m_device r) framebuffer))
    (m_swapChainFramebuffers r);;
  for_each (λ imageView, call (DestroyImageView (m_device r) imageView))
    (m_swapChainImageViews r);;
  call (DestroySwapchainKHR (m_device r) (m_swapChain r)).

Definition recreateSwapChain (env : SwapChainEnv) : M unit :=
  r ← this;
  vkDeviceWaitIdle (m_device r);;
  cleanupSwapChain;;
  createSwapChain env;;
  createImageViews env;;
  createFramebuffers env.

(** ** Command buffers and synchronization objects *)

(** The driver's answers while the command buffers and the synchronization
    objects are created: the [VkResult] of the allocation and what it leaves
    in each entry of [m_commandBuffers.data()], and per slot and creation the
    [VkResult] with what the driver leaves in the output parameter, the
    vector entry itself. *)
Record SyncEnv := {
  allocateCommandBuffersResult : Z;
  allocatedCommandBuffer : nat -> Z;
  createImageAvailableResult : nat -> Z * Z;
  createRenderFinishedResult : nat -> Z * Z;
  createFenceResult : nat -> Z * Z
}.

Definition with_commandBuffers (l : list Z) (r : VulkanRenderer) : VulkanRenderer :=
  with_pipelineMembers
    {| pm_renderPass := m_renderPass r; pm_pipelineLayout := m_pipelineLayout r;
       pm_graphicsPipeline := m_graphicsPipeline r;
       pm_commandPool := m_commandPool r;
       pm_commandBuffers := l;
       pm_imageAvailableSemaphores := m_imageAvailableSemaphores r;
       pm_renderFinishedSemaphores := m_renderFinishedSemaphores r;
       pm_inFlightFences := m_inFlightFences r |} r.

Definition with_syncObjects (imageAvailable renderFinished fences : list Z)
    (r : VulkanRenderer) : VulkanRenderer :=
  with_pipelineMembers
    {| pm_renderPass := m_renderPass r; pm_pipelineLayout := m_pipelineLayout r;
       pm_graphicsPipeline := m_graphicsPipeline r;
       pm_commandPool := m_commandPool r;
       pm_commandBuffers := m_commandBuffers r;
       pm_imageAvailableSemaphores := imageAvailable;
       pm_renderFinishedSemaphores := renderFinished;
       pm_inFlightFences := fences |} r.

Definition createCommandBuffers (env : SyncEnv) : M unit :=
  r ← this;
  let count := length (m_swapChainFramebuffers r) in
  assign (with_commandBuffers (resize (m_commandBuffers r) count));;
  call (AllocateCommandBuffers (m_device r) (m_commandPool r)
          (wrap32 (Z.of_nat count)));;
  assign (with_commandBuffers (allocatedCommandBuffer env <$> seq 0 count));;
  if negb (allocateCommandBuffersResult env =? VK_SUCCESS)
  then throw AllocateCommandBuffersFailed
  else mret tt.

(** The loop of [createSyncObjects]; the three creations are the operands of
    one [||], so the first failure skips the rest.  A fence is created with
    [VK_FENCE_CREATE_SIGNALED_BIT]. *)
Fixpoint createSyncObjects_loop (env : SyncEnv) (count i : nat) : M unit :=
  match count with
  | O => mret tt
  | S count' =>
      r ← this;
      call (CreateSemaphore (m_device r));;
      assign (λ r, with_syncObjects
                     (<[i := snd (createImageAvailableResult env i)]>
                        (m_imageAvailableSemaphores r))
                     (m_renderFinishedSemaphores r) (m_inFlightFences r) r);;
      if negb (fst (createImageAvailableResult env i) =? VK_SUCCESS)
      then throw CreateSyncObjectsFailed
      else
        call (CreateSemaphore (m_device r));;
        assign (λ r, with_syncObjects (m_imageAvailableSemaphores r)
                       (<[i := snd (createRenderFinishedResult env i)]>
                          (m_renderFinishedSemaphores r))
                       (m_inFlightFences r) r);;
        if negb (fst (createRenderFinishedResult env i) =? VK_SUCCESS)
        then throw CreateSyncObjectsFailed
        else
          call (CreateFence (m_device r) true);;
          assign (λ r, with_syncObjects (m_imageAvailableSemaphores r)
                         (m_renderFinishedSemaphores r)
                         (<[i := snd (createFenceResult env i)]>
                            (m_inFlightFences r)) r);;
          if negb (fst (createFenceResult env i) =? VK_SUCCESS)
          then throw CreateSyncObjectsFailed
          else
            setFences (insert (snd (createFenceResult env i)) Signaled);;
            createSyncObjects_loop env count' (S i)
  end.

Definition createSyncObjects (env : SyncEnv) : M unit :=
  r ← this;
  let count := length (m_commandBuffers r) in
  assign (with_syncObjects
            (resize (m_imageAvailableSemaphores r) count)
            (resize (m_renderFinishedSemaphores r) count)
            (resize (m_inFlightFences r) count));;
  createSyncObjects_loop env count 0.

(** ** Recording and the frame *)

(** The driver's answers during one [drawFrame], and the environment of a
    recreation should the frame run one. *)
Record FrameEnv := {
  acquireResult : Z;
  acquireImageIndex : Z;
  beginResult : Z;
  endResult : Z;
  submitResult : Z;
  presentResult : Z;
  recreateEnv : SwapChainEnv
}.

Definition recordCommandBuffer (env : FrameEnv) (commandBuffer imageIndex : Z)
    : M unit :=
  r ← this;
  call (BeginCommandBuffer commandBuffer);;
  if negb (beginResult env =? VK_SUCCESS) then throw BeginCommandBufferFailed
  else
    framebuffer ← at_index (m_swapChainFramebuffers r) imageIndex;
    call (CmdBeginRenderPass commandBuffer (m_renderPass r) framebuffer
            (m_swapChainExtent r));;
    call (CmdBindPipeline commandBuffer (m_graphicsPipeline r));;
    call (CmdSetViewport commandBuffer (letterboxViewport (m_swapChainExtent r)));;
    call (CmdSetScissor commandBuffer (m_swapChainExtent r));;
    call (CmdDraw commandBuffer 3 1 0 0);;
    call (CmdEndRenderPass commandBuffer);;
    call (EndCommandBuffer commandBuffer);;
    if negb (endResult env =? VK_SUCCESS) then throw EndCommandBufferFailed
    else mret tt.

(** [vkQueueSubmit] that succeeded: the fence will be signaled when the batch
    completes. *)
Definition vkQueueSubmit (env : FrameEnv)
    (queue waitSemaphore commandBuffer signalSemaphore fence : Z) : M unit :=
  call (QueueSubmit queue waitSemaphore commandBuffer signalSemaphore fence);;
  if negb (submitResult env =? VK_SUCCESS) then throw SubmitFailed
  else setFences (insert fence Pending).

(** [drawFrame] from [vkResetFences] to the test of the presentation result. *)
Definition drawFrame_present (env : FrameEnv) : M unit :=
  r ← this;
  fence ← at_index (m_inFlightFences r) (m_currentFrame r);
  vkResetFences (m_device r) fence;;
  commandBuffer ← at_index (m_commandBuffers r) (m_currentFrame r);
  call (ResetCommandBuffer commandBuffer);;
  recordCommandBuffer env commandBuffer (acquireImageIndex env);;
  imageAvailable ← at_index (m_imageAvailableSemaphores r) (m_currentFrame r);
  renderFinished ← at_index (m_renderFinishedSemaphores r) (m_currentFrame r);
  vkQueueSubmit env (m_graphicsQueue r) imageAvailable commandBuffer
    renderFinished fence;;
  call (QueuePresentKHR (m_presentQueue r) renderFinished (m_swapChain r)
          (acquireImageIndex env));;
  let result := presentResult env in
  if (result =? VK_ERROR_OUT_OF_DATE_KHR) || (result =? VK_SUBOPTIMAL_KHR)
     || m_framebufferResized r
  then assign (setFramebufferResized false);;
       recreateSwapChain (recreateEnv env)
  else if negb (result =? VK_SUCCESS) then throw PresentFailed
  else mret tt.

(** [m_currentFrame = (m_currentFrame + 1) % m_commandBuffers.size();]: the sum
    is a [uint32_t], the remainder a [size_t] stored into a [uint32_t]. *)
Definition advanceFrame : M unit :=
  r ← this;
  let size := Z.of_nat (length (m_commandBuffers r)) in
  if size =? 0 then undefined
  else assign (with_currentFrame (wrap32 (wrap32 (m_currentFrame r + 1) mod size))).

(** The statements of [drawFrame] after the acquisition went through. *)
Definition drawFrame_render (env : FrameEnv) : M unit :=
  drawFrame_present env;;
  advanceFrame.

Definition drawFrame (env : FrameEnv) : M unit :=
  r ← this;
  fence ← at_index (m_inFlightFences r) (m_currentFrame r);
  vkWaitForFences (m_device r) fence;;
  imageAvailable ← at_index (m_imageAvailableSemaphores r) (m_currentFrame r);
  call (AcquireNextImageKHR (m_device r) (m_swapChain r) imageAvailable);;
  let result := acquireResult env in
  if result =? VK_ERROR_OUT_OF_DATE_KHR
  then recreateSwapChain (recreateEnv env)
  else if negb (result =? VK_SUCCESS) && negb (result =? VK_SUBOPTIMAL_KHR)
  then throw AcquireFailed
  else drawFrame_render env.

(** [void VulkanRenderer::render() { drawFrame(); }] *)
Definition render (env : FrameEnv) : M unit := drawFrame env.

(** ** Shutdown *)

(** The loop of [cleanup] over [i < m_commandBuffers.size()]. *)
Fixpoint cleanup_syncObjects (count : nat) (i : Z) : M unit :=
  match count with
  | O => mret tt
  | S count' =>
      r ← this;
      renderFinished ← at_index (m_renderFinishedSemaphores r) i;
      call (DestroySemaphore (m_device r) renderFinished);;
      imageAvailable ← at_index (m_imageAvailableSemaphores r) i;
      call (DestroySemaphore (m_device r) imageAvailable);;
      fence ← at_index (m_inFlightFences r) i;
      vkDestroyFence (m_device r) fence;;
      cleanup_syncObjects count' (i + 1)
  end.

(** [ENABLE_VALIDATION_LAYER] is a build constant ([NDEBUG]). *)
Definition cleanup (ENABLE_VALIDATION_LAYER : bool) : M unit :=
  r ← this;
  vkDeviceWaitIdle (m_device r);;
  if m_initialized r then
    cleanupSwapChain;;
    call (DestroyPipeline (m_device r) (m_graphicsPipeline r));;
    call (DestroyPipelineLayout (m_device r) (m_pipelineLayout r));;
    call (DestroyRenderPass (m_device r) (m_renderPass r));;
    cleanup_syncObjects (length (m_commandBuffers r)) 0;;
    call (DestroyCommandPool (m_device r) (m_commandPool r));;
    call (DestroyDevice (m_device r));;
    (if ENABLE_VALIDATION_LAYER
     then call (DestroyDebugUtilsMessengerEXT (m_instance r) (m_debugMessenger r))
     else mret tt);;
    call (DestroySurfaceKHR (m_instance r) (m_surface r));;
    call (DestroyInstance (m_instance r));;
    assign (with_initialized false)
  else mret tt.

(** ** The host loop *)

(** One turn of [GameApp::run] with the window shown: [handleEvents] may have
    seen [SDL_EVENT_WINDOW_RESIZED] and called [setFramebufferResized(true)];
    then [render]. *)
Record Iteration := { windowResized : bool; frameEnv : FrameEnv }.

Definition iteration (it : Iteration) : M unit :=
  (if windowResized it then assign (setFramebufferResized true) else mret tt);;
  render (frameEnv it).

Fixpoint run_loop (its : list Iteration) : M unit :=
  match its with
  | [] => mret tt
  | it :: rest => iteration it;; run_loop rest
  end.

(** ** Vocabulary of the properties *)

(** A frame whose acquisition is not answered with out-of-date goes on to
    submission and presentation. *)
Definition acquires (env : FrameEnv) : bool :=
  negb (acquireResult env =? VK_ERROR_OUT_OF_DATE_KHR).


(** The calls a run added to the trace. *)
Definition newCalls (before after : World) : list Call :=
  drop (length (calls (driver before))) (calls (driver after)).

Definition isFenceReset (c : Call) : bool :=
  match c with
  | ResetFences _ _ => true
  | _ => false
  end.

Definition isDeviceWaitIdle (c : Call) : bool :=
  match c with
  | DeviceWaitIdle _ => true
  | _ => false
  end.

Definition isPresent (c : Call) : bool :=
  match c with
  | QueuePresentKHR _ _ _ _ => true
  | _ => false
  end.

(** The state of the frame loop: the three synchronization vectors have one
    entry per command buffer, [m_currentFrame] is a slot, and every fence of
    a slot is known to the driver and is signaled or about to be. *)
Record frame_inv (w : World) : Prop := {
  inv_slots : (0 < length (m_commandBuffers (renderer w)))%nat;
  inv_slots_uint32 : Z.of_nat (length (m_commandBuffers (renderer w))) <= UINT32_MAX;
  inv_fences :
    length (m_inFlightFences (renderer w)) = length (m_commandBuffers (renderer w));
  inv_imageAvailable :
    length (m_imageAvailableSemaphores (renderer w))
    = length (m_commandBuffers (renderer w));
  inv_renderFinished :
    length (m_renderFinishedSemaphores (renderer w))
    = length (m_commandBuffers (renderer w));
  inv_currentFrame :
    0 <= m_currentFrame (renderer w)
      < Z.of_nat (length (m_commandBuffers (renderer w)));
  inv_fence_status :
    ∀ fence, fence ∈ m_inFlightFences (renderer w) →
      fenceStatus (driver w) !! fence = Some Signaled
      ∨ fenceStatus (driver w) !! fence = Some Pending
}.

(** The device a call is made on, for the calls that take one. *)
Definition deviceOf (c : Call) : option Z :=
  match c with
  | WaitForFences d _ | AcquireNextImageKHR d _ _ | ResetFences d _
  | DeviceWaitIdle d | DestroyFramebuffer d _ | DestroyImageView d _
  | DestroySwapchainKHR d _ | CreateSwapchainKHR d _ | CreateImageView d _ _
  | CreateFramebuffer d _ _ _ | AllocateCommandBuffers d _ _ | CreateSemaphore d
  | CreateFence d _ | DestroyPipeline d _ | DestroyPipelineLayout d _
  | DestroyRenderPass d _ | DestroySemaphore d _ | DestroyFence d _
  | DestroyCommandPool d _ | DestroyDevice d => Some d
  | _ => None
  end.

(** The calls of a trace that are made on a device after [vkDestroyDevice]
    of that device. *)
Fixpoint callsOnDestroyedDevice (destroyed : list Z) (trace : list Call)
    : list Call :=
  match trace with
  | [] => []
  | c :: rest =>
      let stale :=
        match deviceOf c with
        | Some d => existsb (Z.eqb d) destroyed
        | None => false
        end in
      let destroyed' :=
        match c with
        | DestroyDevice d => d :: destroyed
        | _ => destroyed
        end in
      (if stale then [c] else []) ++ callsOnDestroyedDevice destroyed' rest
  end.

(** Family [j] of the device exists and has the graphics bit. *)
Definition graphicsAt (device : PhysicalDevice) (j : Z) : bool :=
  (0 <=? j) &&
  match queueFamilyProperties device !! Z.to_nat j with
  | Some queueFamily => hasGraphics queueFamily
  | None => false
  end.

(** Family [j] of the device exists and can present to the surface. *)
Definition presentAt (device : PhysicalDevice) (surface : Z) (j : Z) : bool :=
  (0 <=? j) && (j <? Z.of_nat (length (queueFamilyProperties device)))
  && surfaceSupport device j surface.

(** The least index below [count] that satisfies [p]. *)
Fixpoint first_index_where (p : Z -> bool) (count : nat) : option Z :=
  match count with
  | O => None
  | S c =>
      match first_index_where p c with
      | Some j => Some j
      | None => if p (Z.of_nat c) then Some (Z.of_nat c) else None
      end
  end.

(** The greatest index below [count] that satisfies [p]. *)
Fixpoint last_index_where (p : Z -> bool) (count : nat) : option Z :=
  match count with
  | O => None
  | S c => if p (Z.of_nat c) then Some (Z.of_nat c) else last_index_where p c
  end.

(** Both capabilities occur among the first [count] families. *)
Definition bothSeen (device : PhysicalDevice) (surface : Z) (count : nat) : bool :=
  match first_index_where (graphicsAt device) count,
        first_index_where (presentAt device surface) count with
  | Some _, Some _ => true
  | _, _ => false
  end.

(** The pair [chooseSwapSurfaceFormat] looks for. *)
Definition preferredFormat : VkSurfaceFormatKHR :=
  {| format := VK_FORMAT_B8G8R8A8_SRGB;
     colorSpace := VK_COLOR_SPACE_SRGB_NONLINEAR_KHR |}.

(** The calls a swap-chain recreation is made of. *)
Definition isSwapChainCall (c : Call) : bool :=
  match c with
  | DeviceWaitIdle _ | DestroyFramebuffer _ _ | DestroyImageView _ _
  | DestroySwapchainKHR _ _ | CreateSwapchainKHR _ _ | CreateImageView _ _ _
  | CreateFramebuffer _ _ _ _ => true
  | _ => false
  end.

(** Nothing goes wrong while the swap chain is rebuilt: there is a format to
    choose, both queue families are found, the driver accepts every creation
    call. *)
Record cooperative (surface : Z) (env : SwapChainEnv) : Prop := {
  coop_formats : formats (swapChainSupport env) ≠ [];
  coop_families : isComplete (findQueueFamilies (physicalDevice env) surface) = true;
  coop_swapchain : fst (createSwapchainResult env) = VK_SUCCESS;
  coop_imageViews : ∀ i, fst (createImageViewResult env i) = VK_SUCCESS;
  coop_framebuffers : ∀ i, fst (createFramebufferResult env i) = VK_SUCCESS
}.

(** Worlds written as changes of another world. *)
Definition logged (extra : list Call) (w : World) : World :=
  {| renderer := renderer w;
     driver := {| calls := calls (driver w) ++ extra;
                  fenceStatus := fenceStatus (driver w) |} |}.

Definition fenced (f : gmap Z FenceStatus -> gmap Z FenceStatus) (w : World)
    : World :=
  {| renderer := renderer w;
     driver := {| calls := calls (driver w);
                  fenceStatus := f (fenceStatus (driver w)) |} |}.

Definition rendered (f : VulkanRenderer -> VulkanRenderer) (w : World) : World :=
  {| renderer := f (renderer w); driver := driver w |}.

(** [r'] differs from [r] at most in the swap-chain members. *)
Definition sameOutsideSwapChain (r r' : VulkanRenderer) : Prop :=
  with_swapChainMembers (swapChainMembers r) r' = r.

(** [m] relates every world to the world it leaves, however it ends. *)
Definition keeps (R : World -> World -> Prop) {A : Type} (m : M A) : Prop :=
  ∀ w, R w (finalWorld (m w)).

(** The trace grows by calls that all satisfy [ok]. *)
Definition extendsWith (ok : Call -> bool) (w w' : World) : Prop :=
  ∃ extra, calls (driver w') = calls (driver w) ++ extra
           ∧ forallb ok extra = true.

(** What the creation and destruction steps of a recreation may do: assign
    swap-chain members, make swap-chain calls, leave the fences alone. *)
Definition swapChainStep (w w' : World) : Prop :=
  sameOutsideSwapChain (renderer w) (renderer w')
  ∧ fenceStatus (driver w') = fenceStatus (driver w)
  ∧ extendsWith isSwapChainCall w w'.

(** What the frame does before it advances: the slot, the command buffers
    and the synchronization vectors stay. *)
Definition sameSlots (w w' : World) : Prop :=
  m_currentFrame (renderer w') = m_currentFrame (renderer w)
  ∧ pipelineMembers (renderer w') = pipelineMembers (renderer w).


(** The calls that record into a command buffer. *)
Definition isRecordingCall (c : Call) : bool :=
  match c with
  | BeginCommandBuffer _ | CmdBeginRenderPass _ _ _ _ | CmdBindPipeline _ _
  | CmdSetViewport _ _ | CmdSetScissor _ _ | CmdDraw _ _ _ _ _
  | CmdEndRenderPass _ | EndCommandBuffer _ => true
  | _ => false
  end.

(** What recording does: calls on the command buffer, nothing else. *)
Definition recordingStep (w w' : World) : Prop :=
  renderer w' = renderer w
  ∧ fenceStatus (driver w') = fenceStatus (driver w)
  ∧ extendsWith isRecordingCall w w'.

(** The test of [drawFrame] after [vkQueuePresentKHR]. *)
Definition mustRecreate (env : FrameEnv) (r : VulkanRenderer) : bool :=
  (presentResult env =? VK_ERROR_OUT_OF_DATE_KHR)
  || (presentResult env =? VK_SUBOPTIMAL_KHR)
  || m_framebufferResized r.

(** ** Sample data *)

Definition sampleDevice : PhysicalDevice :=
  {| queueFamilyProperties :=
       [ {| queueFlags := 1; queueCount := 1 |};
         {| queueFlags := 3; queueCount := 1 |} ];
     surfaceSupport := λ i _, i =? 1 |}.

Definition sampleCapabilities : VkSurfaceCapabilitiesKHR :=
  {| minImageCount := 2; maxImageCount := 2;
     currentExtent := {| width := UINT32_MAX; height := UINT32_MAX |};
     minImageExtent := {| width := 100; height := 100 |};
     maxImageExtent := {| width := 4096; height := 4096 |};
     currentTransform := 1 |}.

Definition sampleSwapChainEnv : SwapChainEnv :=
  {| physicalDevice := sampleDevice;
     swapChainSupport :=
       {| capabilities := sampleCapabilities;
          formats := [ {| format := 44; colorSpace := 0 |};
                       {| format := 50; colorSpace := 0 |} ];
          presentModes := [2] |};
     windowSizeInPixels := (1000, 600);
     createSwapchainResult := (VK_SUCCESS, 110);
     swapchainImages := [111; 112];
     createImageViewResult := λ i, (VK_SUCCESS, 121 + Z.of_nat i);
     createFramebufferResult := λ i, (VK_SUCCESS, 131 + Z.of_nat i) |}.

Definition sampleRenderer : VulkanRenderer :=
  {| m_initialized := true; m_instance := 1; m_debugMessenger := 2;
     m_surface := 3; m_physicalDevice := 4; m_device := 5;
     m_graphicsQueue := 6; m_presentQueue := 7;
     m_swapChain := 10; m_swapChainImages := [11; 12];
     m_swapChainImageFormat := 50;
     m_swapChainExtent := {| width := 800; height := 600 |};
     m_swapChainImageViews := [21; 22];
     m_swapChainFramebuffers := [31; 32];
     m_renderPass := 40; m_pipelineLayout := 41; m_graphicsPipeline := 42;
     m_commandPool := 43; m_commandBuffers := [51; 52];
     m_imageAvailableSemaphores := [61; 62];
     m_renderFinishedSemaphores := [71; 72];
     m_inFlightFences := [81; 82];
     m_currentFrame := 0; m_framebufferResized := false |}.

(** The world right after [initVulkan]: nothing submitted, every fence
    created signaled. *)
Definition sampleWorld : World :=
  {| renderer := sampleRenderer;
     driver := {| calls := [];
                  fenceStatus := <[81 := Signaled]> (<[82 := Signaled]> ∅) |} |}.

Definition frameOk : FrameEnv :=
  {| acquireResult := VK_SUCCESS; acquireImageIndex := 0;
     beginResult := VK_SUCCESS; endResult := VK_SUCCESS;
     submitResult := VK_SUCCESS; presentResult := VK_SUCCESS;
     recreateEnv := sampleSwapChainEnv |}.

Definition frameStale : FrameEnv :=
  {| acquireResult := VK_ERROR_OUT_OF_DATE_KHR; acquireImageIndex := 0;
     beginResult := VK_SUCCESS; endResult := VK_SUCCESS;
     submitResult := VK_SUCCESS; presentResult := VK_SUCCESS;
     recreateEnv := sampleSwapChainEnv |}.

(** The sample world after a resize event. *)
Definition sampleResizedWorld : World :=
  rendered (setFramebufferResized true) sampleWorld.


(** ** Instance and device selection, continued *)

(** [validationLayers] and [deviceExtensions] of VulkanRenderer.hpp. *)
Definition validationLayers : list string := ["VK_LAYER_KHRONOS_validation"%string].

Definition deviceExtensions : list string := ["VK_KHR_swapchain"%string].

(** The inner loop of [checkValidationLayerSupport]: [strcmp] of the name with
    every available layer, leaving at the first match. *)
Fixpoint layerFound (layerName : string) (availableLayers : list string) : bool :=
  match availableLayers with
  | [] => false
  | layerProperties :: rest =>
      if String.eqb layerName layerProperties then true
      else layerFound layerName rest
  end.

Fixpoint checkValidationLayerSupport_loop (requested availableLayers : list string)
    : bool :=
  match requested with
  | [] => true
  | layerName :: rest =>
      if negb (layerFound layerName availableLayers) then false
      else checkValidationLayerSupport_loop rest availableLayers
  end.

(** [availableLayers] is what [vkEnumerateInstanceLayerProperties] lists. *)
Definition checkValidationLayerSupport (availableLayers : list string) : bool :=
  checkValidationLayerSupport_loop validationLayers availableLayers.

(** The loop of [checkDeviceExtensionSupport]: every available name is erased
    from the [std::set] of the required ones. *)
Definition eraseAvailable (requiredExtensions : gset string)
    (availableExtensions : list string) : gset string :=
  foldl (λ required extension, required ∖ {[extension]})
    requiredExtensions availableExtensions.

(** [availableExtensions] is what [vkEnumerateDeviceExtensionProperties]
    lists for the device. *)
Definition checkDeviceExtensionSupport (availableExtensions : list string) : bool :=
  bool_decide (eraseAvailable (list_to_set deviceExtensions) availableExtensions = ∅).

(** [v.empty()] on a [std::vector]. *)
Definition vector_empty {A : Type} (v : list A) : bool :=
  match v with
  | [] => true
  | _ :: _ => false
  end.

(** Everything the driver reports about one enumerated device: its handle,
    its queue families, its extensions and [querySwapChainSupport] of it. *)
Record PhysicalDeviceReport := {
  pd_handle : Z;
  pd_queues : PhysicalDevice;
  pd_extensions : list string;
  pd_support : SwapChainSupportDetails
}.

Definition isDeviceSuitable (m_surface : Z) (device : PhysicalDeviceReport) : bool :=
  let indices := findQueueFamilies (pd_queues device) m_surface in
  let extensionsSupported := checkDeviceExtensionSupport (pd_extensions device) in
  let swapChainAdequate :=
    if extensionsSupported
    then negb (vector_empty (formats (pd_support device)))
         && negb (vector_empty (presentModes (pd_support device)))
    else false in
  isComplete indices && extensionsSupported && swapChainAdequate.

(** The two [std::runtime_error]s of [pickPhysicalDevice]. *)
Inductive PickFailure := NoPhysicalDevice | NoSuitableDevice.

(** The range-for of [pickPhysicalDevice] with its [break]; the result is the
    value of [m_physicalDevice] after the loop. *)
Fixpoint pickPhysicalDevice_loop (m_surface : Z)
    (devices : list PhysicalDeviceReport) (m_physicalDevice : Z) : Z :=
  match devices with
  | [] => m_physicalDevice
  | device :: rest =>
      if isDeviceSuitable m_surface device then pd_handle device
      else pickPhysicalDevice_loop m_surface rest m_physicalDevice
  end.

(** [pickPhysicalDevice], as a function of the member it assigns: the new
    [m_physicalDevice], or the exception. *)
Definition pickPhysicalDevice (m_surface : Z) (devices : list PhysicalDeviceReport)
    (m_physicalDevice : Z) : PickFailure + Z :=
  if Z.of_nat (length devices) =? 0 then inl NoPhysicalDevice
  else
    let picked := pickPhysicalDevice_loop m_surface devices m_physicalDevice in
    if picked =? VK_NULL_HANDLE then inl NoSuitableDevice else inr picked.

(** [std::set<uint32_t>::insert], the set being the ascending list of its
    elements. *)
Fixpoint set_insert (x : Z) (s : list Z) : list Z :=
  match s with
  | [] => [x]
  | y :: rest =>
      if x <? y then x :: s
      else if x =? y then s
      else y :: set_insert x rest
  end.

Record VkDeviceQueueCreateInfo := {
  qci_queueFamilyIndex : Z;
  qci_queueCount : Z
}.

(** The [queueCreateInfos] that [createLogicalDevice] builds from the set
    [{graphicsFamily.value(), presentFamily.value()}]; [None] is
    [std::bad_optional_access]. *)
Definition createLogicalDevice_queueCreateInfos (indices : QueueFamilyIndices)
    : option (list VkDeviceQueueCreateInfo) :=
  match graphicsFamily indices, presentFamily indices with
  | Some g, Some p =>
      let uniqueQueueFamilies := set_insert p (set_insert g []) in
      Some ((λ queueFamily, {| qci_queueFamilyIndex := queueFamily;
                               qci_queueCount := 1 |}) <$> uniqueQueueFamilies)
  | _, _ => None
  end.

(** Sample devices: one without the swap-chain extension, one suitable. *)
Definition sampleSupport : SwapChainSupportDetails :=
  {| capabilities := sampleCapabilities;
     formats := [ {| format := 44; colorSpace := 0 |} ];
     presentModes := [2] |}.

Definition sampleReports : list PhysicalDeviceReport :=
  [ {| pd_handle := 201; pd_queues := sampleDevice;
       pd_extensions := ["VK_KHR_maintenance1"%string];
       pd_support := sampleSupport |};
    {| pd_handle := 202; pd_queues := sampleDevice;
       pd_extensions := ["VK_KHR_maintenance1"%string; "VK_KHR_swapchain"%string];
       pd_support := sampleSupport |} ].

(** ** The application: [GameApp] *)

(** The event types [handleEvents] distinguishes; every other type takes the
    [default] branch. *)
Inductive SDL_Event :=
  | SDL_EVENT_QUIT
  | SDL_EVENT_WINDOW_RESIZED
  | SDL_EVENT_WINDOW_MINIMIZED
  | SDL_EVENT_WINDOW_RESTORED
  | SDL_EVENT_OTHER.

(** The two flags of [class GameApp] (GameApp.hpp); the renderer it owns is
    the renderer of the world. *)
Record GameApp := { m_isMinimized : bool; m_isRunning : bool }.

(** The [switch] of [handleEvents]. *)
Definition handleEvent (event : SDL_Event) (app : GameApp) : M GameApp :=
  match event with
  | SDL_EVENT_QUIT =>
      mret {| m_isMinimized := m_isMinimized app; m_isRunning := false |}
  | SDL_EVENT_WINDOW_RESIZED =>
      assign (setFramebufferResized true);;
      mret app
  | SDL_EVENT_WINDOW_MINIMIZED =>
      mret {| m_isMinimized := true; m_isRunning := m_isRunning app |}
  | SDL_EVENT_WINDOW_RESTORED =>
      mret {| m_isMinimized := false; m_isRunning := m_isRunning app |}
  | SDL_EVENT_OTHER => mret app
  end.

(** [handleEvents]: [SDL_PollEvent] hands out the events of the queue one by
    one until the queue is empty. *)
Fixpoint handleEvents (queue : list SDL_Event) (app : GameApp) : M GameApp :=
  match queue with
  | [] => mret app
  | event :: rest =>
      app' ← handleEvent event app;
      handleEvents rest app'
  end.

(** [GameApp::render]; [GameApp::update] has an empty body. *)
Definition GameApp_render (env : FrameEnv) : M unit := render env.

(** What one pass of the loop of [run] meets: the events queued since the
    last pass and the answers of the driver should the pass render. *)
Record Turn := { eventQueue : list SDL_Event; turnEnv : FrameEnv }.

(** The [while (m_isRunning)] loop of [run] over the passes of a script.
    [None]: the script has ended with the loop still going. *)
Fixpoint GameApp_run_loop (script : list Turn) (app : GameApp)
    : M (option GameApp) :=
  if m_isRunning app then
    match script with
    | [] => mret None
    | turn :: rest =>
        app' ← handleEvents (eventQueue turn) app;
        (if negb (m_isMinimized app') then GameApp_render (turnEnv turn)
         else mret tt);;
        GameApp_run_loop rest app'
    end
  else mret (Some app).

(** [GameApp::close], as far as the renderer is concerned; the window and
    SDL are outside the model. *)
Definition GameApp_close (ENABLE_VALIDATION_LAYER : bool) (app : GameApp)
    : M GameApp :=
  cleanup ENABLE_VALIDATION_LAYER;;
  mret {| m_isMinimized := m_isMinimized app; m_isRunning := false |}.

(** [GameApp::run] once [init] has returned [true] and set [m_isRunning]. *)
Definition GameApp_run (ENABLE_VALIDATION_LAYER : bool) (script : list Turn)
    (app : GameApp) : M (option GameApp) :=
  running ← GameApp_run_loop script
              {| m_isMinimized := m_isMinimized app; m_isRunning := true |};
  match running with
  | Some app' =>
      closed ← GameApp_close ENABLE_VALIDATION_LAYER app';
      mret (Some closed)
  | None => mret None
  end.

(** [GameApp::~GameApp]: an application still marked as running is closed. *)
Definition GameApp_destructor (ENABLE_VALIDATION_LAYER : bool) (app : GameApp)
    : M GameApp :=
  if m_isRunning app then GameApp_close ENABLE_VALIDATION_LAYER app
  else mret app.

(** ** Sample answers of a driver that refuses something *)

Definition VK_ERROR_OUT_OF_HOST_MEMORY : Z := -1.

(** The second image view is refused, and the driver leaves null in the
    output parameter. *)
Definition refusesSecondView : SwapChainEnv :=
  {| physicalDevice := physicalDevice sampleSwapChainEnv;
     swapChainSupport := swapChainSupport sampleSwapChainEnv;
     windowSizeInPixels := windowSizeInPixels sampleSwapChainEnv;
     createSwapchainResult := createSwapchainResult sampleSwapChainEnv;
     swapchainImages := swapchainImages sampleSwapChainEnv;
     createImageViewResult :=
       λ i, if (i =? 1)%nat then (VK_ERROR_OUT_OF_HOST_MEMORY, VK_NULL_HANDLE)
            else (VK_SUCCESS, 121 + Z.of_nat i);
     createFramebufferResult := createFramebufferResult sampleSwapChainEnv |}.

(** The first framebuffer is refused, and the driver leaves 77 in the
    output parameter. *)
Definition refusesFirstFramebuffer : SwapChainEnv :=
  {| physicalDevice := physicalDevice sampleSwapChainEnv;
     swapChainSupport := swapChainSupport sampleSwapChainEnv;
     windowSizeInPixels := windowSizeInPixels sampleSwapChainEnv;
     createSwapchainResult := createSwapchainResult sampleSwapChainEnv;
     swapchainImages := swapchainImages sampleSwapChainEnv;
     createImageViewResult := createImageViewResult sampleSwapChainEnv;
     createFramebufferResult :=
       λ i, if (i =? 0)%nat then (VK_ERROR_OUT_OF_HOST_MEMORY, 77)
            else (VK_SUCCESS, 131 + Z.of_nat i) |}.

(** The swap chain itself is refused, and the driver leaves null in the
    output parameter. *)
Definition refusesSwapChain : SwapChainEnv :=
  {| physicalDevice := physicalDevice sampleSwapChainEnv;
     swapChainSupport := swapChainSupport sampleSwapChainEnv;
     windowSizeInPixels := windowSizeInPixels sampleSwapChainEnv;
     createSwapchainResult := (VK_ERROR_OUT_OF_HOST_MEMORY, VK_NULL_HANDLE);
     swapchainImages := swapchainImages sampleSwapChainEnv;
     createImageViewResult := createImageViewResult sampleSwapChainEnv;
     createFramebufferResult := createFramebufferResult sampleSwapChainEnv |}.

(** A driver that accepts every allocation and creation of the command
    buffers and the synchronization objects. *)
Definition sampleSyncEnv : SyncEnv :=
  {| allocateCommandBuffersResult := VK_SUCCESS;
     allocatedCommandBuffer := λ i, 51 + Z.of_nat i;
     createImageAvailableResult := λ i, (VK_SUCCESS, 61 + Z.of_nat i);
     createRenderFinishedResult := λ i, (VK_SUCCESS, 71 + Z.of_nat i);
     createFenceResult := λ i, (VK_SUCCESS, 81 + Z.of_nat i) |}.

(** ** Vocabulary of the further properties *)

(** The calls of the loop of [cleanup] over three vectors: per slot the
    render-finished semaphore, the image-available semaphore, the fence. *)
Fixpoint destroySyncObjects (device : Z)
    (renderFinished imageAvailable fences : list Z) : list Call :=
  match renderFinished, imageAvailable, fences with
  | semaphore1 :: renderFinished', semaphore2 :: imageAvailable', fence :: fences' =>
      DestroySemaphore device semaphore1
        :: DestroySemaphore device semaphore2
        :: DestroyFence device fence
        :: destroySyncObjects device renderFinished' imageAvailable' fences'
  | _, _, _ => []
  end.

(** The driver forgets the fences of a list. *)
Definition forget (fences : list Z) (status : gmap Z FenceStatus)
    : gmap Z FenceStatus :=
  foldl (λ known fence, delete fence known) status fences.

(** The driver accepts the allocation of the command buffers and every
    creation of a synchronization object. *)
Record accepting (env : SyncEnv) : Prop := {
  accepts_commandBuffers : allocateCommandBuffersResult env = VK_SUCCESS;
  accepts_imageAvailable : ∀ i, fst (createImageAvailableResult env i) = VK_SUCCESS;
  accepts_renderFinished : ∀ i, fst (createRenderFinishedResult env i) = VK_SUCCESS;
  accepts_fences : ∀ i, fst (createFenceResult env i) = VK_SUCCESS
}.

(** The commands [recordCommandBuffer] records into a command buffer for one
    framebuffer. *)
Definition recordedCommands (r : VulkanRenderer) (commandBuffer framebuffer : Z)
    : list Call :=
  [ BeginCommandBuffer commandBuffer;
    CmdBeginRenderPass commandBuffer (m_renderPass r) framebuffer
      (m_swapChainExtent r);
    CmdBindPipeline commandBuffer (m_graphicsPipeline r);
    CmdSetViewport commandBuffer (letterboxViewport (m_swapChainExtent r));
    CmdSetScissor commandBuffer (m_swapChainExtent r);
    CmdDraw commandBuffer 3 1 0 0;
    CmdEndRenderPass commandBuffer;
    EndCommandBuffer commandBuffer ].

(** A call ends by returning or by an exception: it reads no vector out of
    range, divides by no zero and waits for no fence that stays unsignaled. *)
Definition orderly {A : Type} (o : Outcome A) : Prop :=
  match o with
  | Returned _ _ => True
  | Stopped (Thrown _) _ => True
  | Stopped Undefined _ => False
  | Stopped NeverReturns _ => False
  end.

(** The fence of a slot after [vkResetFences] in a frame that waited for it. *)
Definition resetAfterWait (fence : Z) (status : gmap Z FenceStatus)
    : gmap Z FenceStatus :=
  <[fence := Unsignaled]> (<[fence := Signaled]> status).

(** Frames whose acquisition, respectively submission, the driver refuses. *)
Definition frameAcquireRefused : FrameEnv :=
  {| acquireResult := VK_ERROR_OUT_OF_HOST_MEMORY; acquireImageIndex := 0;
     beginResult := VK_SUCCESS; endResult := VK_SUCCESS;
     submitResult := VK_SUCCESS; presentResult := VK_SUCCESS;
     recreateEnv := sampleSwapChainEnv |}.

Definition frameSubmitRefused : FrameEnv :=
  {| acquireResult := VK_SUCCESS; acquireImageIndex := 0;
     beginResult := VK_SUCCESS; endResult := VK_SUCCESS;
     submitResult := VK_ERROR_OUT_OF_HOST_MEMORY; presentResult := VK_SUCCESS;
     recreateEnv := sampleSwapChainEnv |}.

Definition framePresentRefused : FrameEnv :=
  {| acquireResult := VK_SUCCESS; acquireImageIndex := 0;
     beginResult := VK_SUCCESS; endResult := VK_SUCCESS;
     submitResult := VK_SUCCESS; presentResult := VK_ERROR_OUT_OF_HOST_MEMORY;
     recreateEnv := sampleSwapChainEnv |}.

Definition isQuit (event : SDL_Event) : bool :=
  match event with
  | SDL_EVENT_QUIT => true
  | _ => false
  end.

Definition isResized (event : SDL_Event) : bool :=
  match event with
  | SDL_EVENT_WINDOW_RESIZED => true
  | _ => false
  end.

(** The event minimizes or restores the window. *)
Definition isWindowState (event : SDL_Event) : bool :=
  match event with
  | SDL_EVENT_WINDOW_MINIMIZED | SDL_EVENT_WINDOW_RESTORED => true
  | _ => false
  end.

Definition isMinimized (event : SDL_Event) : bool :=
  match event with
  | SDL_EVENT_WINDOW_MINIMIZED => true
  | _ => false
  end.

Definition isRestored (event : SDL_Event) : bool :=
  match event with
  | SDL_EVENT_WINDOW_RESTORED => true
  | _ => false
  end.

(** Some pass of the script meets a resize event. *)
Definition resizes (script : list Turn) : bool :=
  existsb (λ turn, existsb isResized (eventQueue turn)) script.

(** A pass of the loop with the window shown, as an [Iteration]. *)
Definition turnIteration (turn : Turn) : Iteration :=
  {| windowResized := existsb isResized (eventQueue turn);
     frameEnv := turnEnv turn |}.

(** The passes up to and including the first one that meets a quit event. *)
Fixpoint untilQuit (script : list Turn) : list Turn :=
  match script with
  | [] => []
  | turn :: rest =>
      if existsb isQuit (eventQueue turn) then [turn]
      else turn :: untilQuit rest
  end.

(** Some pass of the script meets a quit event. *)
Definition quits (script : list Turn) : bool :=
  existsb (λ turn, existsb isQuit (eventQueue turn)) script.

(** A script of three passes: a frame, a resize together with the quit, and
    a pass that is never played. *)
Definition sampleScript : list Turn :=
  [ {| eventQueue := [SDL_EVENT_OTHER]; turnEnv := frameOk |};
    {| eventQueue := [SDL_EVENT_WINDOW_RESIZED; SDL_EVENT_QUIT; SDL_EVENT_OTHER];
       turnEnv := frameOk |};
    {| eventQueue := []; turnEnv := frameOk |} ].

(** The calls of the frame loop: those of a frame and those of a swap-chain
    recreation.  The other calls destroy what only [cleanup] destroys or
    create what only the initialization creates. *)
Definition isLoopCall (c : Call) : bool :=
  match c with
  | WaitForFences _ _ | AcquireNextImageKHR _ _ _ | ResetFences _ _
  | ResetCommandBuffer _ | QueueSubmit _ _ _ _ _ | QueuePresentKHR _ _ _ _ => true
  | _ => isRecordingCall c || isSwapChainCall c
  end.

(** [r'] differs from [r] at most in the swap-chain members, the slot and
    the resize flag. *)
Definition keptByLoop (r r' : VulkanRenderer) : Prop :=
  with_flags (m_initialized r') (m_currentFrame r) (m_framebufferResized r)
    (with_swapChainMembers (swapChainMembers r) r') = r.

(** What the frame loop may do, however it ends. *)
Definition loopStep (w w' : World) : Prop :=
  keptByLoop (renderer w) (renderer w') ∧ extendsWith isLoopCall w w'.

Definition isDestroyDevice (c : Call) : bool :=
  match c with
  | DestroyDevice _ => true
  | _ => false
  end.

(** The calls of [cleanup] on an initialized renderer. *)
Definition shutdownCalls (ENABLE_VALIDATION_LAYER : bool) (r : VulkanRenderer)
    : list Call :=
  let d := m_device r in
  [DeviceWaitIdle d]
  ++ (DestroyFramebuffer d <$> m_swapChainFramebuffers r)
  ++ (DestroyImageView d <$> m_swapChainImageViews r)
  ++ [DestroySwapchainKHR d (m_swapChain r);
      DestroyPipeline d (m_graphicsPipeline r);
      DestroyPipelineLayout d (m_pipelineLayout r);
      DestroyRenderPass d (m_renderPass r)]
  ++ destroySyncObjects d (m_renderFinishedSemaphores r)
       (m_imageAvailableSemaphores r) (m_inFlightFences r)
  ++ [DestroyCommandPool d (m_commandPool r); DestroyDevice d]
  ++ (if ENABLE_VALIDATION_LAYER
      then [DestroyDebugUtilsMessengerEXT (m_instance r) (m_debugMessenger r)]
      else [])
  ++ [DestroySurfaceKHR (m_instance r) (m_surface r);
      DestroyInstance (m_instance r)].

(** Passes with the window minimized: two resize events and nothing that
    restores the window or quits. *)
Definition sampleMinimizedScript : list Turn :=
  [ {| eventQueue := [SDL_EVENT_WINDOW_RESIZED]; turnEnv := frameOk |};
    {| eventQueue := [SDL_EVENT_OTHER; SDL_EVENT_WINDOW_RESIZED];
       turnEnv := frameStale |} ].

(** The capabilities [createSwapChain] reads from [querySwapChainSupport]. *)
Definition surfaceCapabilities (env : SwapChainEnv) : VkSurfaceCapabilitiesKHR :=
  capabilities (swapChainSupport env).

Definition isSetViewport (c : Call) : bool :=
  match c with
  | CmdSetViewport _ _ => true
  | _ => false
  end.

(** * Properties *)

(** ** Surface format *)

Lemma isPreferredFormat_true (f : VkSurfaceFormatKHR) :
  isPreferredFormat f = true ↔ f = preferredFormat.
Proof.
  unfold isPreferredFormat, preferredFormat. destruct f as [fmt cs]; simpl.
  rewrite andb_true_iff, !Z.eqb_eq. split.
  - intros [-> ->]. reflexivity.
  - intros H. injection H as -> ->. split; reflexivity.
Qed.

Lemma chooseSwapSurfaceFormat_loop_found (l : list VkSurfaceFormatKHR) :
  preferredFormat ∈ l → chooseSwapSurfaceFormat_loop l = Some preferredFormat.
Proof.
  induction l as [|f l IH]; intros Hin.
  - inversion Hin.
  - simpl. destruct (isPreferredFormat f) eqn:Hf.
    + apply isPreferredFormat_true in Hf. subst f. reflexivity.
    + apply IH. apply elem_of_cons in Hin as [Heq|Hin]; [|exact Hin].
      symmetry in Heq. apply isPreferredFormat_true in Heq. congruence.
Qed.

Lemma chooseSwapSurfaceFormat_loop_missing (l : list VkSurfaceFormatKHR) :
  preferredFormat ∉ l → chooseSwapSurfaceFormat_loop l = None.
Proof.
  induction l as [|f l IH]; intros Hnot; [reflexivity|].
  simpl. destruct (isPreferredFormat f) eqn:Hf.
  - apply isPreferredFormat_true in Hf. subst f.
    exfalso. apply Hnot. left.
  - apply IH. intros Hin. apply Hnot. right. exact Hin.
Qed.

(** C8.  On a non-empty list of supported formats [chooseSwapSurfaceFormat]
    returns the (B8G8R8A8_SRGB, SRGB_NONLINEAR) pair whenever the pair is a
    member of the list, wherever it stands and however the list is permuted;
    when the pair is not a member it returns the first element. *)
Theorem chooseSwapSurfaceFormat_prefers_bgra_srgb
    (availableFormats : list VkSurfaceFormatKHR) :
  availableFormats ≠ [] →
  (preferredFormat ∈ availableFormats →
     ∀ reordered, reordered ≡ₚ availableFormats →
       chooseSwapSurfaceFormat reordered = Some preferredFormat)
  ∧ (preferredFormat ∉ availableFormats →
       ∃ first rest, availableFormats = first :: rest
                     ∧ chooseSwapSurfaceFormat availableFormats = Some first).
Proof.
  intros Hne. split.
  - intros Hin reordered Hperm. unfold chooseSwapSurfaceFormat.
    rewrite chooseSwapSurfaceFormat_loop_found; [reflexivity|].
    rewrite Hperm. exact Hin.
  - intros Hnot. destruct availableFormats as [|first rest]; [congruence|].
    exists first, rest. split; [reflexivity|].
    unfold chooseSwapSurfaceFormat.
    rewrite chooseSwapSurfaceFormat_loop_missing by exact Hnot. reflexivity.
Qed.

Lemma chooseSwapSurfaceFormat_prefers_bgra_srgb_witness :
  chooseSwapSurfaceFormat
    [ {| format := 44; colorSpace := 0 |}; preferredFormat;
      {| format := 37; colorSpace := 0 |} ] = Some preferredFormat
  ∧ chooseSwapSurfaceFormat
      [ {| format := 44; colorSpace := 0 |}; {| format := 37; colorSpace := 0 |} ]
    = Some {| format := 44; colorSpace := 0 |}.
Proof.
  split.
  - refine (proj1 (chooseSwapSurfaceFormat_prefers_bgra_srgb
                     [ preferredFormat; {| format := 44; colorSpace := 0 |};
                       {| format := 37; colorSpace := 0 |} ] _) _ _ _).
    + discriminate.
    + left.
    + apply perm_swap.
  - destruct (proj2 (chooseSwapSurfaceFormat_prefers_bgra_srgb
                       [ {| format := 44; colorSpace := 0 |};
                         {| format := 37; colorSpace := 0 |} ]
                       ltac:(discriminate)))
      as (first & rest & Heq & Hres).
    + intros Hin. repeat (apply elem_of_cons in Hin as [Hin|Hin]; [discriminate|]).
      inversion Hin.
    + injection Heq as <- <-. exact Hres.
Defined.

(** ** Extent *)

Lemma clamp_max_min (v lo hi : Z) :
  lo <= hi → clamp v lo hi = Z.max lo (Z.min v hi).
Proof. intros Hle. unfold clamp. lia. Qed.

Lemma wrap32_small (z : Z) : is_uint32 z → wrap32 z = z.
Proof.
  unfold is_uint32, UINT32_MAX, wrap32. intros H. apply Z.mod_small. lia.
Qed.

(** C9.  When the width of [currentExtent] is not the [uint32_t] maximum (the
    test the function makes for "undefined"), [chooseSwapExtent] returns
    [currentExtent] itself, whatever the window size; when it is, the result
    is the pixel size of the window clamped component-wise into
    [minImageExtent, maxImageExtent]. *)
Theorem chooseSwapExtent_current_or_clamped
    (windowSize : Z * Z) (capabilities : VkSurfaceCapabilitiesKHR) :
  (width (currentExtent capabilities) ≠ UINT32_MAX →
     ∀ anySize, chooseSwapExtent anySize capabilities = currentExtent capabilities)
  ∧ (width (currentExtent capabilities) = UINT32_MAX →
     0 <= fst windowSize <= 2147483647 →
     0 <= snd windowSize <= 2147483647 →
     width (minImageExtent capabilities) <= width (maxImageExtent capabilities) →
     height (minImageExtent capabilities) <= height (maxImageExtent capabilities) →
     chooseSwapExtent windowSize capabilities
     = {| width := Z.max (width (minImageExtent capabilities))
                     (Z.min (fst windowSize) (width (maxImageExtent capabilities)));
          height := Z.max (height (minImageExtent capabilities))
                      (Z.min (snd windowSize) (height (maxImageExtent capabilities))) |}).
Proof.
  split.
  - intros Hdef anySize. unfold chooseSwapExtent.
    destruct (width (currentExtent capabilities) =? UINT32_MAX) eqn:E;
      [apply Z.eqb_eq in E; contradiction|reflexivity].
  - intros Hundef Hw Hh Hwb Hhb. unfold chooseSwapExtent.
    rewrite Hundef, Z.eqb_refl. simpl.
    rewrite !wrap32_small by (unfold is_uint32, UINT32_MAX; lia).
    rewrite !clamp_max_min by assumption. reflexivity.
Qed.

Lemma chooseSwapExtent_current_or_clamped_witness :
  chooseSwapExtent (1234, 5678)
    {| minImageCount := 2; maxImageCount := 3;
       currentExtent := {| width := 800; height := 600 |};
       minImageExtent := {| width := 100; height := 100 |};
       maxImageExtent := {| width := 4096; height := 4096 |};
       currentTransform := 1 |}
  = {| width := 800; height := 600 |}
  ∧ chooseSwapExtent (50, 50) sampleCapabilities = {| width := 100; height := 100 |}.
Proof.
  split.
  - refine (proj1 (chooseSwapExtent_current_or_clamped (0, 0) _) _ (1234, 5678)).
    simpl. unfold UINT32_MAX. lia.
  - refine (proj2 (chooseSwapExtent_current_or_clamped (50, 50) sampleCapabilities)
              _ _ _ _ _); simpl; try reflexivity; lia.
Defined.

(** ** Image count *)

(** The count computed by [createSwapChain]: [minImageCount + 1] as a
    [uint32_t] sum, lowered to [maxImageCount] when that bound is not zero. *)
Lemma swapChainImageCount_value
    (capabilities : VkSurfaceCapabilitiesKHR) :
  is_uint32 (minImageCount capabilities) →
  is_uint32 (maxImageCount capabilities) →
  (maxImageCount capabilities = 0 →
     swapChainImageCount capabilities = wrap32 (minImageCount capabilities + 1))
  ∧ (maxImageCount capabilities ≠ 0 →
     swapChainImageCount capabilities
     = Z.min (wrap32 (minImageCount capabilities + 1)) (maxImageCount capabilities))
  ∧ (minImageCount capabilities ≠ UINT32_MAX →
     wrap32 (minImageCount capabilities + 1) = minImageCount capabilities + 1)
  ∧ (minImageCount capabilities = 2 → maxImageCount capabilities = 2 →
     swapChainImageCount capabilities = 2).
Proof.
  unfold is_uint32, swapChainImageCount. intros Hmin Hmax.
  assert (Hsmall : minImageCount capabilities ≠ UINT32_MAX →
            wrap32 (minImageCount capabilities + 1) = minImageCount capabilities + 1).
  { intros Hne. apply wrap32_small. unfold is_uint32. lia. }
  repeat split.
  - intros ->. reflexivity.
  - intros Hnz.
    destruct (0 <? maxImageCount capabilities) eqn:H0;
      [|apply Z.ltb_ge in H0; lia].
    simpl.
    destruct (maxImageCount capabilities <? wrap32 (minImageCount capabilities + 1)) eqn:H1;
      [apply Z.ltb_lt in H1|apply Z.ltb_ge in H1]; lia.
  - exact Hsmall.
  - intros E2 M2. rewrite Hsmall by (rewrite E2; unfold UINT32_MAX; lia).
    rewrite E2, M2. reflexivity.
Qed.

(** ** Queue families *)

Lemma first_index_where_is_Some (p : Z -> bool) (count : nat) :
  is_Some (first_index_where p count) ↔ is_Some (last_index_where p count).
Proof.
  induction count as [|c IH]; simpl.
  - reflexivity.
  - destruct (p (Z.of_nat c)) eqn:Hp.
    + split; intros _; [eexists; reflexivity|].
      destruct (first_index_where p c); eexists; reflexivity.
    + rewrite <- IH. destruct (first_index_where p c); [reflexivity|].
      split; intros [x Hx]; discriminate.
Qed.

Lemma bothSeen_last (device : PhysicalDevice) (surface : Z) (count : nat) :
  bothSeen device surface count
  = isComplete
      {| graphicsFamily := last_index_where (graphicsAt device) count;
         presentFamily := last_index_where (presentAt device surface) count |}.
Proof.
  unfold bothSeen, isComplete; simpl.
  pose proof (first_index_where_is_Some (graphicsAt device) count) as Hg.
  pose proof (first_index_where_is_Some (presentAt device surface) count) as Hp.
  destruct (first_index_where (graphicsAt device) count),
           (last_index_where (graphicsAt device) count),
           (first_index_where (presentAt device surface) count),
           (last_index_where (presentAt device surface) count);
    try reflexivity; exfalso;
    repeat match goal with
           | H : is_Some None ↔ is_Some (Some _) |- _ =>
               destruct (proj2 H ltac:(eexists; reflexivity)); discriminate
           | H : is_Some (Some _) ↔ is_Some None |- _ =>
               destruct (proj1 H ltac:(eexists; reflexivity)); discriminate
           end.
Qed.

Lemma graphicsAt_lookup (device : PhysicalDevice) (i : nat)
    (queueFamily : VkQueueFamilyProperties) :
  queueFamilyProperties device !! i = Some queueFamily →
  graphicsAt device (Z.of_nat i) = hasGraphics queueFamily.
Proof.
  intros Hi. unfold graphicsAt. rewrite Nat2Z.id, Hi.
  destruct (0 <=? Z.of_nat i) eqn:E; [reflexivity|apply Z.leb_gt in E; lia].
Qed.

Lemma presentAt_lookup (device : PhysicalDevice) (surface : Z) (i : nat) :
  (i < length (queueFamilyProperties device))%nat →
  presentAt device surface (Z.of_nat i) = surfaceSupport device (Z.of_nat i) surface.
Proof.
  intros Hi. unfold presentAt.
  destruct (0 <=? Z.of_nat i) eqn:E; [|apply Z.leb_gt in E; lia].
  destruct (Z.of_nat i <? Z.of_nat (length (queueFamilyProperties device))) eqn:E';
    [reflexivity|apply Z.ltb_ge in E'; lia].
Qed.

(** The loop invariant: entering the loop at family [i] with the last
    capable indices among the families below [i], and not yet complete. *)
Lemma findQueueFamilies_loop_inv (device : PhysicalDevice) (surface : Z) :
  let n := length (queueFamilyProperties device) in
  ∀ (rest : list VkQueueFamilyProperties) (i : nat),
    drop i (queueFamilyProperties device) = rest →
    (i <= n)%nat →
    (∀ c, (c <= i)%nat → bothSeen device surface c = false) →
    let result :=
      findQueueFamilies_loop device surface rest (Z.of_nat i)
        {| graphicsFamily := last_index_where (graphicsAt device) i;
           presentFamily := last_index_where (presentAt device surface) i |} in
    let scanned := Z.to_nat (Z.min (snd result + 1) (Z.of_nat n)) in
    fst result
    = {| graphicsFamily := last_index_where (graphicsAt device) scanned;
         presentFamily := last_index_where (presentAt device surface) scanned |}
    ∧ bothSeen device surface scanned = isComplete (fst result)
    ∧ (∀ c, (c < scanned)%nat → bothSeen device surface c = false)
    ∧ (isComplete (fst result) = false → scanned = n).
Proof.
  intros n rest. induction rest as [|queueFamily rest IH]; intros i Hdrop Hle Hnot.
  - assert (i = n) as ->.
    { apply (f_equal length) in Hdrop. rewrite length_drop in Hdrop.
      simpl in Hdrop. fold n in Hdrop. lia. }
    simpl. replace (Z.to_nat (Z.min (Z.of_nat n + 1) (Z.of_nat n))) with n by lia.
    repeat split.
    + rewrite bothSeen_last. reflexivity.
    + intros c Hc. apply Hnot. lia.
  - assert (Hlook : queueFamilyProperties device !! i = Some queueFamily).
    { pose proof (lookup_drop (queueFamilyProperties device) i 0) as H.
      rewrite Hdrop, Nat.add_0_r in H. symmetry. exact H. }
    assert (Hlt : (i < n)%nat) by (apply lookup_lt_Some in Hlook; exact Hlook).
    assert (Hdrop' : drop (S i) (queueFamilyProperties device) = rest).
    { replace (S i) with (i + 1)%nat by lia.
      rewrite <- drop_drop, Hdrop. reflexivity. }
    pose proof (graphicsAt_lookup device i queueFamily Hlook) as Hg.
    pose proof (presentAt_lookup device surface i Hlt) as Hp.
    assert (Hstep :
      (let indices1 :=
         if hasGraphics queueFamily
         then {| graphicsFamily := Some (Z.of_nat i);
                 presentFamily := last_index_where (presentAt device surface) i |}
         else {| graphicsFamily := last_index_where (graphicsAt device) i;
                 presentFamily := last_index_where (presentAt device surface) i |} in
       if surfaceSupport device (Z.of_nat i) surface
       then {| graphicsFamily := graphicsFamily indices1;
               presentFamily := Some (Z.of_nat i) |}
       else indices1)
      = {| graphicsFamily := last_index_where (graphicsAt device) (S i);
           presentFamily := last_index_where (presentAt device surface) (S i) |}).
    { simpl. rewrite Hg, Hp.
      destruct (hasGraphics queueFamily), (surfaceSupport device (Z.of_nat i) surface);
        reflexivity. }
    cbn [findQueueFamilies_loop]. cbv zeta in Hstep. cbn [presentFamily] in *.
    rewrite Hstep.
    destruct (isComplete
                {| graphicsFamily := last_index_where (graphicsAt device) (S i);
                   presentFamily := last_index_where (presentAt device surface) (S i) |})
      eqn:Hc.
    + cbn [fst snd].
      replace (Z.to_nat (Z.min (Z.of_nat i + 1) (Z.of_nat n))) with (S i) by lia.
      repeat split.
      * rewrite bothSeen_last. reflexivity.
      * intros c Hlt'. apply Hnot. lia.
      * rewrite Hc. discriminate.
    + replace (Z.of_nat i + 1) with (Z.of_nat (S i)) by lia.
      apply IH; [exact Hdrop'|lia|].
      intros c Hc'. destruct (decide (c = S i)) as [->|Hne].
      * rewrite bothSeen_last. exact Hc.
      * apply Hnot. lia.
Qed.

(** C2, as the code has it.  [findQueueFamilies] scans the families in
    enumeration order and stops right after the first family at which a
    graphics-capable and a present-capable family have both been met (or at
    the end of the list); [graphicsFamily] and [presentFamily] then hold the
    last (greatest) capable index among the families scanned, since every
    capable family met overwrites the field. *)
Theorem findQueueFamilies_records_last_scanned
    (device : PhysicalDevice) (surface : Z) :
  let n := length (queueFamilyProperties device) in
  let stop := snd (findQueueFamilies_scan device surface) in
  let scanned := Z.to_nat (Z.min (stop + 1) (Z.of_nat n)) in
  findQueueFamilies device surface
  = {| graphicsFamily := last_index_where (graphicsAt device) scanned;
       presentFamily := last_index_where (presentAt device surface) scanned |}
  ∧ bothSeen device surface scanned = isComplete (findQueueFamilies device surface)
  ∧ (∀ c, (c < scanned)%nat → bothSeen device surface c = false)
  ∧ (isComplete (findQueueFamilies device surface) = false → scanned = n).
Proof.
  unfold findQueueFamilies, findQueueFamilies_scan.
  apply (findQueueFamilies_loop_inv device surface (queueFamilyProperties device) 0).
  - reflexivity.
  - lia.
  - intros c Hc. assert (c = 0)%nat as -> by lia. reflexivity.
Qed.

Lemma findQueueFamilies_records_last_scanned_witness :
  findQueueFamilies sampleDevice 3
  = {| graphicsFamily := Some 1; presentFamily := Some 1 |}
  ∧ bothSeen sampleDevice 3 1 = false.
Proof.
  destruct (findQueueFamilies_records_last_scanned sampleDevice 3)
    as (Hres & _ & Hbefore & _).
  split.
  - rewrite Hres. vm_compute. reflexivity.
  - apply Hbefore. vm_compute. lia.
Defined.

(** C2, as stated, fails: with a graphics-only family 0 and a family 1 that
    has graphics and can present, [graphicsFamily] is 1, not the first
    graphics-capable family 0. *)
Lemma findQueueFamilies_not_first_graphics :
  graphicsFamily (findQueueFamilies sampleDevice 3)
  ≠ first_index_where (graphicsAt sampleDevice)
      (length (queueFamilyProperties sampleDevice)).
Proof. vm_compute. discriminate. Qed.

(** ** Single precision: integers convert to finite numbers *)

Lemma digits2_pos_upper (p : positive) : Zpos p < 2 ^ Zpos (digits2_pos p).
Proof.
  induction p as [p IH|p IH|]; simpl digits2_pos.
  - rewrite Pos2Z.inj_succ, Z.pow_succ_r by lia. lia.
  - rewrite Pos2Z.inj_succ, Z.pow_succ_r by lia. lia.
  - simpl. lia.
Qed.

Lemma digits2_pos_bound (p : positive) (k : nat) :
  Zpos p < 2 ^ Z.of_nat k → Zpos (digits2_pos p) <= Z.of_nat k.
Proof.
  revert k. induction p as [p IH|p IH|]; intros k Hk.
  - destruct k as [|k]; [simpl in Hk; lia|].
    rewrite Nat2Z.inj_succ, Z.pow_succ_r in Hk by lia.
    simpl. specialize (IH k). lia.
  - destruct k as [|k]; [simpl in Hk; lia|].
    rewrite Nat2Z.inj_succ, Z.pow_succ_r in Hk by lia.
    simpl. specialize (IH k). lia.
  - destruct k as [|k]; [simpl in Hk; lia|]. simpl. lia.
Qed.

Lemma Zdigits2_bound (m k : Z) : 0 <= k → 0 <= m < 2 ^ k → 0 <= Zdigits2 m <= k.
Proof.
  intros Hk [H0 Hm]. destruct m as [|p|p]; simpl; [lia| |lia].
  split; [lia|].
  rewrite <- (Z2Nat.id k) in * by lia. apply digits2_pos_bound. exact Hm.
Qed.

Lemma shr_1_bounds (mrs : shr_record) :
  0 <= shr_m mrs → 0 <= shr_m (shr_1 mrs) <= shr_m mrs.
Proof.
  destruct mrs as [m r s]. simpl. intros H.
  destruct m as [|[p|p|]|p]; simpl; lia.
Qed.

Lemma iter_shr_1_bounds (n : positive) (mrs : shr_record) :
  0 <= shr_m mrs → 0 <= shr_m (SpecFloat.iter_pos shr_1 n mrs) <= shr_m mrs.
Proof.
  revert mrs. induction n as [n IH|n IH|]; intros mrs H; simpl.
  - pose proof (shr_1_bounds mrs H) as H1.
    pose proof (IH (shr_1 mrs) ltac:(lia)) as H2.
    pose proof (IH (SpecFloat.iter_pos shr_1 n (shr_1 mrs)) ltac:(lia)) as H3. lia.
  - pose proof (IH mrs H) as H2.
    pose proof (IH (SpecFloat.iter_pos shr_1 n mrs) ltac:(lia)) as H3. lia.
  - apply shr_1_bounds, H.
Qed.

Lemma shr_fexp_bounds (m e : Z) (l : location) :
  0 <= m →
  0 <= shr_m (fst (shr_fexp Float32.prec Float32.emax m e l)) <= m
  ∧ snd (shr_fexp Float32.prec Float32.emax m e l)
    = Z.max e (fexp Float32.prec Float32.emax (Zdigits2 m + e)).
Proof.
  intros Hm. unfold shr_fexp, shr.
  assert (Hrec : shr_m (shr_record_of_loc m l) = m)
    by (destruct l as [|[]]; reflexivity).
  destruct (fexp Float32.prec Float32.emax (Zdigits2 m + e) - e) as [|n|n] eqn:En;
    simpl.
  - rewrite Hrec. lia.
  - pose proof (iter_shr_1_bounds n (shr_record_of_loc m l)) as H.
    rewrite Hrec in H. lia.
  - rewrite Hrec. lia.
Qed.

Lemma round_nearest_even_bounds (m : Z) (l : location) :
  0 <= m → m <= round_nearest_even m l <= m + 1.
Proof.
  intros Hm. destruct l as [|[]]; simpl; try lia.
  destruct (Z.even m); lia.
Qed.

Lemma binary_round_aux_finite (sx : bool) (mx ex : Z) (lx : location) :
  0 <= mx < 2 ^ 32 → -149 <= ex <= 0 →
  Float32.is_finite (binary_round_aux Float32.prec Float32.emax sx mx ex lx) = true.
Proof.
  intros Hm He. unfold binary_round_aux.
  destruct (shr_fexp Float32.prec Float32.emax mx ex lx) as [mrs' e'] eqn:E1.
  pose proof (shr_fexp_bounds mx ex lx ltac:(lia)) as [B1 B1e].
  rewrite E1 in B1, B1e. simpl in B1, B1e.
  set (m1 := round_nearest_even (shr_m mrs') (loc_of_shr_record mrs')).
  pose proof (round_nearest_even_bounds (shr_m mrs') (loc_of_shr_record mrs')
                ltac:(lia)) as B2.
  fold m1 in B2.
  destruct (shr_fexp Float32.prec Float32.emax m1 e' loc_Exact) as [mrs'' e'']
    eqn:E2.
  pose proof (shr_fexp_bounds m1 e' loc_Exact ltac:(lia)) as [B3 B3e].
  rewrite E2 in B3, B3e. simpl in B3, B3e.
  pose proof (Zdigits2_bound mx 32 ltac:(lia) ltac:(lia)) as D1.
  pose proof (Zdigits2_bound m1 33 ltac:(lia) ltac:(lia)) as D2.
  unfold fexp, emin, Float32.prec, Float32.emax in B1e, B3e.
  destruct (shr_m mrs'') as [|p|p] eqn:Em; simpl; [reflexivity| |lia].
  unfold Float32.emax, Float32.prec.
  destruct (Z.leb_spec e'' (128 - 24)) as [Ee|Ee]; [reflexivity|]. lia.
Qed.

Lemma iter_xO_bound (p : positive) (k : nat) (b : Z) :
  0 <= b → Zpos p < 2 ^ b →
  Zpos (nat_rect _ p (λ _, xO) k) < 2 ^ (b + Z.of_nat k).
Proof.
  intros Hb Hp. induction k as [|k IH].
  - simpl. rewrite Z.add_0_r. exact Hp.
  - replace (b + Z.of_nat (S k)) with (Z.succ (b + Z.of_nat k)) by lia.
    rewrite Z.pow_succ_r by lia. simpl nat_rect. lia.
Qed.

Lemma of_Z_finite (z : Z) :
  is_uint32 z → Float32.is_finite (Float32.of_Z z) = true.
Proof.
  unfold is_uint32, UINT32_MAX. intros Hz.
  unfold Float32.of_Z, binary_normalize.
  destruct z as [|p|p]; [reflexivity| |lia].
  unfold binary_round.
  pose proof (digits2_pos_upper p) as Hup.
  pose proof (Zdigits2_bound (Zpos p) 32 ltac:(lia) ltac:(lia)) as Hd. simpl in Hd.
  destruct (shl_align p 0 (fexp Float32.prec Float32.emax (Zpos (digits2_pos p) + 0)))
    as [mz ez] eqn:Es.
  unfold shl_align, fexp, emin, Float32.prec, Float32.emax in Es.
  rewrite Z.add_0_r, Z.sub_0_r in Es.
  apply binary_round_aux_finite.
  - destruct (Z.max (Zpos (digits2_pos p) - 24) (3 - 128 - 24)) as [|q|q] eqn:Eq;
      injection Es as <- <-; try lia.
    split; [lia|].
    rewrite Pos2Nat.inj_iter.
    pose proof (iter_xO_bound p (Pos.to_nat q) (Zpos (digits2_pos p))
                  ltac:(lia) Hup) as H.
    eapply Z.lt_le_trans; [exact H|].
    apply Z.pow_le_mono_r; lia.
  - destruct (Z.max (Zpos (digits2_pos p) - 24) (3 - 128 - 24)) as [|q|q] eqn:Eq;
      injection Es as <- <-; lia.
Qed.

(** [(v - v) / 2.0f] is [+0] for a finite [v]. *)
Lemma centered_offset_zero (v : spec_float) :
  Float32.is_finite v = true →
  Float32.div (Float32.sub v v) (Float32.of_Z 2) = Float32.zero.
Proof.
  intros Hv. destruct v as [s|s| |s m e]; try discriminate.
  - destruct s; reflexivity.
  - unfold Float32.sub, SFsub. rewrite Z.sub_diag. reflexivity.
Qed.

(** ** Letterboxed viewport *)

(** The viewport computed by [recordCommandBuffer] has ratio 4:3 and is
    centered in the extent: when width/height exceeds 4/3 the width becomes
    height*(4/3) and the height stays, otherwise the height becomes
    width/(4/3) and the width stays; each offset is (extent - scaled size)/2,
    which is 0 in the direction that was not scaled. *)
Lemma letterboxViewport_shape (extent : VkExtent2D) :
  is_uint32 (width extent) → is_uint32 (height extent) →
  let w := Float32.of_Z (width extent) in
  let h := Float32.of_Z (height extent) in
  let vp := letterboxViewport extent in
  vp_x vp = Float32.div (Float32.sub w (vp_width vp)) (Float32.of_Z 2)
  ∧ vp_y vp = Float32.div (Float32.sub h (vp_height vp)) (Float32.of_Z 2)
  ∧ (if Float32.gtb (Float32.div w h) targetAspectRatio
     then vp_width vp = Float32.mul h targetAspectRatio
          ∧ vp_height vp = h
          ∧ vp_y vp = Float32.zero
     else vp_width vp = w
          ∧ vp_height vp = Float32.div w targetAspectRatio
          ∧ vp_x vp = Float32.zero).
Proof.
  intros Hw Hh w h vp. subst vp. unfold letterboxViewport. fold w h.
  pose proof (centered_offset_zero w (of_Z_finite _ Hw)) as Zx.
  pose proof (centered_offset_zero h (of_Z_finite _ Hh)) as Zy.
  destruct (Float32.gtb (Float32.div w h) targetAspectRatio); simpl;
    repeat split; assumption.
Qed.

(** ** Running the monad *)

Lemma bind_run {A B : Type} (m : M A) (k : A -> M B) (w w1 : World) (a : A) :
  m w = Returned a w1 → (m ≫= k) w = k a w1.
Proof. intros H. unfold mbind, M_bind. rewrite H. reflexivity. Qed.

Lemma bind_stop {A B : Type} (m : M A) (k : A -> M B) (w w1 : World) (f : Fault) :
  m w = Stopped f w1 → (m ≫= k) w = Stopped f w1.
Proof. intros H. unfold mbind, M_bind. rewrite H. reflexivity. Qed.

Lemma bind_Returned_inv {A B : Type} (m : M A) (k : A -> M B)
    (w w' : World) (b : B) :
  (m ≫= k) w = Returned b w' →
  ∃ a w1, m w = Returned a w1 ∧ k a w1 = Returned b w'.
Proof.
  unfold mbind, M_bind. destruct (m w) as [a w1|f w1]; intros H.
  - exists a, w1. split; [reflexivity|exact H].
  - discriminate.
Qed.

Lemma at_index_Some {A : Type} (v : list A) (i : Z) (a : A) (w : World) :
  0 <= i → v !! Z.to_nat i = Some a → at_index v i w = Returned a w.
Proof.
  intros Hi Hl. unfold at_index.
  destruct (i <? 0) eqn:E; [apply Z.ltb_lt in E; lia|].
  rewrite Hl. reflexivity.
Qed.

Lemma at_index_finalWorld {A : Type} (v : list A) (i : Z) (w : World) :
  finalWorld (at_index v i w) = w.
Proof.
  unfold at_index. destruct (i <? 0); [reflexivity|].
  destruct (v !! Z.to_nat i); reflexivity.
Qed.

Lemma logged_logged (a b : list Call) (w : World) :
  logged b (logged a w) = logged (a ++ b) w.
Proof. unfold logged; simpl. rewrite app_assoc. reflexivity. Qed.

Lemma newCalls_logged (extra : list Call) (w w' : World) :
  calls (driver w') = calls (driver w) ++ extra → newCalls w w' = extra.
Proof.
  intros H. unfold newCalls. rewrite H, drop_app_length. reflexivity.
Qed.

(** ** Relations kept by every outcome *)

Section Keeps.
Variable R : World -> World -> Prop.
Hypothesis R_refl : ∀ w, R w w.
Hypothesis R_trans : ∀ a b c, R a b → R b c → R a c.

Lemma keeps_ret {A : Type} (a : A) : keeps R (mret a).
Proof. intros w. apply R_refl. Qed.

Lemma keeps_throw {A : Type} (e : Exception) : keeps R (@throw A e).
Proof. intros w. apply R_refl. Qed.

Lemma keeps_undefined {A : Type} : keeps R (@undefined A).
Proof. intros w. apply R_refl. Qed.

Lemma keeps_this : keeps R this.
Proof. intros w. apply R_refl. Qed.

Lemma keeps_at_index {A : Type} (v : list A) (i : Z) : keeps R (at_index v i).
Proof. intros w. rewrite at_index_finalWorld. apply R_refl. Qed.

Lemma keeps_value {A : Type} (o : option A) : keeps R (value o).
Proof. destruct o; [apply keeps_ret|apply keeps_throw]. Qed.

Lemma keeps_bind {A B : Type} (m : M A) (k : A -> M B) :
  keeps R m → (∀ a, keeps R (k a)) → keeps R (m ≫= k).
Proof.
  intros Hm Hk w. specialize (Hm w). unfold mbind, M_bind.
  destruct (m w) as [a w1|f w1]; simpl in *.
  - eapply R_trans; [exact Hm|apply Hk].
  - exact Hm.
Qed.

Lemma keeps_if {A : Type} (b : bool) (m1 m2 : M A) :
  keeps R m1 → keeps R m2 → keeps R (if b then m1 else m2).
Proof. destruct b; intros; assumption. Qed.

Lemma keeps_for_each {A : Type} (body : A -> M unit) (v : list A) :
  (∀ a, keeps R (body a)) → keeps R (for_each body v).
Proof.
  intros Hb. induction v as [|a v IH]; simpl.
  - apply keeps_ret.
  - apply keeps_bind; [apply Hb|intros _; exact IH].
Qed.
End Keeps.

Ltac keeps_structure refl trans :=
  cbv zeta;
  repeat first
    [ apply (keeps_ret _ refl)
    | apply (keeps_throw _ refl)
    | apply (keeps_undefined _ refl)
    | apply (keeps_this _ refl)
    | apply (keeps_at_index _ refl)
    | apply (keeps_value _ refl)
    | apply (keeps_bind _ trans); [|intros ?]
    | apply keeps_if
    | apply (keeps_for_each _ refl trans); intros ?
    | match goal with
      | |- keeps _ (match ?x with _ => _ end) => destruct x
      end ].

(** ** Swap-chain recreation *)

Lemma sameOutsideSwapChain_refl (r : VulkanRenderer) : sameOutsideSwapChain r r.
Proof. destruct r; reflexivity. Qed.

Lemma sameOutsideSwapChain_trans (a b c : VulkanRenderer) :
  sameOutsideSwapChain a b → sameOutsideSwapChain b c → sameOutsideSwapChain a c.
Proof.
  unfold sameOutsideSwapChain. intros Hab Hbc.
  rewrite <- Hab at 2. rewrite <- Hbc. reflexivity.
Qed.

Lemma sameOutsideSwapChain_with (sc : SwapChainMembers) (r : VulkanRenderer) :
  sameOutsideSwapChain r (with_swapChainMembers sc r).
Proof. destruct r; reflexivity. Qed.

(** What stays when only swap-chain members change. *)
Lemma sameOutsideSwapChain_members (r r' : VulkanRenderer) :
  sameOutsideSwapChain r r' →
  pipelineMembers r' = pipelineMembers r
  ∧ m_currentFrame r' = m_currentFrame r
  ∧ m_framebufferResized r' = m_framebufferResized r
  ∧ m_initialized r' = m_initialized r
  ∧ m_device r' = m_device r
  ∧ m_surface r' = m_surface r
  ∧ m_presentQueue r' = m_presentQueue r
  ∧ m_graphicsQueue r' = m_graphicsQueue r.
Proof.
  unfold sameOutsideSwapChain. intros <-. repeat split; reflexivity.
Qed.

Lemma extendsWith_refl (ok : Call -> bool) (w : World) : extendsWith ok w w.
Proof. exists []. rewrite app_nil_r. split; reflexivity. Qed.

Lemma extendsWith_trans (ok : Call -> bool) (a b c : World) :
  extendsWith ok a b → extendsWith ok b c → extendsWith ok a c.
Proof.
  intros (x & Hx & Hokx) (y & Hy & Hoky). exists (x ++ y). split.
  - rewrite Hy, Hx, app_assoc. reflexivity.
  - rewrite forallb_app, Hokx, Hoky. reflexivity.
Qed.

Lemma swapChainStep_refl (w : World) : swapChainStep w w.
Proof.
  repeat split; [apply sameOutsideSwapChain_refl|apply extendsWith_refl].
Qed.

Lemma swapChainStep_trans (a b c : World) :
  swapChainStep a b → swapChainStep b c → swapChainStep a c.
Proof.
  intros (H1 & H2 & H3) (K1 & K2 & K3). repeat split.
  - eapply sameOutsideSwapChain_trans; eassumption.
  - congruence.
  - eapply extendsWith_trans; eassumption.
Qed.

Lemma swapChainStep_call (c : Call) :
  isSwapChainCall c = true → keeps swapChainStep (call c).
Proof.
  intros Hc w. simpl. repeat split.
  - apply sameOutsideSwapChain_refl.
  - exists [c]. split; [reflexivity|]. simpl. rewrite Hc. reflexivity.
Qed.

Lemma swapChainStep_assign (f : VulkanRenderer -> VulkanRenderer) :
  (∀ r, sameOutsideSwapChain r (f r)) → keeps swapChainStep (assign f).
Proof.
  intros Hf w. simpl. repeat split; [apply Hf|].
  exists []. simpl. rewrite app_nil_r. split; reflexivity.
Qed.

Ltac swapChain_steps :=
  keeps_structure swapChainStep_refl swapChainStep_trans;
  try (apply swapChainStep_call; reflexivity);
  try (apply swapChainStep_assign; intros [];
       unfold sameOutsideSwapChain; reflexivity).

Lemma cleanupSwapChain_step : keeps swapChainStep cleanupSwapChain.
Proof. unfold cleanupSwapChain. swapChain_steps. Qed.

Lemma createSwapChain_step (env : SwapChainEnv) :
  keeps swapChainStep (createSwapChain env).
Proof. unfold createSwapChain. swapChain_steps. Qed.

Lemma createImageViews_loop_step (env : SwapChainEnv) (images : list Z) (i : nat) :
  keeps swapChainStep (createImageViews_loop env images i).
Proof.
  revert i. induction images as [|image rest IH]; intros i; simpl.
  - swapChain_steps.
  - swapChain_steps. apply IH.
Qed.

Lemma createImageViews_step (env : SwapChainEnv) :
  keeps swapChainStep (createImageViews env).
Proof.
  unfold createImageViews. swapChain_steps. apply createImageViews_loop_step.
Qed.

Lemma createFramebuffers_loop_step (env : SwapChainEnv) (views : list Z) (i : nat) :
  keeps swapChainStep (createFramebuffers_loop env views i).
Proof.
  revert i. induction views as [|view rest IH]; intros i; simpl.
  - swapChain_steps.
  - swapChain_steps. apply IH.
Qed.

Lemma createFramebuffers_step (env : SwapChainEnv) :
  keeps swapChainStep (createFramebuffers env).
Proof.
  unfold createFramebuffers. swapChain_steps. apply createFramebuffers_loop_step.
Qed.

(** Every outcome of [recreateSwapChain]: the idle wait comes first and
    drains the fences, then only swap-chain calls and swap-chain members. *)
Lemma recreateSwapChain_outcome (env : SwapChainEnv) (w : World) :
  let w' := finalWorld (recreateSwapChain env w) in
  sameOutsideSwapChain (renderer w) (renderer w')
  ∧ fenceStatus (driver w') = drain <$> fenceStatus (driver w)
  ∧ ∃ extra,
      calls (driver w')
      = calls (driver w) ++ DeviceWaitIdle (m_device (renderer w)) :: extra
      ∧ forallb isSwapChainCall extra = true.
Proof.
  set (w1 := fenced (fmap drain) (logged [DeviceWaitIdle (m_device (renderer w))] w)).
  assert (Hrest : keeps swapChainStep
                    (cleanupSwapChain;; createSwapChain env;;
                     createImageViews env;; createFramebuffers env)).
  { apply (keeps_bind _ swapChainStep_trans);
      [apply cleanupSwapChain_step|intros _].
    apply (keeps_bind _ swapChainStep_trans);
      [apply createSwapChain_step|intros _].
    apply (keeps_bind _ swapChainStep_trans);
      [apply createImageViews_step|intros _].
    apply createFramebuffers_step. }
  specialize (Hrest w1).
  change (finalWorld
            ((cleanupSwapChain;; createSwapChain env;;
              createImageViews env;; createFramebuffers env) w1))
    with (finalWorld (recreateSwapChain env w)) in Hrest.
  destruct Hrest as (Hr & Hf & extra & Hc & Hok).
  cbv zeta. repeat split.
  - exact Hr.
  - rewrite Hf. reflexivity.
  - exists extra. split; [|exact Hok].
    rewrite Hc. simpl. rewrite <- app_assoc. reflexivity.
Qed.

Lemma logged_nil (w : World) : logged [] w = w.
Proof.
  destruct w as [r [c f]]. unfold logged; simpl. rewrite app_nil_r. reflexivity.
Qed.

Lemma for_each_call {A : Type} (f : A -> Call) (v : list A) (w : World) :
  for_each (λ a, call (f a)) v w = Returned tt (logged (f <$> v) w).
Proof.
  revert w. induction v as [|a v IH]; intros w; simpl.
  - rewrite logged_nil. reflexivity.
  - erewrite bind_run by reflexivity. rewrite IH.
    unfold logged; simpl. rewrite <- app_assoc. reflexivity.
Qed.

Lemma cleanupSwapChain_run (w : World) :
  cleanupSwapChain w
  = Returned tt
      (logged
         ((DestroyFramebuffer (m_device (renderer w))
             <$> m_swapChainFramebuffers (renderer w))
          ++ (DestroyImageView (m_device (renderer w))
                <$> m_swapChainImageViews (renderer w))
          ++ [DestroySwapchainKHR (m_device (renderer w)) (m_swapChain (renderer w))])
         w).
Proof.
  unfold cleanupSwapChain.
  erewrite bind_run by reflexivity.
  erewrite bind_run by apply for_each_call.
  erewrite bind_run by apply for_each_call.
  unfold call, logged; simpl. rewrite <- !app_assoc. reflexivity.
Qed.

Lemma chooseSwapSurfaceFormat_nonempty (l : list VkSurfaceFormatKHR) :
  l ≠ [] → ∃ f, chooseSwapSurfaceFormat l = Some f.
Proof.
  intros Hne. unfold chooseSwapSurfaceFormat.
  destruct (chooseSwapSurfaceFormat_loop l) as [f|]; [exists f; reflexivity|].
  destruct l as [|f l]; [congruence|]. exists f. reflexivity.
Qed.

(** [createSwapChain] when the driver cooperates: one creation call, with the
    negotiated image count, extent and format, then the four assignments. *)
Lemma createSwapChain_run (env : SwapChainEnv) (w : World) :
  cooperative (m_surface (renderer w)) env →
  ∃ createInfo sc,
    createSwapChain env w
    = Returned tt
        (rendered (with_swapChainMembers sc)
           (logged [CreateSwapchainKHR (m_device (renderer w)) createInfo] w))
    ∧ ci_minImageCount createInfo
      = swapChainImageCount (capabilities (swapChainSupport env))
    ∧ Some {| format := ci_imageFormat createInfo;
              colorSpace := ci_imageColorSpace createInfo |}
      = chooseSwapSurfaceFormat (formats (swapChainSupport env))
    ∧ ci_imageExtent createInfo
      = chooseSwapExtent (windowSizeInPixels env)
          (capabilities (swapChainSupport env))
    ∧ ci_oldSwapchain createInfo = VK_NULL_HANDLE
    ∧ sc_swapChain sc = snd (createSwapchainResult env)
    ∧ sc_images sc = swapchainImages env
    ∧ sc_imageFormat sc = ci_imageFormat createInfo
    ∧ sc_extent sc = ci_imageExtent createInfo
    ∧ sc_imageViews sc = m_swapChainImageViews (renderer w)
    ∧ sc_framebuffers sc = m_swapChainFramebuffers (renderer w).
Proof.
  intros [Hfmt Hfam Hsc _ _].
  destruct (chooseSwapSurfaceFormat_nonempty _ Hfmt) as [[fmt cs] Hf].
  unfold isComplete in Hfam.
  destruct (graphicsFamily (findQueueFamilies (physicalDevice env)
                              (m_surface (renderer w)))) as [g|] eqn:Hg;
    [|discriminate].
  destruct (presentFamily (findQueueFamilies (physicalDevice env)
                             (m_surface (renderer w)))) as [p|] eqn:Hp;
    [|discriminate].
  unfold createSwapChain.
  erewrite bind_run by reflexivity. rewrite Hf.
  erewrite bind_run by reflexivity. cbv zeta. rewrite Hg, Hp.
  erewrite bind_run by reflexivity.
  erewrite bind_run by reflexivity.
  erewrite bind_run by reflexivity.
  rewrite Hsc. change (negb (VK_SUCCESS =? VK_SUCCESS)) with false. cbv iota.
  eexists _, {| sc_swapChain := _; sc_images := _; sc_imageFormat := _;
                sc_extent := _; sc_imageViews := _; sc_framebuffers := _ |}.
  split; [reflexivity|].
  cbn [ci_minImageCount ci_imageFormat ci_imageColorSpace ci_imageExtent
       ci_oldSwapchain sc_swapChain sc_images sc_imageFormat sc_extent
       sc_imageViews sc_framebuffers format colorSpace].
  repeat split; reflexivity.
Qed.

(** [createSwapChain] as far as the creation call: with a format to choose
    and both queue families found, it makes exactly one call, whatever the
    driver answers to it. *)
Lemma createSwapChain_requests (env : SwapChainEnv) (w : World) :
  formats (swapChainSupport env) ≠ [] →
  isComplete (findQueueFamilies (physicalDevice env) (m_surface (renderer w)))
  = true →
  ∃ createInfo,
    newCalls w (finalWorld (createSwapChain env w))
    = [CreateSwapchainKHR (m_device (renderer w)) createInfo]
    ∧ ci_minImageCount createInfo
      = swapChainImageCount (capabilities (swapChainSupport env))
    ∧ ci_imageExtent createInfo
      = chooseSwapExtent (windowSizeInPixels env)
          (capabilities (swapChainSupport env)).
Proof.
  intros Hfmt Hfam.
  destruct (chooseSwapSurfaceFormat_nonempty _ Hfmt) as [[fmt cs] Hf].
  unfold isComplete in Hfam.
  destruct (graphicsFamily (findQueueFamilies (physicalDevice env)
                              (m_surface (renderer w)))) as [g|] eqn:Hg;
    [|discriminate].
  destruct (presentFamily (findQueueFamilies (physicalDevice env)
                             (m_surface (renderer w)))) as [p|] eqn:Hp;
    [|discriminate].
  unfold createSwapChain.
  erewrite bind_run by reflexivity. rewrite Hf.
  erewrite bind_run by reflexivity. cbv zeta. rewrite Hg, Hp.
  erewrite bind_run by reflexivity.
  erewrite bind_run by reflexivity.
  erewrite bind_run by reflexivity.
  erewrite bind_run by reflexivity.
  eexists. split.
  - apply newCalls_logged.
    destruct (negb (fst (createSwapchainResult env) =? VK_SUCCESS)); reflexivity.
  - split; reflexivity.
Qed.

(** C5.  [createSwapChain], whenever it gets as far as the creation call
    (the surface reports a format and both queue families are found), makes
    exactly one call [vkCreateSwapchainKHR], and the image count it requests
    there is [minImageCount + 1] (a [uint32_t] sum), lowered to
    [maxImageCount] when that bound is not zero; for a minimum and a maximum
    of 2 it requests 2. *)
Theorem swapChainImageCount_min_plus_one_clamped (env : SwapChainEnv) (w : World) :
  let caps := capabilities (swapChainSupport env) in
  formats (swapChainSupport env) ≠ [] →
  isComplete (findQueueFamilies (physicalDevice env) (m_surface (renderer w)))
  = true →
  is_uint32 (minImageCount caps) →
  is_uint32 (maxImageCount caps) →
  ∃ createInfo,
    newCalls w (finalWorld (createSwapChain env w))
    = [CreateSwapchainKHR (m_device (renderer w)) createInfo]
    ∧ (maxImageCount caps = 0 →
       ci_minImageCount createInfo = wrap32 (minImageCount caps + 1))
    ∧ (maxImageCount caps ≠ 0 →
       ci_minImageCount createInfo
       = Z.min (wrap32 (minImageCount caps + 1)) (maxImageCount caps))
    ∧ (minImageCount caps ≠ UINT32_MAX →
       wrap32 (minImageCount caps + 1) = minImageCount caps + 1)
    ∧ (minImageCount caps = 2 → maxImageCount caps = 2 →
       ci_minImageCount createInfo = 2).
Proof.
  cbv zeta. intros Hfmt Hfam Hmin Hmax.
  destruct (createSwapChain_requests env w Hfmt Hfam)
    as (createInfo & Hcalls & Hcount & _).
  exists createInfo. split; [exact Hcalls|].
  rewrite Hcount.
  apply (swapChainImageCount_value (capabilities (swapChainSupport env)) Hmin Hmax).
Qed.

Lemma swapChainImageCount_min_plus_one_clamped_witness :
  ∃ createInfo,
    newCalls sampleWorld (finalWorld (createSwapChain sampleSwapChainEnv sampleWorld))
    = [CreateSwapchainKHR 5 createInfo]
    ∧ ci_minImageCount createInfo = 2.
Proof.
  destruct (swapChainImageCount_min_plus_one_clamped sampleSwapChainEnv sampleWorld)
    as (createInfo & Hcalls & _ & _ & _ & Htwo).
  - discriminate.
  - vm_compute. reflexivity.
  - unfold is_uint32, UINT32_MAX. simpl. lia.
  - unfold is_uint32, UINT32_MAX. simpl. lia.
  - exists createInfo. split; [exact Hcalls|]. apply Htwo; reflexivity.
Defined.

Lemma rendered_same_imageViews (w : World) :
  rendered (with_swapChainImageViews (m_swapChainImageViews (renderer w))) w = w.
Proof. destruct w as [[] d]. reflexivity. Qed.

Lemma rendered_same_framebuffers (w : World) :
  rendered (with_swapChainFramebuffers (m_swapChainFramebuffers (renderer w))) w = w.
Proof. destruct w as [[] d]. reflexivity. Qed.

Lemma createImageViews_loop_run (env : SwapChainEnv) (images : list Z) :
  (∀ i, fst (createImageViewResult env i) = VK_SUCCESS) →
  ∀ (i : nat) (w : World), ∃ views,
    length views = length (m_swapChainImageViews (renderer w))
    ∧ createImageViews_loop env images i w
      = Returned tt
          (rendered (with_swapChainImageViews views)
             (logged
                ((λ image, CreateImageView (m_device (renderer w)) image
                             (m_swapChainImageFormat (renderer w))) <$> images)
                w)).
Proof.
  intros Hok. induction images as [|image rest IH]; intros i w.
  - exists (m_swapChainImageViews (renderer w)). split; [reflexivity|].
    simpl. rewrite logged_nil, rendered_same_imageViews. reflexivity.
  - cbn [createImageViews_loop].
    erewrite bind_run by reflexivity.
    erewrite bind_run by reflexivity.
    rewrite Hok. change (negb (VK_SUCCESS =? VK_SUCCESS)) with false. cbv iota.
    erewrite bind_run by reflexivity.
    match goal with
    | |- context [createImageViews_loop env rest (S i) ?w1] =>
        destruct (IH (S i) w1) as (views & Hlen & Hrun)
    end.
    exists views. split.
    + rewrite Hlen. simpl. apply length_insert.
    + rewrite Hrun. f_equal. unfold rendered, logged; simpl.
      rewrite <- app_assoc. reflexivity.
Qed.

Lemma createFramebuffers_loop_run (env : SwapChainEnv) (views : list Z) :
  (∀ i, fst (createFramebufferResult env i) = VK_SUCCESS) →
  ∀ (i : nat) (w : World), ∃ framebuffers,
    length framebuffers = length (m_swapChainFramebuffers (renderer w))
    ∧ createFramebuffers_loop env views i w
      = Returned tt
          (rendered (with_swapChainFramebuffers framebuffers)
             (logged
                ((λ view, CreateFramebuffer (m_device (renderer w))
                            (m_renderPass (renderer w)) view
                            (m_swapChainExtent (renderer w))) <$> views)
                w)).
Proof.
  intros Hok. induction views as [|view rest IH]; intros i w.
  - exists (m_swapChainFramebuffers (renderer w)). split; [reflexivity|].
    simpl. rewrite logged_nil, rendered_same_framebuffers. reflexivity.
  - cbn [createFramebuffers_loop].
    erewrite bind_run by reflexivity.
    erewrite bind_run by reflexivity.
    rewrite Hok. change (negb (VK_SUCCESS =? VK_SUCCESS)) with false. cbv iota.
    erewrite bind_run by reflexivity.
    match goal with
    | |- context [createFramebuffers_loop env rest (S i) ?w1] =>
        destruct (IH (S i) w1) as (framebuffers & Hlen & Hrun)
    end.
    exists framebuffers. split.
    + rewrite Hlen. simpl. apply length_insert.
    + rewrite Hrun. f_equal. unfold rendered, logged; simpl.
      rewrite <- app_assoc. reflexivity.
Qed.

Lemma length_resize (v : list Z) (n : nat) : length (resize v n) = n.
Proof.
  unfold resize. rewrite length_app, length_take, length_replicate. lia.
Qed.

Lemma createImageViews_run (env : SwapChainEnv) (w : World) :
  (∀ i, fst (createImageViewResult env i) = VK_SUCCESS) →
  ∃ views,
    length views = length (m_swapChainImages (renderer w))
    ∧ createImageViews env w
      = Returned tt
          (rendered (with_swapChainImageViews views)
             (logged
                ((λ image, CreateImageView (m_device (renderer w)) image
                             (m_swapChainImageFormat (renderer w)))
                   <$> m_swapChainImages (renderer w))
                w)).
Proof.
  intros Hok. unfold createImageViews.
  erewrite bind_run by reflexivity.
  erewrite bind_run by reflexivity.
  match goal with
  | |- context [createImageViews_loop env ?images 0%nat ?w1] =>
      destruct (createImageViews_loop_run env images Hok 0%nat w1)
        as (views & Hlen & Hrun)
  end.
  exists views. split.
  - rewrite Hlen. cbn. apply length_resize.
  - rewrite Hrun. reflexivity.
Qed.

Lemma createFramebuffers_run (env : SwapChainEnv) (w : World) :
  (∀ i, fst (createFramebufferResult env i) = VK_SUCCESS) →
  ∃ framebuffers,
    length framebuffers = length (m_swapChainImageViews (renderer w))
    ∧ createFramebuffers env w
      = Returned tt
          (rendered (with_swapChainFramebuffers framebuffers)
             (logged
                ((λ view, CreateFramebuffer (m_device (renderer w))
                            (m_renderPass (renderer w)) view
                            (m_swapChainExtent (renderer w)))
                   <$> m_swapChainImageViews (renderer w))
                w)).
Proof.
  intros Hok. unfold createFramebuffers.
  erewrite bind_run by reflexivity.
  erewrite bind_run by reflexivity.
  erewrite bind_run by reflexivity.
  match goal with
  | |- context [createFramebuffers_loop env ?views 0%nat ?w1] =>
      destruct (createFramebuffers_loop_run env views Hok 0%nat w1)
        as (framebuffers & Hlen & Hrun)
  end.
  exists framebuffers. split.
  - rewrite Hlen. cbn. apply length_resize.
  - rewrite Hrun. reflexivity.
Qed.

(** [recreateSwapChain] when the driver cooperates: it returns, and the calls
    it made are the idle wait, the destructions and the creations, in this
    order. *)
Lemma recreateSwapChain_run (env : SwapChainEnv) (w : World) :
  let r := renderer w in
  let d := m_device r in
  cooperative (m_surface r) env →
  ∃ w' createInfo,
    recreateSwapChain env w = Returned tt w'
    ∧ let r' := renderer w' in
      newCalls w w'
      = [DeviceWaitIdle d]
        ++ (DestroyFramebuffer d <$> m_swapChainFramebuffers r)
        ++ (DestroyImageView d <$> m_swapChainImageViews r)
        ++ [DestroySwapchainKHR d (m_swapChain r)]
        ++ [CreateSwapchainKHR d createInfo]
        ++ ((λ image, CreateImageView d image (m_swapChainImageFormat r'))
              <$> m_swapChainImages r')
        ++ ((λ view, CreateFramebuffer d (m_renderPass r) view
                       (m_swapChainExtent r'))
              <$> m_swapChainImageViews r')
      ∧ m_swapChain r' = snd (createSwapchainResult env)
      ∧ m_swapChainImages r' = swapchainImages env
      ∧ length (m_swapChainImageViews r') = length (m_swapChainImages r')
      ∧ length (m_swapChainFramebuffers r') = length (m_swapChainImages r').
Proof.
  cbv zeta. intros Hcoop.
  set (w1 := fenced (fmap drain)
               (logged [DeviceWaitIdle (m_device (renderer w))] w)).
  assert (E0 : recreateSwapChain env w
               = (cleanupSwapChain;; createSwapChain env;;
                  createImageViews env;; createFramebuffers env) w1)
    by reflexivity.
  rewrite E0. clear E0.
  erewrite bind_run by apply cleanupSwapChain_run.
  match goal with
  | |- context [mbind _ (createSwapChain env) ?w2] =>
      destruct (createSwapChain_run env w2 Hcoop)
        as (createInfo & sc & Hrun & _ & _ & _ & _ & Hsc & Himg & Hfmt & Hext
              & Hviews & Hfbs)
  end.
  erewrite bind_run by exact Hrun. clear Hrun.
  match goal with
  | |- context [mbind _ (createImageViews env) ?w3] =>
      destruct (createImageViews_run env w3 (coop_imageViews _ _ Hcoop))
        as (views & Hlen & Hrun)
  end.
  erewrite bind_run by exact Hrun. clear Hrun.
  match goal with
  | |- context [createFramebuffers env ?w4] =>
      destruct (createFramebuffers_run env w4 (coop_framebuffers _ _ Hcoop))
        as (framebuffers & Hlen' & Hrun)
  end.
  eexists _, createInfo. split; [exact Hrun|].
  cbn in Hlen, Hlen'.
  cbn. rewrite Hfmt, Hext, Himg, Hsc.
  repeat split; try assumption; try congruence.
  apply newCalls_logged. cbn. rewrite <- !app_assoc. reflexivity.
Qed.

(** C7.  [recreateSwapChain] waits for the device to be idle, destroys the
    framebuffers, the image views and the swap chain, then creates the swap
    chain, the image views and the framebuffers, in this order; whatever
    the outcome, it makes no other kind of call and leaves the render pass,
    the pipeline, its layout, the command pool, the command buffers and the
    synchronization objects as they were. *)
Theorem recreateSwapChain_protocol (env : SwapChainEnv) (w : World) :
  let r := renderer w in
  let d := m_device r in
  (let w' := finalWorld (recreateSwapChain env w) in
   pipelineMembers (renderer w') = pipelineMembers r
   ∧ sameOutsideSwapChain r (renderer w')
   ∧ ∃ extra, newCalls w w' = DeviceWaitIdle d :: extra
              ∧ forallb isSwapChainCall extra = true)
  ∧ (cooperative (m_surface r) env →
     ∃ w' createInfo,
       recreateSwapChain env w = Returned tt w'
       ∧ let r' := renderer w' in
         newCalls w w'
         = [DeviceWaitIdle d]
           ++ (DestroyFramebuffer d <$> m_swapChainFramebuffers r)
           ++ (DestroyImageView d <$> m_swapChainImageViews r)
           ++ [DestroySwapchainKHR d (m_swapChain r)]
           ++ [CreateSwapchainKHR d createInfo]
           ++ ((λ image, CreateImageView d image (m_swapChainImageFormat r'))
                 <$> m_swapChainImages r')
           ++ ((λ view, CreateFramebuffer d (m_renderPass r) view
                          (m_swapChainExtent r'))
                 <$> m_swapChainImageViews r')
         ∧ m_swapChain r' = snd (createSwapchainResult env)
         ∧ m_swapChainImages r' = swapchainImages env
         ∧ length (m_swapChainImageViews r') = length (m_swapChainImages r')
         ∧ length (m_swapChainFramebuffers r') = length (m_swapChainImages r')).
Proof.
  cbv zeta. split.
  - destruct (recreateSwapChain_outcome env w) as (Hsame & _ & extra & Hcalls & Hok).
    split; [apply sameOutsideSwapChain_members, Hsame|].
    split; [exact Hsame|].
    exists extra. split; [|exact Hok].
    apply newCalls_logged. rewrite Hcalls. reflexivity.
  - apply recreateSwapChain_run.
Qed.

Lemma recreateSwapChain_protocol_witness :
  ∃ w' createInfo,
    recreateSwapChain sampleSwapChainEnv sampleWorld = Returned tt w'
    ∧ take 7 (newCalls sampleWorld w')
      = [DeviceWaitIdle 5; DestroyFramebuffer 5 31; DestroyFramebuffer 5 32;
         DestroyImageView 5 21; DestroyImageView 5 22; DestroySwapchainKHR 5 10;
         CreateSwapchainKHR 5 createInfo]
    ∧ m_swapChain (renderer w') = 110.
Proof.
  assert (Hcoop : cooperative (m_surface (renderer sampleWorld)) sampleSwapChainEnv).
  { split; simpl; try reflexivity; try discriminate. }
  destruct (proj2 (recreateSwapChain_protocol sampleSwapChainEnv sampleWorld) Hcoop)
    as (w' & createInfo & Hrun & Hcalls & Hsc & _).
  exists w', createInfo. split; [exact Hrun|]. split; [|exact Hsc].
  rewrite Hcalls. reflexivity.
Defined.

(** ** The frame *)

Lemma frame_inv_lookups (w : World) :
  frame_inv w →
  ∃ fence commandBuffer imageAvailable renderFinished,
    m_inFlightFences (renderer w) !! Z.to_nat (m_currentFrame (renderer w))
    = Some fence
    ∧ m_commandBuffers (renderer w) !! Z.to_nat (m_currentFrame (renderer w))
      = Some commandBuffer
    ∧ m_imageAvailableSemaphores (renderer w) !! Z.to_nat (m_currentFrame (renderer w))
      = Some imageAvailable
    ∧ m_renderFinishedSemaphores (renderer w) !! Z.to_nat (m_currentFrame (renderer w))
      = Some renderFinished
    ∧ (fenceStatus (driver w) !! fence = Some Signaled
       ∨ fenceStatus (driver w) !! fence = Some Pending).
Proof.
  intros [Hn _ Hf Hi Hr Hc Hs].
  assert (Hlt : (Z.to_nat (m_currentFrame (renderer w))
                 < length (m_commandBuffers (renderer w)))%nat) by lia.
  destruct (lookup_lt_is_Some_2 (m_inFlightFences (renderer w)) _
              ltac:(rewrite Hf; exact Hlt)) as [fence Hfence].
  destruct (lookup_lt_is_Some_2 (m_commandBuffers (renderer w)) _ Hlt)
    as [commandBuffer Hcb].
  destruct (lookup_lt_is_Some_2 (m_imageAvailableSemaphores (renderer w)) _
              ltac:(rewrite Hi; exact Hlt)) as [imageAvailable Hia].
  destruct (lookup_lt_is_Some_2 (m_renderFinishedSemaphores (renderer w)) _
              ltac:(rewrite Hr; exact Hlt)) as [renderFinished Hrf].
  exists fence, commandBuffer, imageAvailable, renderFinished.
  repeat split; try assumption.
  apply Hs. eapply list_elem_of_lookup_2. exact Hfence.
Qed.

Lemma vkWaitForFences_run (device fence : Z) (w : World) :
  fenceStatus (driver w) !! fence = Some Signaled
  ∨ fenceStatus (driver w) !! fence = Some Pending →
  vkWaitForFences device fence w
  = Returned tt
      (fenced (insert fence Signaled) (logged [WaitForFences device fence] w)).
Proof.
  intros Hs. unfold vkWaitForFences.
  erewrite bind_run by reflexivity.
  unfold awaitFence, logged; simpl.
  destruct Hs as [Hs|Hs]; rewrite Hs.
  - unfold fenced; simpl. rewrite insert_id by exact Hs. reflexivity.
  - reflexivity.
Qed.

(** The world in which [drawFrame] looks at the result of the acquisition. *)
Lemma drawFrame_acquire (env : FrameEnv) (w : World)
    (fence imageAvailable : Z) :
  m_inFlightFences (renderer w) !! Z.to_nat (m_currentFrame (renderer w))
  = Some fence →
  m_imageAvailableSemaphores (renderer w) !! Z.to_nat (m_currentFrame (renderer w))
  = Some imageAvailable →
  0 <= m_currentFrame (renderer w) →
  fenceStatus (driver w) !! fence = Some Signaled
  ∨ fenceStatus (driver w) !! fence = Some Pending →
  drawFrame env w
  = (if acquireResult env =? VK_ERROR_OUT_OF_DATE_KHR
     then recreateSwapChain (recreateEnv env)
     else if negb (acquireResult env =? VK_SUCCESS)
             && negb (acquireResult env =? VK_SUBOPTIMAL_KHR)
     then throw AcquireFailed
     else drawFrame_render env)
      (logged [AcquireNextImageKHR (m_device (renderer w)) (m_swapChain (renderer w))
                 imageAvailable]
         (fenced (insert fence Signaled)
            (logged [WaitForFences (m_device (renderer w)) fence] w))).
Proof.
  intros Hf Hi H0 Hs. unfold drawFrame.
  erewrite bind_run by reflexivity.
  erewrite bind_run by (apply at_index_Some; [exact H0|exact Hf]).
  erewrite bind_run by (apply vkWaitForFences_run; exact Hs).
  erewrite bind_run by (apply at_index_Some; [exact H0|exact Hi]).
  erewrite bind_run by reflexivity.
  reflexivity.
Qed.

Lemma frame_inv_transfer (w w' : World) :
  frame_inv w →
  0 <= m_currentFrame (renderer w')
    < Z.of_nat (length (m_commandBuffers (renderer w))) →
  pipelineMembers (renderer w') = pipelineMembers (renderer w) →
  (∀ fence, fence ∈ m_inFlightFences (renderer w) →
     fenceStatus (driver w') !! fence = Some Signaled
     ∨ fenceStatus (driver w') !! fence = Some Pending) →
  frame_inv w'.
Proof.
  intros [Hn Hu Hf Hi Hr Hc Hs] Hcf Hpm Hst.
  pose proof (f_equal pm_commandBuffers Hpm) as E1.
  pose proof (f_equal pm_inFlightFences Hpm) as E2.
  pose proof (f_equal pm_imageAvailableSemaphores Hpm) as E3.
  pose proof (f_equal pm_renderFinishedSemaphores Hpm) as E4.
  simpl in E1, E2, E3, E4.
  split; rewrite ?E1, ?E2, ?E3, ?E4; assumption.
Qed.

Lemma drain_lookup (fs : gmap Z FenceStatus) (fence : Z) :
  fs !! fence = Some Signaled ∨ fs !! fence = Some Pending →
  (drain <$> fs) !! fence = Some Signaled.
Proof. intros [H|H]; rewrite lookup_fmap, H; reflexivity. Qed.

Lemma insert_Signaled_lookup (fs : gmap Z FenceStatus) (fence g : Z) :
  fs !! g = Some Signaled ∨ fs !! g = Some Pending →
  <[fence := Signaled]> fs !! g = Some Signaled
  ∨ <[fence := Signaled]> fs !! g = Some Pending.
Proof.
  intros H. destruct (decide (g = fence)) as [->|Hne].
  - left. apply lookup_insert_eq.
  - rewrite lookup_insert_ne by congruence. exact H.
Qed.

Lemma swapChainCalls_reset_no_fence (l : list Call) :
  forallb isSwapChainCall l = true → existsb isFenceReset l = false.
Proof.
  induction l as [|c l IH]; [reflexivity|]. simpl.
  intros H. apply andb_true_iff in H as [Hc Hl].
  rewrite (IH Hl). destruct c; try discriminate; reflexivity.
Qed.

(** C1.  When [vkAcquireNextImageKHR] answers out-of-date, [drawFrame] is the
    wait, the acquisition and then [recreateSwapChain], whose outcome is the
    outcome of the frame: it returns when the recreation does.  However the
    recreation ends, no [vkResetFences] is made, [m_currentFrame] and the
    fence vector are as before, the fence of the slot is signaled, and the
    next [drawFrame] finds the same fence in the same slot and its wait
    comes back without a change. *)
Theorem drawFrame_out_of_date_aborts (env : FrameEnv) (w : World) :
  frame_inv w →
  acquireResult env = VK_ERROR_OUT_OF_DATE_KHR →
  let r := renderer w in
  let d := m_device r in
  ∃ fence imageAvailable,
    m_inFlightFences r !! Z.to_nat (m_currentFrame r) = Some fence
    ∧ m_imageAvailableSemaphores r !! Z.to_nat (m_currentFrame r)
      = Some imageAvailable
    ∧ drawFrame env w
      = recreateSwapChain (recreateEnv env)
          (logged [AcquireNextImageKHR d (m_swapChain r) imageAvailable]
             (fenced (insert fence Signaled) (logged [WaitForFences d fence] w)))
    ∧ (cooperative (m_surface r) (recreateEnv env) →
       returns (drawFrame env w) = true)
    ∧ let w' := finalWorld (drawFrame env w) in
      (∃ extra,
         newCalls w w'
         = WaitForFences d fence
             :: AcquireNextImageKHR d (m_swapChain r) imageAvailable
             :: DeviceWaitIdle d :: extra
         ∧ forallb isSwapChainCall extra = true)
      ∧ existsb isFenceReset (newCalls w w') = false
      ∧ m_currentFrame (renderer w') = m_currentFrame r
      ∧ m_inFlightFences (renderer w') = m_inFlightFences r
      ∧ fenceStatus (driver w')
        = drain <$> <[fence := Signaled]> (fenceStatus (driver w))
      ∧ fenceStatus (driver w') !! fence = Some Signaled
      ∧ frame_inv w'
      ∧ at_index (m_inFlightFences (renderer w')) (m_currentFrame (renderer w')) w'
        = Returned fence w'
      ∧ awaitFence fence w' = Returned tt w'.
Proof.
  intros Hinv Hstale r d. subst r d.
  destruct (frame_inv_lookups w Hinv)
    as (fence & commandBuffer & imageAvailable & renderFinished
          & Hf & _ & Hi & _ & Hs).
  exists fence, imageAvailable.
  split; [exact Hf|]. split; [exact Hi|].
  pose proof (drawFrame_acquire env w fence imageAvailable Hf Hi
                (proj1 (inv_currentFrame w Hinv)) Hs) as Hrun.
  rewrite Hstale in Hrun.
  change (VK_ERROR_OUT_OF_DATE_KHR =? VK_ERROR_OUT_OF_DATE_KHR) with true in Hrun.
  cbv iota in Hrun.
  split; [exact Hrun|].
  set (acquired :=
         logged [AcquireNextImageKHR (m_device (renderer w)) (m_swapChain (renderer w))
                   imageAvailable]
           (fenced (insert fence Signaled)
              (logged [WaitForFences (m_device (renderer w)) fence] w))) in *.
  split.
  { intros Hcoop.
    destruct (recreateSwapChain_run (recreateEnv env) acquired Hcoop)
      as (w' & ci & Hret & _).
    rewrite Hrun, Hret. reflexivity. }
  cbv zeta. rewrite Hrun.
  destruct (recreateSwapChain_outcome (recreateEnv env) acquired)
    as (Hsame & Hfences & extra & Hcalls & Hok).
  set (w' := finalWorld (recreateSwapChain (recreateEnv env) acquired)) in *.
  destruct (sameOutsideSwapChain_members _ _ Hsame)
    as (Hpm & Hcf & _ & _ & _ & _ & _ & _).
  change (renderer acquired) with (renderer w) in *.
  assert (Hnew : newCalls w w'
                 = WaitForFences (m_device (renderer w)) fence
                     :: AcquireNextImageKHR (m_device (renderer w))
                          (m_swapChain (renderer w)) imageAvailable
                     :: DeviceWaitIdle (m_device (renderer w)) :: extra).
  { apply newCalls_logged. rewrite Hcalls. unfold acquired; simpl.
    rewrite <- !app_assoc. reflexivity. }
  assert (Hsig : fenceStatus (driver w') !! fence = Some Signaled).
  { rewrite Hfences. apply drain_lookup. left. apply lookup_insert_eq. }
  assert (Hinv' : frame_inv w').
  { apply (frame_inv_transfer w w' Hinv); [|exact Hpm|].
    { rewrite Hcf. apply (inv_currentFrame w Hinv). }
    intros g Hg. left. rewrite Hfences. apply drain_lookup.
    apply insert_Signaled_lookup, (inv_fence_status w Hinv g Hg). }
  pose proof (f_equal pm_inFlightFences Hpm) as Hfv. simpl in Hfv.
  split; [exists extra; split; [exact Hnew|exact Hok]|].
  split; [rewrite Hnew; simpl; apply swapChainCalls_reset_no_fence, Hok|].
  split; [exact Hcf|]. split; [exact Hfv|]. split; [exact Hfences|].
  split; [exact Hsig|]. split; [exact Hinv'|]. split.
  - apply at_index_Some.
    + rewrite Hcf. apply (inv_currentFrame w Hinv).
    + rewrite Hfv, Hcf. exact Hf.
  - unfold awaitFence. rewrite Hsig. reflexivity.
Qed.

Lemma frame_inv_sampleWorld : frame_inv sampleWorld.
Proof.
  split; simpl; try lia; try reflexivity.
  - unfold UINT32_MAX. lia.
  - intros fence Hin. left.
    repeat (apply elem_of_cons in Hin as [->|Hin]; [reflexivity|]).
    inversion Hin.
Defined.

Lemma cooperative_sample : cooperative 3 sampleSwapChainEnv.
Proof. split; simpl; try reflexivity; discriminate. Defined.

Lemma drawFrame_out_of_date_aborts_witness :
  returns (drawFrame frameStale sampleWorld) = true
  ∧ m_currentFrame (renderer (finalWorld (drawFrame frameStale sampleWorld))) = 0.
Proof.
  destruct (drawFrame_out_of_date_aborts frameStale sampleWorld
              frame_inv_sampleWorld eq_refl)
    as (fence & imageAvailable & _ & _ & _ & Hret & _ & _ & Hcf & _).
  split.
  - apply Hret. exact cooperative_sample.
  - exact Hcf.
Defined.

(** ** What a frame keeps *)

Lemma sameSlots_refl (w : World) : sameSlots w w.
Proof. split; reflexivity. Qed.

Lemma sameSlots_trans (a b c : World) :
  sameSlots a b → sameSlots b c → sameSlots a c.
Proof. intros [H1 H2] [K1 K2]. split; congruence. Qed.

Lemma sameSlots_call (c : Call) : keeps sameSlots (call c).
Proof. intros w. split; reflexivity. Qed.

Lemma sameSlots_setFences (f : gmap Z FenceStatus -> gmap Z FenceStatus) :
  keeps sameSlots (setFences f).
Proof. intros w. split; reflexivity. Qed.

Lemma sameSlots_setFramebufferResized (b : bool) :
  keeps sameSlots (assign (setFramebufferResized b)).
Proof. intros w. split; reflexivity. Qed.

Lemma sameSlots_recreateSwapChain (env : SwapChainEnv) :
  keeps sameSlots (recreateSwapChain env).
Proof.
  intros w. destruct (recreateSwapChain_outcome env w) as (Hsame & _).
  destruct (sameOutsideSwapChain_members _ _ Hsame) as (Hpm & Hcf & _).
  split; assumption.
Qed.

Lemma recordingStep_refl (w : World) : recordingStep w w.
Proof. repeat split. apply extendsWith_refl. Qed.

Lemma recordingStep_trans (a b c : World) :
  recordingStep a b → recordingStep b c → recordingStep a c.
Proof.
  intros (H1 & H2 & H3) (K1 & K2 & K3). repeat split; try congruence.
  eapply extendsWith_trans; eassumption.
Qed.

Lemma recordingStep_call (c : Call) :
  isRecordingCall c = true → keeps recordingStep (call c).
Proof.
  intros Hc w. simpl. repeat split.
  exists [c]. split; [reflexivity|]. simpl. rewrite Hc. reflexivity.
Qed.

Lemma recordCommandBuffer_step (env : FrameEnv) (commandBuffer imageIndex : Z) :
  keeps recordingStep (recordCommandBuffer env commandBuffer imageIndex).
Proof.
  unfold recordCommandBuffer.
  keeps_structure recordingStep_refl recordingStep_trans;
    apply recordingStep_call; reflexivity.
Qed.

(** Projections of a world that has just been built are computed away, so
    that a long run does not pile them up. *)
Ltac tidy_world :=
  cbn [renderer driver calls fenceStatus logged fenced rendered].

Ltac tidy_world_in H :=
  cbn [renderer driver calls fenceStatus logged fenced rendered] in H.

Lemma recordCommandBuffer_run (env : FrameEnv) (commandBuffer imageIndex : Z)
    (w : World) (framebuffer : Z) :
  0 <= imageIndex →
  m_swapChainFramebuffers (renderer w) !! Z.to_nat imageIndex = Some framebuffer →
  recordCommandBuffer env commandBuffer imageIndex w
  = if negb (beginResult env =? VK_SUCCESS)
    then Stopped (Thrown BeginCommandBufferFailed)
           (logged [BeginCommandBuffer commandBuffer] w)
    else if negb (endResult env =? VK_SUCCESS)
    then Stopped (Thrown EndCommandBufferFailed)
           (logged (recordedCommands (renderer w) commandBuffer framebuffer) w)
    else Returned tt
           (logged (recordedCommands (renderer w) commandBuffer framebuffer) w).
Proof.
  intros H0 Hfb. unfold recordCommandBuffer.
  erewrite bind_run by reflexivity.
  erewrite bind_run by reflexivity. tidy_world.
  destruct (negb (beginResult env =? VK_SUCCESS)); [reflexivity|].
  erewrite bind_run by (apply at_index_Some; [exact H0|exact Hfb]).
  erewrite bind_run by reflexivity. tidy_world.
  erewrite bind_run by reflexivity. tidy_world.
  erewrite bind_run by reflexivity. tidy_world.
  erewrite bind_run by reflexivity. tidy_world.
  erewrite bind_run by reflexivity. tidy_world.
  erewrite bind_run by reflexivity. tidy_world.
  erewrite bind_run by reflexivity. tidy_world.
  destruct (negb (endResult env =? VK_SUCCESS)).
  - unfold throw, logged, recordedCommands. tidy_world.
    rewrite <- !app_assoc. reflexivity.
  - unfold logged, recordedCommands. cbn [mret M_ret]. tidy_world.
    rewrite <- !app_assoc. reflexivity.
Qed.

(** C6.  [recordCommandBuffer], once [vkBeginCommandBuffer] has succeeded,
    sets exactly one viewport, and that viewport has ratio 4:3 and is
    centered in the swap-chain extent: when width/height exceeds 4/3 the
    width becomes height*(4/3) and the height stays, otherwise the height
    becomes width/(4/3) and the width stays; the offsets are
    ((extent width - scaled width)/2, (extent height - scaled height)/2),
    which is 0 in the direction that was not scaled.  With the extent
    800x600 the viewport is the whole extent at (0,0), with 1000x600 it has
    width 800 at x = 100, with 800x1000 it has height 600 at y = 200. *)
Theorem letterboxViewport_four_by_three (env : FrameEnv)
    (commandBuffer imageIndex : Z) (w : World) :
  let extent := m_swapChainExtent (renderer w) in
  let recorded :=
    newCalls w (finalWorld (recordCommandBuffer env commandBuffer imageIndex w)) in
  beginResult env = VK_SUCCESS →
  0 <= imageIndex < Z.of_nat (length (m_swapChainFramebuffers (renderer w))) →
  ∃ vp,
    List.filter isSetViewport recorded = [CmdSetViewport commandBuffer vp]
    ∧ (is_uint32 (width extent) → is_uint32 (height extent) →
       let ew := Float32.of_Z (width extent) in
       let eh := Float32.of_Z (height extent) in
       vp_x vp = Float32.div (Float32.sub ew (vp_width vp)) (Float32.of_Z 2)
       ∧ vp_y vp = Float32.div (Float32.sub eh (vp_height vp)) (Float32.of_Z 2)
       ∧ (if Float32.gtb (Float32.div ew eh) targetAspectRatio
          then vp_width vp = Float32.mul eh targetAspectRatio
               ∧ vp_height vp = eh
               ∧ vp_y vp = Float32.zero
          else vp_width vp = ew
               ∧ vp_height vp = Float32.div ew targetAspectRatio
               ∧ vp_x vp = Float32.zero))
    ∧ (extent = {| width := 800; height := 600 |} →
       vp = {| vp_x := Float32.zero; vp_y := Float32.zero;
               vp_width := Float32.of_Z 800; vp_height := Float32.of_Z 600;
               vp_minDepth := Float32.zero; vp_maxDepth := Float32.of_Z 1 |})
    ∧ (extent = {| width := 1000; height := 600 |} →
       vp = {| vp_x := Float32.of_Z 100; vp_y := Float32.zero;
               vp_width := Float32.of_Z 800; vp_height := Float32.of_Z 600;
               vp_minDepth := Float32.zero; vp_maxDepth := Float32.of_Z 1 |})
    ∧ (extent = {| width := 800; height := 1000 |} →
       vp = {| vp_x := Float32.zero; vp_y := Float32.of_Z 200;
               vp_width := Float32.of_Z 800; vp_height := Float32.of_Z 600;
               vp_minDepth := Float32.zero; vp_maxDepth := Float32.of_Z 1 |}).
Proof.
  cbv zeta. intros Hbegin Hidx.
  destruct (lookup_lt_is_Some_2 (m_swapChainFramebuffers (renderer w))
              (Z.to_nat imageIndex)) as [framebuffer Hfb]; [lia|].
  exists (letterboxViewport (m_swapChainExtent (renderer w))).
  split.
  - rewrite (recordCommandBuffer_run env commandBuffer imageIndex w framebuffer
               (proj1 Hidx) Hfb).
    rewrite Hbegin. change (negb (VK_SUCCESS =? VK_SUCCESS)) with false. cbv iota.
    rewrite (newCalls_logged
               (recordedCommands (renderer w) commandBuffer framebuffer))
      by (destruct (negb (endResult env =? VK_SUCCESS)); reflexivity).
    reflexivity.
  - split; [intros Hw Hh; apply letterboxViewport_shape; assumption|].
    repeat split; intros ->; vm_compute; reflexivity.
Qed.

Lemma letterboxViewport_four_by_three_witness :
  ∃ vp,
    List.filter isSetViewport
      (newCalls sampleWorld (finalWorld (recordCommandBuffer frameOk 51 0 sampleWorld)))
    = [CmdSetViewport 51 vp]
    ∧ vp_width vp = Float32.of_Z 800
    ∧ vp_x vp = Float32.zero.
Proof.
  destruct (letterboxViewport_four_by_three frameOk 51 0 sampleWorld)
    as (vp & Hcalls & _ & Hfull & _).
  - reflexivity.
  - simpl. lia.
  - exists vp. split; [exact Hcalls|].
    rewrite (Hfull eq_refl). split; reflexivity.
Defined.

Lemma sameSlots_recordCommandBuffer (env : FrameEnv) (commandBuffer imageIndex : Z) :
  keeps sameSlots (recordCommandBuffer env commandBuffer imageIndex).
Proof.
  intros w. destruct (recordCommandBuffer_step env commandBuffer imageIndex w)
    as (Hr & _). split; rewrite Hr; reflexivity.
Qed.

Lemma sameSlots_drawFrame_present (env : FrameEnv) :
  keeps sameSlots (drawFrame_present env).
Proof.
  unfold drawFrame_present.
  apply (keeps_bind _ sameSlots_trans); [apply (keeps_this _ sameSlots_refl)|].
  intros r.
  apply (keeps_bind _ sameSlots_trans); [apply (keeps_at_index _ sameSlots_refl)|].
  intros fence.
  apply (keeps_bind _ sameSlots_trans).
  { unfold vkResetFences. apply (keeps_bind _ sameSlots_trans);
      [apply sameSlots_call|intros _; apply sameSlots_setFences]. }
  intros _.
  apply (keeps_bind _ sameSlots_trans); [apply (keeps_at_index _ sameSlots_refl)|].
  intros commandBuffer.
  apply (keeps_bind _ sameSlots_trans); [apply sameSlots_call|]. intros _.
  apply (keeps_bind _ sameSlots_trans); [apply sameSlots_recordCommandBuffer|].
  intros _.
  apply (keeps_bind _ sameSlots_trans); [apply (keeps_at_index _ sameSlots_refl)|].
  intros imageAvailable.
  apply (keeps_bind _ sameSlots_trans); [apply (keeps_at_index _ sameSlots_refl)|].
  intros renderFinished.
  apply (keeps_bind _ sameSlots_trans).
  { unfold vkQueueSubmit. apply (keeps_bind _ sameSlots_trans);
      [apply sameSlots_call|intros _].
    apply keeps_if; [apply (keeps_throw _ sameSlots_refl)|apply sameSlots_setFences]. }
  intros _.
  apply (keeps_bind _ sameSlots_trans); [apply sameSlots_call|]. intros _.
  cbv zeta. apply keeps_if.
  - apply (keeps_bind _ sameSlots_trans);
      [apply sameSlots_setFramebufferResized|intros _].
    apply sameSlots_recreateSwapChain.
  - apply keeps_if; [apply (keeps_throw _ sameSlots_refl)|].
    apply (keeps_ret _ sameSlots_refl).
Qed.

Lemma vkQueueSubmit_run (env : FrameEnv)
    (queue waitSemaphore commandBuffer signalSemaphore fence : Z) (w : World) :
  vkQueueSubmit env queue waitSemaphore commandBuffer signalSemaphore fence w
  = if submitResult env =? VK_SUCCESS
    then Returned tt
           (fenced (insert fence Pending)
              (logged [QueueSubmit queue waitSemaphore commandBuffer
                         signalSemaphore fence] w))
    else Stopped (Thrown SubmitFailed)
           (logged [QueueSubmit queue waitSemaphore commandBuffer
                      signalSemaphore fence] w).
Proof.
  unfold vkQueueSubmit. erewrite bind_run by reflexivity.
  destruct (submitResult env =? VK_SUCCESS); reflexivity.
Qed.

(** A [drawFrame_present] that returns: fence reset, command buffer reset and
    recorded, submission accepted (the fence is in flight), presentation;
    then either the recreation, which returned, or nothing. *)
Lemma drawFrame_present_Returned (env : FrameEnv) (w w' : World)
    (fence commandBuffer imageAvailable renderFinished : Z) :
  let r := renderer w in
  m_inFlightFences r !! Z.to_nat (m_currentFrame r) = Some fence →
  m_commandBuffers r !! Z.to_nat (m_currentFrame r) = Some commandBuffer →
  m_imageAvailableSemaphores r !! Z.to_nat (m_currentFrame r) = Some imageAvailable →
  m_renderFinishedSemaphores r !! Z.to_nat (m_currentFrame r) = Some renderFinished →
  0 <= m_currentFrame r →
  drawFrame_present env w = Returned tt w' →
  ∃ (recorded : list Call) (presented : World),
    forallb isRecordingCall recorded = true
    ∧ submitResult env = VK_SUCCESS
    ∧ renderer presented = r
    ∧ fenceStatus (driver presented)
      = <[fence := Pending]> (<[fence := Unsignaled]> (fenceStatus (driver w)))
    ∧ calls (driver presented)
      = calls (driver w)
        ++ [ResetFences (m_device r) fence; ResetCommandBuffer commandBuffer]
        ++ recorded
        ++ [QueueSubmit (m_graphicsQueue r) imageAvailable commandBuffer
              renderFinished fence;
            QueuePresentKHR (m_presentQueue r) renderFinished (m_swapChain r)
              (acquireImageIndex env)]
    ∧ (if mustRecreate env r
       then recreateSwapChain (recreateEnv env)
              (rendered (setFramebufferResized false) presented)
            = Returned tt w'
       else presentResult env = VK_SUCCESS ∧ w' = presented).
Proof.
  intros r Hf Hcb Hi Hr H0 H. subst r. unfold drawFrame_present in H.
  erewrite bind_run in H by reflexivity.
  erewrite bind_run in H by (apply at_index_Some; [exact H0|exact Hf]).
  erewrite bind_run in H by reflexivity.
  erewrite bind_run in H by (apply at_index_Some; [exact H0|exact Hcb]).
  erewrite bind_run in H by reflexivity.
  match type of H with
  | context [mbind _ (recordCommandBuffer env ?c ?i) ?wA] =>
      pose proof (recordCommandBuffer_step env c i wA) as (Hrr & Hrf & rec & Hrc & Hrok);
      destruct (recordCommandBuffer env c i wA) as [[] wB|flt wB] eqn:Hrec
  end; [|erewrite bind_stop in H by exact Hrec; discriminate].
  erewrite bind_run in H by exact Hrec. simpl in Hrr, Hrf, Hrc.
  erewrite bind_run in H by (apply at_index_Some; [exact H0|exact Hi]).
  erewrite bind_run in H by (apply at_index_Some; [exact H0|exact Hr]).
  match type of H with
  | context [mbind _ (vkQueueSubmit env ?q ?s1 ?c ?s2 ?f) ?wC] =>
      pose proof (vkQueueSubmit_run env q s1 c s2 f wC) as Hsub
  end.
  destruct (submitResult env =? VK_SUCCESS) eqn:Es;
    [|erewrite bind_stop in H by exact Hsub; discriminate].
  apply Z.eqb_eq in Es.
  erewrite bind_run in H by exact Hsub. clear Hsub.
  erewrite bind_run in H by reflexivity.
  cbv zeta in H.
  fold (mustRecreate env (renderer w)) in H.
  match type of H with
  | (if _ then _ else _) ?wP = _ => exists rec, wP
  end.
  split; [exact Hrok|]. split; [exact Es|].
  split; [simpl; exact Hrr|].
  split; [simpl; rewrite Hrf; reflexivity|].
  split; [simpl; rewrite Hrc; simpl; rewrite <- !app_assoc; reflexivity|].
  destruct (mustRecreate env (renderer w)).
  - erewrite bind_run in H by reflexivity. exact H.
  - destruct (negb (presentResult env =? VK_SUCCESS)) eqn:Ep; [discriminate|].
    apply negb_false_iff, Z.eqb_eq in Ep.
    split; [exact Ep|]. injection H as <-. reflexivity.
Qed.

Lemma advanceFrame_run (w : World) :
  (0 < length (m_commandBuffers (renderer w)))%nat →
  advanceFrame w
  = Returned tt
      (rendered
         (with_currentFrame
            (wrap32 (wrap32 (m_currentFrame (renderer w) + 1)
                     mod Z.of_nat (length (m_commandBuffers (renderer w))))))
         w).
Proof.
  intros Hn. unfold advanceFrame. erewrite bind_run by reflexivity. cbv zeta.
  destruct (Z.of_nat (length (m_commandBuffers (renderer w))) =? 0) eqn:E;
    [apply Z.eqb_eq in E; lia|reflexivity].
Qed.

Lemma advance_in_range (currentFrame size : Z) :
  0 <= currentFrame < size → size <= UINT32_MAX →
  wrap32 (wrap32 (currentFrame + 1) mod size) = (currentFrame + 1) mod size.
Proof.
  unfold UINT32_MAX. intros Hc Hs.
  rewrite (wrap32_small (currentFrame + 1)) by (unfold is_uint32, UINT32_MAX; lia).
  apply wrap32_small. unfold is_uint32, UINT32_MAX.
  pose proof (Z.mod_pos_bound (currentFrame + 1) size ltac:(lia)). lia.
Qed.

(** The world after a wait and an acquisition satisfies the invariant. *)
Lemma frame_inv_acquired (w : World) (fence : Z) (extra1 extra2 : list Call) :
  frame_inv w →
  frame_inv (logged extra2 (fenced (insert fence Signaled) (logged extra1 w))).
Proof.
  intros Hinv. apply (frame_inv_transfer w _ Hinv).
  - apply (inv_currentFrame w Hinv).
  - reflexivity.
  - intros g Hg. simpl. apply insert_Signaled_lookup, (inv_fence_status w Hinv g Hg).
Qed.

(** A recreation keeps the invariant, the slot and the resize flag. *)
Lemma recreateSwapChain_frame_inv (env : SwapChainEnv) (w : World) :
  frame_inv w →
  let w' := finalWorld (recreateSwapChain env w) in
  frame_inv w'
  ∧ m_currentFrame (renderer w') = m_currentFrame (renderer w)
  ∧ pipelineMembers (renderer w') = pipelineMembers (renderer w)
  ∧ m_framebufferResized (renderer w') = m_framebufferResized (renderer w).
Proof.
  intros Hinv w'.
  destruct (recreateSwapChain_outcome env w) as (Hsame & Hfences & _).
  fold w' in Hsame, Hfences.
  destruct (sameOutsideSwapChain_members _ _ Hsame) as (Hpm & Hcf & Hfr & _).
  split; [|repeat split; assumption].
  apply (frame_inv_transfer w w' Hinv); [|exact Hpm|].
  - rewrite Hcf. apply (inv_currentFrame w Hinv).
  - intros g Hg. left. rewrite Hfences.
    apply drain_lookup, (inv_fence_status w Hinv g Hg).
Qed.

(** One [drawFrame] from a state of the frame loop: when it returns, the
    invariant holds again and [m_currentFrame] went one slot further exactly
    when the image was acquired; when it does not return, [m_currentFrame]
    is as before. *)
Lemma drawFrame_step (env : FrameEnv) (w : World) :
  frame_inv w →
  let size := Z.of_nat (length (m_commandBuffers (renderer w))) in
  match drawFrame env w with
  | Returned _ w' =>
      frame_inv w'
      ∧ pipelineMembers (renderer w') = pipelineMembers (renderer w)
      ∧ m_currentFrame (renderer w')
        = (if acquires env then (m_currentFrame (renderer w) + 1) mod size
           else m_currentFrame (renderer w))
  | Stopped _ w' => m_currentFrame (renderer w') = m_currentFrame (renderer w)
  end.
Proof.
  intros Hinv size.
  destruct (frame_inv_lookups w Hinv)
    as (fence & commandBuffer & imageAvailable & renderFinished
          & Hf & Hcb & Hi & Hr & Hs).
  pose proof (inv_currentFrame w Hinv) as Hrange.
  rewrite (drawFrame_acquire env w fence imageAvailable Hf Hi (proj1 Hrange) Hs).
  set (acquired :=
         logged [AcquireNextImageKHR (m_device (renderer w)) (m_swapChain (renderer w))
                   imageAvailable]
           (fenced (insert fence Signaled)
              (logged [WaitForFences (m_device (renderer w)) fence] w))).
  assert (Hinv1 : frame_inv acquired) by apply frame_inv_acquired, Hinv.
  unfold acquires.
  destruct (acquireResult env =? VK_ERROR_OUT_OF_DATE_KHR) eqn:Estale; simpl negb.
  - destruct (recreateSwapChain_frame_inv (recreateEnv env) acquired Hinv1)
      as (Hinv' & Hcf & Hpm & _).
    destruct (recreateSwapChain (recreateEnv env) acquired) as [[] w'|flt w'];
      simpl in *; [split; [exact Hinv'|split; [exact Hpm|exact Hcf]]|exact Hcf].
  - destruct (negb (acquireResult env =? VK_SUCCESS)
              && negb (acquireResult env =? VK_SUBOPTIMAL_KHR)); [reflexivity|].
    unfold drawFrame_render.
    pose proof (sameSlots_drawFrame_present env acquired) as [Hcf Hpm].
    destruct (drawFrame_present env acquired) as [[] presented|flt presented] eqn:Hp;
      [|erewrite bind_stop by exact Hp; exact Hcf].
    simpl in Hcf, Hpm. change (renderer acquired) with (renderer w) in *.
    pose proof (f_equal pm_commandBuffers Hpm) as Hcbs. simpl in Hcbs.
    erewrite bind_run by exact Hp.
    rewrite advanceFrame_run by (rewrite Hcbs; apply (inv_slots w Hinv)).
    rewrite Hcf, Hcbs. fold size.
    rewrite advance_in_range by (first [exact Hrange|apply (inv_slots_uint32 w Hinv)]).
    split; [|split; [exact Hpm|reflexivity]].
    apply (frame_inv_transfer w _ Hinv); [| exact Hpm |].
    + simpl. apply Z.mod_pos_bound. unfold size. pose proof (inv_slots w Hinv). lia.
    + intros g Hg. simpl.
      destruct (drawFrame_present_Returned env acquired presented fence commandBuffer
                  imageAvailable renderFinished Hf Hcb Hi Hr (proj1 Hrange) Hp)
        as (rec & wP & _ & _ & HrP & HfP & _ & Hcase).
      assert (HgP : fenceStatus (driver wP) !! g = Some Signaled
                    ∨ fenceStatus (driver wP) !! g = Some Pending).
      { rewrite HfP. destruct (decide (g = fence)) as [->|Hne].
        - right. apply lookup_insert_eq.
        - rewrite !lookup_insert_ne by congruence.
          apply (inv_fence_status acquired Hinv1 g Hg). }
      destruct (mustRecreate env (renderer acquired)).
      * pose proof (recreateSwapChain_outcome (recreateEnv env)
                      (rendered (setFramebufferResized false) wP))
          as (_ & Hfences & _).
        rewrite Hcase in Hfences. simpl in Hfences.
        left. rewrite Hfences. apply drain_lookup, HgP.
      * destruct Hcase as [_ ->]. exact HgP.
Qed.

(** ** What shutdown keeps *)








(** ** The frame loop *)

Lemma frame_inv_setFramebufferResized (b : bool) (w : World) :
  frame_inv w → frame_inv (rendered (setFramebufferResized b) w).
Proof.
  intros Hinv. apply (frame_inv_transfer w _ Hinv).
  - apply (inv_currentFrame w Hinv).
  - reflexivity.
  - intros g Hg. apply (inv_fence_status w Hinv g Hg).
Qed.





(** ** The resize flag *)

Lemma recordingCalls_no_idle_no_present (l : list Call) :
  forallb isRecordingCall l = true →
  existsb isDeviceWaitIdle l = false ∧ existsb isPresent l = false.
Proof.
  induction l as [|c l IH]; [split; reflexivity|]. simpl.
  intros H. apply andb_true_iff in H as [Hc Hl].
  destruct (IH Hl) as [-> ->]. destruct c; try discriminate; split; reflexivity.
Qed.

Lemma frame_inv_sampleResizedWorld : frame_inv sampleResizedWorld.
Proof. apply frame_inv_setFramebufferResized, frame_inv_sampleWorld. Defined.

(** C10.  A [drawFrame] that aborts at an out-of-date acquisition leaves
    [m_framebufferResized] as it was, however the recreation ends.  A flag
    that was set is therefore still set afterwards, and the next [drawFrame]
    that acquires an image and returns has presented it, has called
    [recreateSwapChain] right after [vkQueuePresentKHR] (its idle wait is the
    next call, and the first of the frame), and has cleared the flag. *)
Theorem resize_flag_survives_abort (env : FrameEnv) (w : World) :
  frame_inv w →
  acquireResult env = VK_ERROR_OUT_OF_DATE_KHR →
  let w1 := finalWorld (drawFrame env w) in
  m_framebufferResized (renderer w1) = m_framebufferResized (renderer w)
  ∧ (m_framebufferResized (renderer w) = true →
     ∀ (env2 : FrameEnv) (w2 : World),
       acquires env2 = true →
       drawFrame env2 w1 = Returned tt w2 →
       m_framebufferResized (renderer w2) = false
       ∧ ∃ before queue semaphore after,
           newCalls w1 w2
           = before
             ++ QueuePresentKHR queue semaphore (m_swapChain (renderer w1))
                  (acquireImageIndex env2)
             :: DeviceWaitIdle (m_device (renderer w1)) :: after
           ∧ existsb isDeviceWaitIdle before = false
           ∧ existsb isPresent before = false
           ∧ forallb isSwapChainCall after = true).
Proof.
  intros Hinv Hstale w1.
  destruct (frame_inv_lookups w Hinv)
    as (fence & commandBuffer & imageAvailable & renderFinished
          & Hf & Hcb & Hi & Hr & Hs).
  pose proof (drawFrame_acquire env w fence imageAvailable Hf Hi
                (proj1 (inv_currentFrame w Hinv)) Hs) as Hrun.
  rewrite Hstale in Hrun.
  change (VK_ERROR_OUT_OF_DATE_KHR =? VK_ERROR_OUT_OF_DATE_KHR) with true in Hrun.
  cbv iota in Hrun.
  set (acquired :=
         logged [AcquireNextImageKHR (m_device (renderer w)) (m_swapChain (renderer w))
                   imageAvailable]
           (fenced (insert fence Signaled)
              (logged [WaitForFences (m_device (renderer w)) fence] w))) in *.
  destruct (recreateSwapChain_frame_inv (recreateEnv env) acquired
              (frame_inv_acquired w fence _ _ Hinv))
    as (Hinv1 & _ & _ & Hflag).
  rewrite <- Hrun in Hinv1, Hflag. fold w1 in Hinv1, Hflag.
  change (renderer acquired) with (renderer w) in Hflag.
  split; [exact Hflag|].
  intros Hset env2 w2 Hacq Hrun2.
  clear Hf Hcb Hi Hr Hs Hrun fence commandBuffer imageAvailable renderFinished acquired.
  destruct (frame_inv_lookups w1 Hinv1)
    as (fence & commandBuffer & imageAvailable & renderFinished
          & Hf & Hcb & Hi & Hr & Hs).
  pose proof (inv_currentFrame w1 Hinv1) as Hrange.
  rewrite (drawFrame_acquire env2 w1 fence imageAvailable Hf Hi (proj1 Hrange) Hs)
    in Hrun2.
  unfold acquires in Hacq. apply negb_true_iff in Hacq. rewrite Hacq in Hrun2.
  destruct (negb (acquireResult env2 =? VK_SUCCESS)
            && negb (acquireResult env2 =? VK_SUBOPTIMAL_KHR)); [discriminate|].
  set (acquired :=
         logged [AcquireNextImageKHR (m_device (renderer w1)) (m_swapChain (renderer w1))
                   imageAvailable]
           (fenced (insert fence Signaled)
              (logged [WaitForFences (m_device (renderer w1)) fence] w1))) in *.
  unfold drawFrame_render in Hrun2.
  apply bind_Returned_inv in Hrun2 as ([] & wq & Hpresent & Hadvance).
  destruct (drawFrame_present_Returned env2 acquired wq fence commandBuffer
              imageAvailable renderFinished Hf Hcb Hi Hr (proj1 Hrange) Hpresent)
    as (rec & wP & Hrec & _ & HrP & _ & HcP & Hcase).
  change (renderer acquired) with (renderer w1) in *.
  unfold mustRecreate in Hcase. rewrite Hflag, Hset, orb_true_r in Hcase.
  destruct (recreateSwapChain_outcome (recreateEnv env2)
              (rendered (setFramebufferResized false) wP))
    as (Hsame & _ & extra & Hcalls & Hok).
  rewrite Hcase in Hsame, Hcalls. simpl in Hsame, Hcalls.
  destruct (sameOutsideSwapChain_members _ _ Hsame)
    as (Hpm & _ & Hfr & _ & _).
  simpl in Hfr.
  pose proof (f_equal pm_commandBuffers Hpm) as Hcbs.
  simpl in Hcbs. rewrite HrP in Hcbs.
  rewrite advanceFrame_run in Hadvance
    by (rewrite Hcbs; apply (inv_slots w1 Hinv1)).
  injection Hadvance as <-.
  split; [exact Hfr|].
  destruct (recordingCalls_no_idle_no_present rec Hrec) as [Hidle Hpres].
  exists ([WaitForFences (m_device (renderer w1)) fence;
           AcquireNextImageKHR (m_device (renderer w1)) (m_swapChain (renderer w1))
             imageAvailable;
           ResetFences (m_device (renderer w1)) fence;
           ResetCommandBuffer commandBuffer]
          ++ rec
          ++ [QueueSubmit (m_graphicsQueue (renderer w1)) imageAvailable
                commandBuffer renderFinished fence]),
    (m_presentQueue (renderer w1)), renderFinished, extra.
  split; [|split; [|split; [|exact Hok]]].
  - apply newCalls_logged. simpl. rewrite Hcalls, HcP, HrP. simpl.
    rewrite <- !app_assoc. simpl. rewrite <- !app_assoc. reflexivity.
  - simpl. rewrite existsb_app, Hidle. reflexivity.
  - simpl. rewrite existsb_app, Hpres. reflexivity.
Qed.

Lemma resize_flag_survives_abort_witness :
  m_framebufferResized
    (renderer (finalWorld (drawFrame frameStale sampleResizedWorld))) = true
  ∧ m_framebufferResized
      (renderer
         (finalWorld
            (drawFrame frameOk
               (finalWorld (drawFrame frameStale sampleResizedWorld))))) = false.
Proof.
  destruct (resize_flag_survives_abort frameStale sampleResizedWorld
              frame_inv_sampleResizedWorld eq_refl) as [Hkept Hnext].
  split; [exact Hkept|].
  refine (proj1 (Hnext eq_refl frameOk _ eq_refl _)).
  vm_compute. reflexivity.
Defined.

(** ** Shutdown *)

(** With [m_initialized] false, [cleanup] is exactly one call:
    [vkDeviceWaitIdle] on [m_device], made before the flag is looked at. *)
Lemma cleanup_not_initialized (validation : bool) (w : World) :
  m_initialized (renderer w) = false →
  cleanup validation w
  = Returned tt
      (fenced (fmap drain) (logged [DeviceWaitIdle (m_device (renderer w))] w)).
Proof.
  intros Hoff. unfold cleanup.
  erewrite bind_run by reflexivity.
  erewrite bind_run by reflexivity.
  rewrite Hoff. reflexivity.
Qed.

(** C4, where the code departs from it.  [cleanup] tests [m_initialized] only
    after [vkDeviceWaitIdle(m_device)]: on a renderer that is not initialized
    it still makes that one call on the device handle, and a second
    [cleanup] after a first one waits on the device the first one
    destroyed. *)
Theorem cleanup_waits_on_device_before_guard :
  let once := finalWorld (cleanup true sampleWorld) in
  let twice := finalWorld (cleanup true once) in
  returns (cleanup true sampleWorld) = true
  ∧ m_initialized (renderer once) = false
  ∧ DestroyDevice 5 ∈ calls (driver once)
  ∧ callsOnDestroyedDevice [] (calls (driver once)) = []
  ∧ returns (cleanup true once) = true
  ∧ newCalls once twice = [DeviceWaitIdle 5]
  ∧ callsOnDestroyedDevice [] (calls (driver twice)) = [DeviceWaitIdle 5].
Proof.
  cbv zeta.
  assert (Honce : cleanup true sampleWorld
                  = Returned tt (finalWorld (cleanup true sampleWorld)))
    by (vm_compute; reflexivity).
  assert (Hoff : m_initialized (renderer (finalWorld (cleanup true sampleWorld)))
                 = false) by (vm_compute; reflexivity).
  rewrite (cleanup_not_initialized true _ Hoff).
  split; [rewrite Honce; reflexivity|].
  split; [exact Hoff|].
  split; [vm_compute; repeat first [left|right]|].
  split; [vm_compute; reflexivity|].
  split; [reflexivity|].
  split; [apply newCalls_logged; reflexivity|].
  vm_compute. reflexivity.
Qed.

(** ** The invariant holds when the frame loop starts *)

Lemma createSyncObjects_loop_body (env : SyncEnv) (count i : nat) (w w' : World) :
  createSyncObjects_loop env (S count) i w = Returned tt w' →
  ∃ w1,
    createSyncObjects_loop env count (S i) w1 = Returned tt w'
    ∧ renderer w1
      = with_syncObjects
          (<[i := snd (createImageAvailableResult env i)]>
             (m_imageAvailableSemaphores (renderer w)))
          (<[i := snd (createRenderFinishedResult env i)]>
             (m_renderFinishedSemaphores (renderer w)))
          (<[i := snd (createFenceResult env i)]> (m_inFlightFences (renderer w)))
          (renderer w)
    ∧ fenceStatus (driver w1)
      = <[snd (createFenceResult env i) := Signaled]> (fenceStatus (driver w)).
Proof.
  intros H. cbn [createSyncObjects_loop] in H.
  erewrite bind_run in H by reflexivity.
  erewrite bind_run in H by reflexivity.
  destruct (negb (fst (createImageAvailableResult env i) =? VK_SUCCESS));
    [discriminate|].
  erewrite bind_run in H by reflexivity.
  erewrite bind_run in H by reflexivity.
  destruct (negb (fst (createRenderFinishedResult env i) =? VK_SUCCESS));
    [discriminate|].
  erewrite bind_run in H by reflexivity.
  erewrite bind_run in H by reflexivity.
  destruct (negb (fst (createFenceResult env i) =? VK_SUCCESS));
    [discriminate|].
  erewrite bind_run in H by reflexivity.
  erewrite bind_run in H by reflexivity.
  eexists. split; [exact H|]. split; reflexivity.
Qed.

Lemma createSyncObjects_loop_inv (env : SyncEnv) (count : nat) :
  ∀ (i : nat) (w w' : World),
    createSyncObjects_loop env count i w = Returned tt w' →
    length (m_inFlightFences (renderer w)) = (i + count)%nat →
    (∀ j fence, (j < i)%nat →
       m_inFlightFences (renderer w) !! j = Some fence →
       fenceStatus (driver w) !! fence = Some Signaled) →
    m_commandBuffers (renderer w') = m_commandBuffers (renderer w)
    ∧ m_currentFrame (renderer w') = m_currentFrame (renderer w)
    ∧ length (m_imageAvailableSemaphores (renderer w'))
      = length (m_imageAvailableSemaphores (renderer w))
    ∧ length (m_renderFinishedSemaphores (renderer w'))
      = length (m_renderFinishedSemaphores (renderer w))
    ∧ length (m_inFlightFences (renderer w')) = length (m_inFlightFences (renderer w))
    ∧ ∀ fence, fence ∈ m_inFlightFences (renderer w') →
        fenceStatus (driver w') !! fence = Some Signaled.
Proof.
  induction count as [|count IH]; intros i w w' Hrun Hlen Hdone.
  - injection Hrun as <-. repeat split.
    intros fence Hin. apply list_elem_of_lookup in Hin as [j Hj].
    apply (Hdone j fence); [|exact Hj].
    apply lookup_lt_Some in Hj. lia.
  - apply createSyncObjects_loop_body in Hrun as (w1 & Hrun & Hr1 & Hf1).
    destruct (IH (S i) w1 w' Hrun) as (Hcb & Hcf & Hl1 & Hl2 & Hl3 & Hall).
    + rewrite Hr1. simpl. rewrite length_insert. lia.
    + intros j fence Hj Hlook. rewrite Hf1. rewrite Hr1 in Hlook. simpl in Hlook.
      destruct (decide (fence = snd (createFenceResult env i))) as [->|Hne];
        [apply lookup_insert_eq|].
      rewrite lookup_insert_ne by congruence.
      destruct (decide (j = i)) as [->|Hji].
      * rewrite list_lookup_insert_eq in Hlook by lia. congruence.
      * rewrite list_lookup_insert_ne in Hlook by congruence.
        apply (Hdone j fence); [lia|exact Hlook].
    + rewrite Hr1 in Hcb, Hcf, Hl1, Hl2, Hl3. simpl in Hcb, Hcf, Hl1, Hl2, Hl3.
      rewrite length_insert in Hl1, Hl2, Hl3.
      repeat split; assumption.
Qed.

(** [createSyncObjects] returning leaves a state of the frame loop: one
    semaphore pair and one signaled fence per command buffer, and the slot
    0 the constructor starts with. *)
Lemma createSyncObjects_frame_inv (env : SyncEnv) (w w' : World) :
  createSyncObjects env w = Returned tt w' →
  m_currentFrame (renderer w) = 0 →
  (0 < length (m_commandBuffers (renderer w)))%nat →
  Z.of_nat (length (m_commandBuffers (renderer w))) <= UINT32_MAX →
  frame_inv w'.
Proof.
  intros Hrun Hcf Hn Hu. unfold createSyncObjects in Hrun.
  erewrite bind_run in Hrun by reflexivity.
  erewrite bind_run in Hrun by reflexivity.
  cbv zeta in Hrun.
  apply createSyncObjects_loop_inv in Hrun
    as (Hcb & Hcf' & Hl1 & Hl2 & Hl3 & Hall).
  - simpl in Hcb, Hcf', Hl1, Hl2, Hl3. rewrite length_resize in Hl1, Hl2, Hl3.
    split; rewrite ?Hcb, ?Hcf', ?Hcf; try assumption; try lia.
    intros fence Hin. left. apply Hall, Hin.
  - simpl. apply length_resize.
  - intros j fence Hj. lia.
Qed.

(** [createCommandBuffers] returning leaves one command buffer per
    framebuffer. *)
Lemma createCommandBuffers_length (env : SyncEnv) (w w' : World) :
  createCommandBuffers env w = Returned tt w' →
  length (m_commandBuffers (renderer w'))
  = length (m_swapChainFramebuffers (renderer w))
  ∧ m_currentFrame (renderer w') = m_currentFrame (renderer w).
Proof.
  intros Hrun. unfold createCommandBuffers in Hrun.
  erewrite bind_run in Hrun by reflexivity. cbv zeta in Hrun.
  erewrite bind_run in Hrun by reflexivity.
  erewrite bind_run in Hrun by reflexivity.
  destruct (negb (allocateCommandBuffersResult env =? VK_SUCCESS)); [discriminate|].
  injection Hrun as <-. simpl.
  rewrite length_fmap, length_seq. split; reflexivity.
Qed.

(** * Further properties *)

(** ** Present mode, format, extent and image count *)

(** X1.  [chooseSwapPresentMode] returns mailbox when the list contains it
    and FIFO otherwise, whether or not the list contains FIFO (also on the
    empty list). *)
Theorem chooseSwapPresentMode_mailbox_or_fifo (availablePresentModes : list Z) :
  (VK_PRESENT_MODE_MAILBOX_KHR ∈ availablePresentModes →
     chooseSwapPresentMode availablePresentModes = VK_PRESENT_MODE_MAILBOX_KHR)
  ∧ (VK_PRESENT_MODE_MAILBOX_KHR ∉ availablePresentModes →
     chooseSwapPresentMode availablePresentModes = VK_PRESENT_MODE_FIFO_KHR).
Proof.
  induction availablePresentModes as [|mode rest [IHin IHout]]; split.
  - intros H. inversion H.
  - reflexivity.
  - intros Hin. simpl. destruct (mode =? VK_PRESENT_MODE_MAILBOX_KHR) eqn:E.
    + apply Z.eqb_eq, E.
    + apply IHin. apply elem_of_cons in Hin as [Heq|Hin]; [|exact Hin].
      apply Z.eqb_neq in E. congruence.
  - intros Hout. simpl. destruct (mode =? VK_PRESENT_MODE_MAILBOX_KHR) eqn:E.
    + apply Z.eqb_eq in E. exfalso. apply Hout. rewrite E. left.
    + apply IHout. intros Hin. apply Hout. right. exact Hin.
Qed.

Lemma chooseSwapPresentMode_mailbox_or_fifo_witness :
  chooseSwapPresentMode [0; 1; 2] = VK_PRESENT_MODE_MAILBOX_KHR
  ∧ chooseSwapPresentMode [0; 3] = VK_PRESENT_MODE_FIFO_KHR.
Proof.
  split.
  - apply (proj1 (chooseSwapPresentMode_mailbox_or_fifo [0; 1; 2])).
    right. left.
  - apply (proj2 (chooseSwapPresentMode_mailbox_or_fifo [0; 3])).
    intros Hin. repeat (apply elem_of_cons in Hin as [Hin|Hin]; [discriminate|]).
    inversion Hin.
Defined.

Lemma chooseSwapSurfaceFormat_loop_member (l : list VkSurfaceFormatKHR)
    (f : VkSurfaceFormatKHR) :
  chooseSwapSurfaceFormat_loop l = Some f → f ∈ l.
Proof.
  induction l as [|g l IH]; [discriminate|]. simpl.
  destruct (isPreferredFormat g).
  - intros [= ->]. left.
  - intros H. right. apply IH, H.
Qed.

(** X2.  Whatever [chooseSwapSurfaceFormat] returns is an element of the list
    it was given, and it has nothing to return exactly when the list is
    empty (the read of element 0 of an empty vector). *)
Theorem chooseSwapSurfaceFormat_member (availableFormats : list VkSurfaceFormatKHR) :
  (∀ f, chooseSwapSurfaceFormat availableFormats = Some f → f ∈ availableFormats)
  ∧ (chooseSwapSurfaceFormat availableFormats = None ↔ availableFormats = []).
Proof.
  unfold chooseSwapSurfaceFormat. split.
  - intros f.
    destruct (chooseSwapSurfaceFormat_loop availableFormats) as [g|] eqn:E.
    + intros [= ->]. apply chooseSwapSurfaceFormat_loop_member, E.
    + intros H. eapply list_elem_of_lookup_2. exact H.
  - destruct (chooseSwapSurfaceFormat_loop availableFormats) as [g|] eqn:E.
    + split; [discriminate|]. intros ->. discriminate.
    + destruct availableFormats; split; try reflexivity; discriminate.
Qed.

Lemma chooseSwapSurfaceFormat_member_witness :
  {| format := 44; colorSpace := 0 |}
  ∈ [ {| format := 44; colorSpace := 0 |}; {| format := 37; colorSpace := 0 |} ].
Proof.
  apply (proj1 (chooseSwapSurfaceFormat_member
                  [ {| format := 44; colorSpace := 0 |};
                    {| format := 37; colorSpace := 0 |} ])).
  reflexivity.
Defined.

Lemma clamp_bounds (v lo hi : Z) : lo <= hi → lo <= clamp v lo hi <= hi.
Proof. intros H. unfold clamp. lia. Qed.

(** X3.  When the current extent is undefined and the minimum does not exceed
    the maximum, the extent chosen lies within [minImageExtent,
    maxImageExtent] for every pair of [int]s the window may report.  A
    negative width [x] is converted to the [uint32_t] [x + 2^32], which is
    at least [2^31], before it is clamped: the width chosen is the maximal
    width whenever that maximum does not exceed [x + 2^32], in particular
    whenever the maximal width is below [2^31]. *)
Theorem chooseSwapExtent_within_bounds
    (windowSize : Z * Z) (capabilities : VkSurfaceCapabilitiesKHR) :
  width (currentExtent capabilities) = UINT32_MAX →
  width (minImageExtent capabilities) <= width (maxImageExtent capabilities) →
  height (minImageExtent capabilities) <= height (maxImageExtent capabilities) →
  let extent := chooseSwapExtent windowSize capabilities in
  width (minImageExtent capabilities) <= width extent
    <= width (maxImageExtent capabilities)
  ∧ height (minImageExtent capabilities) <= height extent
    <= height (maxImageExtent capabilities)
  ∧ (-2147483648 <= fst windowSize < 0 →
     width extent
     = Z.max (width (minImageExtent capabilities))
         (Z.min (fst windowSize + 4294967296) (width (maxImageExtent capabilities)))
     ∧ (width (maxImageExtent capabilities) <= fst windowSize + 4294967296 →
        width extent = width (maxImageExtent capabilities))
     ∧ (width (maxImageExtent capabilities) <= 2147483647 →
        width extent = width (maxImageExtent capabilities))).
Proof.
  intros Hundef Hw Hh extent. subst extent. unfold chooseSwapExtent.
  rewrite Hundef, Z.eqb_refl. simpl.
  split; [apply clamp_bounds, Hw|]. split; [apply clamp_bounds, Hh|].
  intros Hneg. unfold clamp, wrap32.
  assert (E : fst windowSize mod 4294967296 = fst windowSize + 4294967296).
  { symmetry. apply (Z.mod_unique_pos _ _ (-1)); lia. }
  rewrite E. repeat split; lia.
Qed.

Lemma chooseSwapExtent_within_bounds_witness :
  width (chooseSwapExtent (-1, 600) sampleCapabilities) = 4096.
Proof.
  refine (proj2 (proj2 (proj2 (proj2
            (chooseSwapExtent_within_bounds (-1, 600) sampleCapabilities _ _ _))
            _)) _); simpl; try reflexivity; lia.
Defined.

(** X4.  With a nonzero [maxImageCount] not below [minImageCount], the image
    count requested lies between the two; it is one more than the minimum
    whenever the maximum is zero or larger than the minimum.  The count is
    the one [createSwapChain] puts into its single creation call, which it
    makes whenever the surface reports a format and both queue families are
    found. *)
Theorem swapChainImageCount_between_min_and_max
    (capabilities : VkSurfaceCapabilitiesKHR) :
  0 <= minImageCount capabilities < UINT32_MAX →
  is_uint32 (maxImageCount capabilities) →
  (maxImageCount capabilities ≠ 0 →
   minImageCount capabilities <= maxImageCount capabilities →
   minImageCount capabilities <= swapChainImageCount capabilities
     <= maxImageCount capabilities)
  ∧ (maxImageCount capabilities = 0
     ∨ minImageCount capabilities < maxImageCount capabilities →
     swapChainImageCount capabilities = minImageCount capabilities + 1)
  ∧ (∀ (env : SwapChainEnv) (w : World),
       surfaceCapabilities env = capabilities →
       formats (swapChainSupport env) ≠ [] →
       isComplete (findQueueFamilies (physicalDevice env) (m_surface (renderer w)))
       = true →
       ∃ createInfo,
         newCalls w (finalWorld (createSwapChain env w))
         = [CreateSwapchainKHR (m_device (renderer w)) createInfo]
         ∧ ci_minImageCount createInfo = swapChainImageCount capabilities).
Proof.
  intros Hmin Hmax.
  split; [|split].
  - unfold is_uint32, swapChainImageCount in *.
    rewrite wrap32_small by (unfold is_uint32; lia).
    intros Hnz Hle.
    destruct (0 <? maxImageCount capabilities) eqn:E0; simpl;
      [|apply Z.ltb_ge in E0; lia].
    destruct (maxImageCount capabilities <? minImageCount capabilities + 1) eqn:E1;
      [apply Z.ltb_lt in E1|apply Z.ltb_ge in E1]; lia.
  - unfold is_uint32, swapChainImageCount in *.
    rewrite wrap32_small by (unfold is_uint32; lia).
    intros [Hz|Hlt].
    + rewrite Hz. reflexivity.
    + destruct (0 <? maxImageCount capabilities); simpl; [|reflexivity].
      destruct (maxImageCount capabilities <? minImageCount capabilities + 1) eqn:E1;
        [apply Z.ltb_lt in E1; lia|reflexivity].
  - intros env w <- Hfmt Hfam.
    destruct (createSwapChain_requests env w Hfmt Hfam)
      as (createInfo & Hcalls & Hcount & _).
    exists createInfo. split; [exact Hcalls|exact Hcount].
Qed.

Lemma swapChainImageCount_between_min_and_max_witness :
  2 <= swapChainImageCount sampleCapabilities <= 2
  ∧ ∃ createInfo,
      newCalls sampleWorld (finalWorld (createSwapChain sampleSwapChainEnv sampleWorld))
      = [CreateSwapchainKHR 5 createInfo]
      ∧ ci_minImageCount createInfo = swapChainImageCount sampleCapabilities.
Proof.
  assert (Hmin : 0 <= minImageCount sampleCapabilities < UINT32_MAX)
    by (unfold UINT32_MAX; simpl; lia).
  assert (Hmax : is_uint32 (maxImageCount sampleCapabilities))
    by (unfold is_uint32, UINT32_MAX; simpl; lia).
  split.
  - refine (proj1 (swapChainImageCount_between_min_and_max sampleCapabilities
                     Hmin Hmax) _ _); simpl; lia.
  - refine (proj2 (proj2 (swapChainImageCount_between_min_and_max sampleCapabilities
                            Hmin Hmax)) sampleSwapChainEnv sampleWorld _ _ _).
    + reflexivity.
    + discriminate.
    + vm_compute. reflexivity.
Defined.

(** ** Queue families, continued *)

Lemma first_index_where_exists (p : Z -> bool) (count : nat) :
  is_Some (first_index_where p count)
  ↔ ∃ j, (j < count)%nat ∧ p (Z.of_nat j) = true.
Proof.
  induction count as [|c IH]; simpl.
  - split; [intros [x Hx]; discriminate|intros (j & Hj & _); lia].
  - destruct (first_index_where p c) as [k|] eqn:E.
    + split; [|intros _; eexists; reflexivity].
      intros _. destruct (proj1 IH ltac:(eexists; reflexivity)) as (j & Hj & Hp).
      exists j. split; [lia|exact Hp].
    + destruct (p (Z.of_nat c)) eqn:Hp.
      * split; [|intros _; eexists; reflexivity].
        intros _. exists c. split; [lia|exact Hp].
      * split; [intros [x Hx]; discriminate|].
        intros (j & Hj & Hpj). destruct (decide (j = c)) as [->|Hne]; [congruence|].
        destruct (proj2 IH) as [x Hx]; [|discriminate].
        exists j. split; [lia|exact Hpj].
Qed.

Lemma last_index_where_sound (p : Z -> bool) (count : nat) (j : Z) :
  last_index_where p count = Some j → p j = true ∧ 0 <= j < Z.of_nat count.
Proof.
  induction count as [|c IH]; [discriminate|]. simpl.
  destruct (p (Z.of_nat c)) eqn:Hp.
  - intros [= <-]. split; [exact Hp|lia].
  - intros H. destruct (IH H) as [Hj Hr]. split; [exact Hj|lia].
Qed.

Lemma bothSeen_exists (device : PhysicalDevice) (surface : Z) (count : nat) :
  bothSeen device surface count = true
  ↔ (∃ j, (j < count)%nat ∧ graphicsAt device (Z.of_nat j) = true)
    ∧ (∃ j, (j < count)%nat ∧ presentAt device surface (Z.of_nat j) = true).
Proof.
  unfold bothSeen.
  rewrite <- !first_index_where_exists.
  destruct (first_index_where (graphicsAt device) count),
           (first_index_where (presentAt device surface) count); split;
    try reflexivity; try discriminate;
    try (intros _; split; eexists; reflexivity);
    intros [[x Hx] [y Hy]]; discriminate.
Qed.

Lemma graphicsAt_in_range (device : PhysicalDevice) (j : Z) :
  graphicsAt device j = true →
  0 <= j ∧ (Z.to_nat j < length (queueFamilyProperties device))%nat.
Proof.
  unfold graphicsAt. intros H. apply andb_true_iff in H as [H0 H1].
  apply Z.leb_le in H0. split; [exact H0|].
  destruct (queueFamilyProperties device !! Z.to_nat j) eqn:E; [|discriminate].
  apply lookup_lt_Some in E. exact E.
Qed.

Lemma presentAt_in_range (device : PhysicalDevice) (surface j : Z) :
  presentAt device surface j = true →
  0 <= j ∧ (Z.to_nat j < length (queueFamilyProperties device))%nat.
Proof.
  unfold presentAt. intros H. apply andb_true_iff in H as [H0 _].
  apply andb_true_iff in H0 as [H0 H1].
  apply Z.leb_le in H0. apply Z.ltb_lt in H1. lia.
Qed.

(** The loop invariant at the exit, for the function itself. *)
Lemma findQueueFamilies_scan_summary (device : PhysicalDevice) (surface : Z) :
  let n := length (queueFamilyProperties device) in
  let stop := snd (findQueueFamilies_scan device surface) in
  let scanned := Z.to_nat (Z.min (stop + 1) (Z.of_nat n)) in
  findQueueFamilies device surface
  = {| graphicsFamily := last_index_where (graphicsAt device) scanned;
       presentFamily := last_index_where (presentAt device surface) scanned |}
  ∧ bothSeen device surface scanned = isComplete (findQueueFamilies device surface)
  ∧ (isComplete (findQueueFamilies device surface) = false → scanned = n).
Proof.
  unfold findQueueFamilies, findQueueFamilies_scan.
  destruct (findQueueFamilies_loop_inv device surface (queueFamilyProperties device)
              0%nat eq_refl ltac:(lia)) as (H1 & H2 & _ & H4).
  - intros c Hc. assert (c = 0)%nat as -> by lia. reflexivity.
  - split; [exact H1|]. split; [exact H2|exact H4].
Qed.

(** Completeness of the scan and soundness of the indices it records. *)
Lemma findQueueFamilies_complete_sound (device : PhysicalDevice) (surface : Z) :
  (isComplete (findQueueFamilies device surface) = true
   ↔ (∃ g, graphicsAt device g = true) ∧ (∃ p, presentAt device surface p = true))
  ∧ (∀ g, graphicsFamily (findQueueFamilies device surface) = Some g →
       graphicsAt device g = true)
  ∧ (∀ p, presentFamily (findQueueFamilies device surface) = Some p →
       presentAt device surface p = true).
Proof.
  destruct (findQueueFamilies_scan_summary device surface) as (Hres & Hseen & Hall).
  set (n := length (queueFamilyProperties device)) in *.
  set (scanned := Z.to_nat (Z.min (snd (findQueueFamilies_scan device surface) + 1)
                              (Z.of_nat n))) in *.
  split; [|split].
  - split.
    + intros Hc. rewrite <- Hseen in Hc. apply bothSeen_exists in Hc
        as [(j & _ & Hj) (k & _ & Hk)].
      split; eexists; eassumption.
    + intros [[g Hg] [p Hp]].
      destruct (isComplete (findQueueFamilies device surface)) eqn:Hc; [reflexivity|].
      rewrite (Hall eq_refl) in Hseen.
      rewrite <- Hseen. apply bothSeen_exists.
      destruct (graphicsAt_in_range _ _ Hg) as [Hg0 Hgn].
      destruct (presentAt_in_range _ _ _ Hp) as [Hp0 Hpn].
      split.
      * exists (Z.to_nat g). rewrite Z2Nat.id by lia. split; [exact Hgn|exact Hg].
      * exists (Z.to_nat p). rewrite Z2Nat.id by lia. split; [exact Hpn|exact Hp].
  - intros g Hg. rewrite Hres in Hg. simpl in Hg.
    apply last_index_where_sound in Hg. apply Hg.
  - intros p Hp. rewrite Hres in Hp. simpl in Hp.
    apply last_index_where_sound in Hp. apply Hp.
Qed.

(** X5.  [findQueueFamilies] is complete exactly when the device has some
    graphics-capable family and some family that can present to the surface
    (the same or another), and an index it records is always the index of an
    existing family with the capability. *)
Theorem findQueueFamilies_complete_iff_both_exist
    (device : PhysicalDevice) (surface : Z) :
  (isComplete (findQueueFamilies device surface) = true
   ↔ (∃ g, graphicsAt device g = true) ∧ (∃ p, presentAt device surface p = true))
  ∧ (∀ g, graphicsFamily (findQueueFamilies device surface) = Some g →
       graphicsAt device g = true)
  ∧ (∀ p, presentFamily (findQueueFamilies device surface) = Some p →
       presentAt device surface p = true).
Proof. apply findQueueFamilies_complete_sound. Qed.

Lemma findQueueFamilies_complete_iff_both_exist_witness :
  isComplete (findQueueFamilies sampleDevice 3) = true
  ∧ graphicsAt sampleDevice 1 = true.
Proof.
  destruct (findQueueFamilies_complete_iff_both_exist sampleDevice 3)
    as (Hiff & Hg & _).
  split.
  - apply Hiff. split; [exists 0|exists 1]; reflexivity.
  - apply Hg. reflexivity.
Defined.

(** ** Layers, extensions and suitability *)

Lemma layerFound_elem_of (layerName : string) (availableLayers : list string) :
  layerFound layerName availableLayers = true ↔ layerName ∈ availableLayers.
Proof.
  induction availableLayers as [|l rest IH]; simpl.
  - split; [discriminate|intros H; inversion H].
  - destruct (String.eqb layerName l) eqn:E.
    + apply String.eqb_eq in E. subst l. split; [intros _; left|reflexivity].
    + apply String.eqb_neq in E. rewrite IH. split.
      * intros H. right. exact H.
      * intros H. apply elem_of_cons in H as [H|H]; [contradiction|exact H].
Qed.

(** X6.  [checkValidationLayerSupport] answers true exactly when every
    requested layer name is among the available ones; with the one layer the
    renderer requests, exactly when the Khronos validation layer is
    available. *)
Theorem checkValidationLayerSupport_all_requested_available
    (availableLayers : list string) :
  (∀ requested,
     checkValidationLayerSupport_loop requested availableLayers = true
     ↔ ∀ layerName, layerName ∈ requested → layerName ∈ availableLayers)
  ∧ (checkValidationLayerSupport availableLayers = true
     ↔ "VK_LAYER_KHRONOS_validation"%string ∈ availableLayers).
Proof.
  assert (Hloop : ∀ requested,
            checkValidationLayerSupport_loop requested availableLayers = true
            ↔ ∀ layerName, layerName ∈ requested → layerName ∈ availableLayers).
  { induction requested as [|l rest IH]; simpl.
    - split; [intros _ x Hx; inversion Hx|reflexivity].
    - destruct (layerFound l availableLayers) eqn:E; simpl.
      + apply layerFound_elem_of in E. rewrite IH. split.
        * intros H x Hx. apply elem_of_cons in Hx as [->|Hx]; [exact E|apply H, Hx].
        * intros H x Hx. apply H. right. exact Hx.
      + split; [discriminate|]. intros H.
        assert (layerFound l availableLayers = true) as Ht
          by (apply layerFound_elem_of, H; left).
        congruence. }
  split; [exact Hloop|].
  unfold checkValidationLayerSupport, validationLayers. rewrite Hloop. split.
  - intros H. apply H. left.
  - intros H x Hx. apply list_elem_of_singleton in Hx. subst x. exact H.
Qed.

Lemma checkValidationLayerSupport_all_requested_available_witness :
  checkValidationLayerSupport
    ["VK_LAYER_LUNARG_api_dump"%string; "VK_LAYER_KHRONOS_validation"%string] = true.
Proof.
  apply (proj2 (checkValidationLayerSupport_all_requested_available _)).
  right. left.
Defined.

Lemma eraseAvailable_difference (required : gset string) (available : list string) :
  eraseAvailable required available = required ∖ list_to_set available.
Proof.
  unfold eraseAvailable. revert required.
  induction available as [|e rest IH]; intros required; simpl.
  - apply set_eq. intros x. set_unfold. tauto.
  - rewrite IH. apply set_eq. intros x. set_unfold. tauto.
Qed.

Lemma checkDeviceExtensionSupport_iff (availableExtensions : list string) :
  checkDeviceExtensionSupport availableExtensions = true
  ↔ ∀ extension, extension ∈ deviceExtensions → extension ∈ availableExtensions.
Proof.
  unfold checkDeviceExtensionSupport.
  rewrite bool_decide_eq_true, eraseAvailable_difference. split.
  - intros H e He.
    assert (e ∉ (list_to_set deviceExtensions ∖ list_to_set availableExtensions
                 : gset string)) as Hn by (rewrite H; set_solver).
    destruct (decide (e ∈ availableExtensions)) as [Hin|Hout]; [exact Hin|].
    exfalso. apply Hn. set_solver.
  - intros H. apply set_eq. intros e. split; [|set_solver].
    intros He. apply elem_of_difference in He as [He1 He2].
    exfalso. apply He2. apply elem_of_list_to_set, H.
    apply elem_of_list_to_set in He1. exact He1.
Qed.

(** X7.  [checkDeviceExtensionSupport] answers true exactly when every
    required device extension (the swap-chain extension) is among the
    extensions the device lists; repetitions and order do not matter. *)
Theorem checkDeviceExtensionSupport_required_subset
    (availableExtensions : list string) :
  (checkDeviceExtensionSupport availableExtensions = true
   ↔ ∀ extension, extension ∈ deviceExtensions → extension ∈ availableExtensions)
  ∧ (checkDeviceExtensionSupport availableExtensions = true
     ↔ "VK_KHR_swapchain"%string ∈ availableExtensions)
  ∧ checkDeviceExtensionSupport [] = false.
Proof.
  split; [apply checkDeviceExtensionSupport_iff|]. split.
  - rewrite checkDeviceExtensionSupport_iff. unfold deviceExtensions. split.
    + intros H. apply H. left.
    + intros H x Hx. apply list_elem_of_singleton in Hx. subst x. exact H.
  - destruct (checkDeviceExtensionSupport []) eqn:E; [|reflexivity].
    pose proof (proj1 (checkDeviceExtensionSupport_iff []) E
                  "VK_KHR_swapchain"%string ltac:(left)) as H.
    inversion H.
Qed.

Lemma checkDeviceExtensionSupport_required_subset_witness :
  checkDeviceExtensionSupport
    ["VK_KHR_maintenance1"%string; "VK_KHR_swapchain"%string;
     "VK_KHR_swapchain"%string] = true.
Proof.
  apply (proj1 (proj2 (checkDeviceExtensionSupport_required_subset _))).
  right. left.
Defined.

Lemma vector_empty_false {A : Type} (v : list A) :
  negb (vector_empty v) = true ↔ v ≠ [].
Proof. destruct v; simpl; split; congruence. Qed.

Lemma isDeviceSuitable_iff (m_surface : Z) (device : PhysicalDeviceReport) :
  isDeviceSuitable m_surface device = true
  ↔ (∃ g, graphicsAt (pd_queues device) g = true)
    ∧ (∃ p, presentAt (pd_queues device) m_surface p = true)
    ∧ "VK_KHR_swapchain"%string ∈ pd_extensions device
    ∧ formats (pd_support device) ≠ []
    ∧ presentModes (pd_support device) ≠ [].
Proof.
  unfold isDeviceSuitable. cbv zeta.
  pose proof (proj1 (findQueueFamilies_complete_sound (pd_queues device) m_surface))
    as Hq.
  assert (Hx : checkDeviceExtensionSupport (pd_extensions device) = true
               ↔ "VK_KHR_swapchain"%string ∈ pd_extensions device).
  { rewrite checkDeviceExtensionSupport_iff. unfold deviceExtensions. split.
    - intros H. apply H. left.
    - intros H x Hxin. apply list_elem_of_singleton in Hxin. subst x. exact H. }
  destruct (checkDeviceExtensionSupport (pd_extensions device)).
  - rewrite !andb_true_iff, !vector_empty_false, Hq, <- Hx. tauto.
  - rewrite !andb_false_r. split; [discriminate|].
    intros (_ & _ & H & _). apply Hx in H. discriminate.
Qed.

(** X8.  A device is suitable exactly when it has a graphics-capable queue
    family, a family that can present to the surface, the swap-chain
    extension, at least one surface format and at least one present mode;
    it is unsuitable as soon as one of the five is missing. *)
Theorem isDeviceSuitable_five_requirements
    (m_surface : Z) (device : PhysicalDeviceReport) :
  isDeviceSuitable m_surface device = true
  ↔ (∃ g, graphicsAt (pd_queues device) g = true)
    ∧ (∃ p, presentAt (pd_queues device) m_surface p = true)
    ∧ "VK_KHR_swapchain"%string ∈ pd_extensions device
    ∧ formats (pd_support device) ≠ []
    ∧ presentModes (pd_support device) ≠ [].
Proof. apply isDeviceSuitable_iff. Qed.

Lemma isDeviceSuitable_five_requirements_witness :
  isDeviceSuitable 3
    {| pd_handle := 202; pd_queues := sampleDevice;
       pd_extensions := ["VK_KHR_swapchain"%string];
       pd_support := sampleSupport |} = true.
Proof.
  apply (proj2 (isDeviceSuitable_five_requirements 3 _)).
  split; [exists 0; reflexivity|]. split; [exists 1; reflexivity|].
  split; [left|]. split; discriminate.
Defined.

(** ** Choice of the physical device *)

Lemma pickPhysicalDevice_loop_spec (m_surface : Z)
    (devices : list PhysicalDeviceReport) (m_physicalDevice : Z) :
  (∃ (i : nat) device,
     devices !! i = Some device
     ∧ isDeviceSuitable m_surface device = true
     ∧ (∀ (j : nat) other, devices !! j = Some other → (j < i)%nat →
          isDeviceSuitable m_surface other = false)
     ∧ pickPhysicalDevice_loop m_surface devices m_physicalDevice = pd_handle device)
  ∨ (Forall (λ device, isDeviceSuitable m_surface device = false) devices
     ∧ pickPhysicalDevice_loop m_surface devices m_physicalDevice = m_physicalDevice).
Proof.
  induction devices as [|device rest IH]; simpl.
  - right. split; [constructor|reflexivity].
  - destruct (isDeviceSuitable m_surface device) eqn:E.
    + left. exists 0%nat, device. repeat split; [exact E|].
      intros j other _ Hj. lia.
    + destruct IH as [(i & d & Hi & Hs & Hbefore & Hres)|[Hall Hres]].
      * left. exists (S i), d. repeat split; try assumption.
        intros [|j] other Hj Hlt; simpl in Hj.
        -- injection Hj as <-. exact E.
        -- apply (Hbefore j other Hj). lia.
      * right. split; [constructor; assumption|exact Hres].
Qed.

(** X9.  Starting from the null handle, [pickPhysicalDevice] takes the first
    device in enumeration order that is suitable; it fails with "no device"
    exactly on an empty enumeration and with "no suitable device" exactly
    when the enumeration is not empty and no device is suitable.  The second
    failure is detected through the member still being null: with a member
    that already holds a handle, an enumeration without a suitable device
    keeps that handle and raises nothing. *)
Theorem pickPhysicalDevice_first_suitable (m_surface : Z)
    (devices : list PhysicalDeviceReport) :
  Forall (λ device, pd_handle device ≠ VK_NULL_HANDLE) devices →
  (pickPhysicalDevice m_surface devices VK_NULL_HANDLE = inl NoPhysicalDevice
   ↔ devices = [])
  ∧ (pickPhysicalDevice m_surface devices VK_NULL_HANDLE = inl NoSuitableDevice
     ↔ devices ≠ []
       ∧ Forall (λ device, isDeviceSuitable m_surface device = false) devices)
  ∧ (∀ handle,
       pickPhysicalDevice m_surface devices VK_NULL_HANDLE = inr handle
       ↔ ∃ (i : nat) device,
           devices !! i = Some device
           ∧ isDeviceSuitable m_surface device = true
           ∧ (∀ (j : nat) other, devices !! j = Some other → (j < i)%nat →
                isDeviceSuitable m_surface other = false)
           ∧ handle = pd_handle device)
  ∧ (∀ held, held ≠ VK_NULL_HANDLE → devices ≠ [] →
       Forall (λ device, isDeviceSuitable m_surface device = false) devices →
       pickPhysicalDevice m_surface devices held = inr held).
Proof.
  intros Hnonnull.
  assert (Hunsuit : ∀ (i : nat) device,
            devices !! i = Some device →
            isDeviceSuitable m_surface device = true →
            Forall (λ device, isDeviceSuitable m_surface device = false) devices →
            False).
  { intros i device Hi Hs Hall.
    rewrite Forall_lookup in Hall. specialize (Hall i device Hi). congruence. }
  assert (Hfirst : ∀ (i i' : nat) d d',
            devices !! i = Some d → isDeviceSuitable m_surface d = true →
            (∀ (j : nat) other, devices !! j = Some other → (j < i)%nat →
               isDeviceSuitable m_surface other = false) →
            devices !! i' = Some d' → isDeviceSuitable m_surface d' = true →
            (∀ (j : nat) other, devices !! j = Some other → (j < i')%nat →
               isDeviceSuitable m_surface other = false) →
            d = d').
  { intros i i' d d' Hi Hs Hb Hi' Hs' Hb'.
    destruct (lt_eq_lt_dec i i') as [[Hlt|Heq]|Hgt].
    - specialize (Hb' i d Hi Hlt). congruence.
    - subst i'. congruence.
    - specialize (Hb i' d' Hi' Hgt). congruence. }
  unfold pickPhysicalDevice.
  destruct devices as [|first rest].
  { simpl. split; [split; reflexivity|]. split.
    - split; [discriminate|]. intros [H _]. congruence.
    - split.
      + intros handle. split; [discriminate|].
        intros (i & d & Hi & _). rewrite lookup_nil in Hi. discriminate.
      + intros held _ H. congruence. }
  set (devices := first :: rest) in *.
  assert (Hlen : (Z.of_nat (length devices) =? 0) = false)
    by (apply Z.eqb_neq; simpl; lia).
  rewrite Hlen. cbv zeta.
  split; [|split; [|split]].
  - split; [|discriminate].
    destruct (pickPhysicalDevice_loop m_surface devices VK_NULL_HANDLE =? VK_NULL_HANDLE);
      discriminate.
  - destruct (pickPhysicalDevice_loop_spec m_surface devices VK_NULL_HANDLE)
      as [(i & d & Hi & Hs & Hbefore & Hres)|[Hall Hres]]; rewrite Hres.
    + assert (Hd : pd_handle d ≠ VK_NULL_HANDLE).
      { rewrite Forall_lookup in Hnonnull. apply (Hnonnull i d Hi). }
      apply Z.eqb_neq in Hd. rewrite Hd. split; [discriminate|].
      intros [_ Hall]. exfalso. apply (Hunsuit i d Hi Hs Hall).
    + rewrite Z.eqb_refl. split; [|reflexivity].
      intros _. split; [discriminate|exact Hall].
  - intros handle.
    destruct (pickPhysicalDevice_loop_spec m_surface devices VK_NULL_HANDLE)
      as [(i & d & Hi & Hs & Hbefore & Hres)|[Hall Hres]]; rewrite Hres.
    + assert (Hd : pd_handle d ≠ VK_NULL_HANDLE).
      { rewrite Forall_lookup in Hnonnull. apply (Hnonnull i d Hi). }
      apply Z.eqb_neq in Hd. rewrite Hd. split.
      * intros [= <-]. exists i, d. repeat split; assumption.
      * intros (i' & d' & Hi' & Hs' & Hb' & ->).
        rewrite (Hfirst i i' d d' Hi Hs Hbefore Hi' Hs' Hb'). reflexivity.
    + rewrite Z.eqb_refl. split; [discriminate|].
      intros (i' & d' & Hi' & Hs' & _). exfalso.
      apply (Hunsuit i' d' Hi' Hs' Hall).
  - intros held Hheld _ Hall.
    destruct (pickPhysicalDevice_loop_spec m_surface devices held)
      as [(i & d & Hi & Hs & _)|[_ Hres]].
    + exfalso. apply (Hunsuit i d Hi Hs Hall).
    + rewrite Hres. apply Z.eqb_neq in Hheld. rewrite Hheld. reflexivity.
Qed.

Lemma pickPhysicalDevice_first_suitable_witness :
  pickPhysicalDevice 3 sampleReports VK_NULL_HANDLE = inr 202.
Proof.
  assert (Hnonnull : Forall (λ device, pd_handle device ≠ VK_NULL_HANDLE)
                       sampleReports)
    by (repeat constructor; discriminate).
  apply (proj1 (proj2 (proj2 (pickPhysicalDevice_first_suitable 3 sampleReports
                                Hnonnull))) 202).
  exists 1%nat, {| pd_handle := 202; pd_queues := sampleDevice;
                   pd_extensions := ["VK_KHR_maintenance1"%string;
                                     "VK_KHR_swapchain"%string];
                   pd_support := sampleSupport |}.
  split; [reflexivity|]. split; [vm_compute; reflexivity|]. split; [|reflexivity].
  intros [|[|j]] other Hj Hlt; try lia.
  injection Hj as <-. vm_compute. reflexivity.
Defined.

(** ** Queues of the logical device *)

(** X10.  [createLogicalDevice] asks for one queue per distinct family: a
    single create-info when the graphics and the present family coincide,
    otherwise two, in ascending order of the family index, each with one
    queue; without both families it ends in [bad_optional_access]. *)
Theorem createLogicalDevice_one_queue_per_family :
  (∀ indices,
     createLogicalDevice_queueCreateInfos indices = None
     ↔ isComplete indices = false)
  ∧ (∀ g p, ∃ infos,
       createLogicalDevice_queueCreateInfos
         {| graphicsFamily := Some g; presentFamily := Some p |} = Some infos
       ∧ qci_queueFamilyIndex <$> infos
         = (if g =? p then [g] else [Z.min g p; Z.max g p])
       ∧ Forall (λ info, qci_queueCount info = 1) infos).
Proof.
  split.
  - intros [[g|] [p|]]; unfold createLogicalDevice_queueCreateInfos, isComplete;
      simpl; split; congruence.
  - intros g p. unfold createLogicalDevice_queueCreateInfos. simpl.
    eexists. split; [reflexivity|].
    destruct (p <? g) eqn:E1; [apply Z.ltb_lt in E1|apply Z.ltb_ge in E1].
    + assert (E : (g =? p) = false) by (apply Z.eqb_neq; lia). rewrite E. simpl.
      rewrite Z.min_r, Z.max_l by lia. split; [reflexivity|repeat constructor].
    + destruct (p =? g) eqn:E2.
      * apply Z.eqb_eq in E2. subst p. rewrite Z.eqb_refl. simpl.
        split; [reflexivity|repeat constructor].
      * apply Z.eqb_neq in E2.
        assert (E : (g =? p) = false) by (apply Z.eqb_neq; lia). rewrite E. simpl.
        rewrite Z.min_l, Z.max_r by lia. split; [reflexivity|repeat constructor].
Qed.

(** ** Creation of the swap chain *)

Lemma chooseSwapSurfaceFormat_None (l : list VkSurfaceFormatKHR) :
  chooseSwapSurfaceFormat l = None ↔ l = [].
Proof.
  split.
  - intros H. destruct l as [|f l]; [reflexivity|].
    destruct (chooseSwapSurfaceFormat_nonempty (f :: l)) as [x Hx]; congruence.
  - intros ->. reflexivity.
Qed.

Lemma createSwapChain_outcomes (env : SwapChainEnv) (w : World) :
  let indices := findQueueFamilies (physicalDevice env) (m_surface (renderer w)) in
  match createSwapChain env w with
  | Returned _ w' =>
      formats (swapChainSupport env) ≠ []
      ∧ isComplete indices = true
      ∧ fst (createSwapchainResult env) = VK_SUCCESS
      ∧ ∃ createInfo,
          calls (driver w')
          = calls (driver w) ++ [CreateSwapchainKHR (m_device (renderer w)) createInfo]
  | Stopped fault w' =>
      fenceStatus (driver w') = fenceStatus (driver w)
      ∧ m_swapChainImages (renderer w') = m_swapChainImages (renderer w)
      ∧ m_swapChainImageFormat (renderer w') = m_swapChainImageFormat (renderer w)
      ∧ m_swapChainExtent (renderer w') = m_swapChainExtent (renderer w)
      ∧ ((fault = Undefined ∧ formats (swapChainSupport env) = [] ∧ w' = w)
         ∨ (fault = Thrown BadOptionalAccess
            ∧ formats (swapChainSupport env) ≠ []
            ∧ isComplete indices = false ∧ w' = w)
         ∨ (fault = Thrown CreateSwapChainFailed
            ∧ formats (swapChainSupport env) ≠ []
            ∧ isComplete indices = true
            ∧ fst (createSwapchainResult env) ≠ VK_SUCCESS
            ∧ ∃ createInfo,
                w' = rendered (with_swapChain (snd (createSwapchainResult env)))
                       (logged [CreateSwapchainKHR (m_device (renderer w)) createInfo]
                          w)))
  end.
Proof.
  cbv zeta. unfold createSwapChain, isComplete.
  erewrite bind_run by reflexivity.
  destruct (chooseSwapSurfaceFormat (formats (swapChainSupport env)))
    as [surfaceFormat|] eqn:Hf.
  - assert (Hne : formats (swapChainSupport env) ≠ []).
    { intros E. apply chooseSwapSurfaceFormat_None in E. congruence. }
    erewrite bind_run by reflexivity. cbv zeta.
    destruct (graphicsFamily (findQueueFamilies (physicalDevice env)
                                (m_surface (renderer w)))) as [g|].
    + erewrite bind_run by reflexivity.
      destruct (presentFamily (findQueueFamilies (physicalDevice env)
                                 (m_surface (renderer w)))) as [p|].
      * erewrite bind_run by reflexivity.
        erewrite bind_run by reflexivity.
        erewrite bind_run by reflexivity.
        destruct (fst (createSwapchainResult env) =? VK_SUCCESS) eqn:Hres.
        -- apply Z.eqb_eq in Hres. simpl.
           repeat split; try assumption. eexists. reflexivity.
        -- apply Z.eqb_neq in Hres. simpl.
           repeat (split; [reflexivity|]).
           right. right. repeat split; try assumption.
           eexists. reflexivity.
      * simpl. repeat (split; [reflexivity|]).
        right. left. repeat split. assumption.
    + simpl. repeat (split; [reflexivity|]).
      right. left. repeat split. assumption.
  - apply chooseSwapSurfaceFormat_None in Hf. simpl.
    repeat (split; [reflexivity|]). left. repeat split. assumption.
Qed.

(** X11.  How [createSwapChain] can end.  It returns exactly when there is
    a surface format to choose, both queue families were found and the
    driver accepted the creation call.  An empty format list is a read
    outside the vector, a missing family is [bad_optional_access]; both end
    the function before any call and with nothing assigned.  A refused
    creation throws after that one call: [m_swapChain], whose address the
    call was given, then holds whatever the driver left there, and the
    images, the format and the extent of the swap chain are not assigned. *)
Theorem createSwapChain_failure_assigns_no_image (env : SwapChainEnv) (w : World) :
  let indices := findQueueFamilies (physicalDevice env) (m_surface (renderer w)) in
  match createSwapChain env w with
  | Returned _ w' =>
      formats (swapChainSupport env) ≠ []
      ∧ isComplete indices = true
      ∧ fst (createSwapchainResult env) = VK_SUCCESS
      ∧ ∃ createInfo,
          calls (driver w')
          = calls (driver w) ++ [CreateSwapchainKHR (m_device (renderer w)) createInfo]
  | Stopped fault w' =>
      fenceStatus (driver w') = fenceStatus (driver w)
      ∧ m_swapChainImages (renderer w') = m_swapChainImages (renderer w)
      ∧ m_swapChainImageFormat (renderer w') = m_swapChainImageFormat (renderer w)
      ∧ m_swapChainExtent (renderer w') = m_swapChainExtent (renderer w)
      ∧ ((fault = Undefined ∧ formats (swapChainSupport env) = [] ∧ w' = w)
         ∨ (fault = Thrown BadOptionalAccess
            ∧ formats (swapChainSupport env) ≠ []
            ∧ isComplete indices = false ∧ w' = w)
         ∨ (fault = Thrown CreateSwapChainFailed
            ∧ formats (swapChainSupport env) ≠ []
            ∧ isComplete indices = true
            ∧ fst (createSwapchainResult env) ≠ VK_SUCCESS
            ∧ ∃ createInfo,
                w' = rendered (with_swapChain (snd (createSwapchainResult env)))
                       (logged [CreateSwapchainKHR (m_device (renderer w)) createInfo]
                          w)))
  end.
Proof. exact (createSwapChain_outcomes env w). Qed.

(** X12.  The creation call of a [createSwapChain] that returns: the images
    are shared between the two queue families ([VK_SHARING_MODE_CONCURRENT]
    with both indices, graphics first) exactly when the families differ, and
    are exclusive with no index otherwise; the surface is the renderer's,
    the present mode the chosen one, the transform the current one. *)
Theorem createSwapChain_concurrent_iff_families_differ
    (env : SwapChainEnv) (w w' : World) :
  createSwapChain env w = Returned tt w' →
  ∃ g p createInfo,
    findQueueFamilies (physicalDevice env) (m_surface (renderer w))
    = {| graphicsFamily := Some g; presentFamily := Some p |}
    ∧ newCalls w w' = [CreateSwapchainKHR (m_device (renderer w)) createInfo]
    ∧ ci_surface createInfo = m_surface (renderer w)
    ∧ ci_presentMode createInfo
      = chooseSwapPresentMode (presentModes (swapChainSupport env))
    ∧ ci_preTransform createInfo
      = currentTransform (capabilities (swapChainSupport env))
    ∧ (g = p →
       ci_imageSharingMode createInfo = VK_SHARING_MODE_EXCLUSIVE
       ∧ ci_queueFamilyIndices createInfo = [])
    ∧ (g ≠ p →
       ci_imageSharingMode createInfo = VK_SHARING_MODE_CONCURRENT
       ∧ ci_queueFamilyIndices createInfo = [g; p]).
Proof.
  unfold createSwapChain. intros H.
  erewrite bind_run in H by reflexivity.
  destruct (chooseSwapSurfaceFormat (formats (swapChainSupport env)))
    as [surfaceFormat|]; [|discriminate].
  erewrite bind_run in H by reflexivity. cbv zeta in H.
  destruct (findQueueFamilies (physicalDevice env) (m_surface (renderer w)))
    as [[g|] [p|]]; try discriminate.
  cbn [graphicsFamily presentFamily] in H.
  erewrite bind_run in H by reflexivity.
  erewrite bind_run in H by reflexivity.
  erewrite bind_run in H by reflexivity.
  destruct (negb (fst (createSwapchainResult env) =? VK_SUCCESS)); [discriminate|].
  injection H as <-.
  exists g, p. eexists. split; [reflexivity|].
  split; [apply newCalls_logged; reflexivity|].
  cbn [ci_surface ci_presentMode ci_preTransform ci_imageSharingMode
       ci_queueFamilyIndices].
  split; [reflexivity|]. split; [reflexivity|]. split; [reflexivity|].
  split; intros Hgp.
  - apply Z.eqb_eq in Hgp. rewrite Hgp. split; reflexivity.
  - apply Z.eqb_neq in Hgp. rewrite Hgp. split; reflexivity.
Qed.

Lemma createSwapChain_concurrent_iff_families_differ_witness :
  ∃ createInfo,
    newCalls sampleWorld (finalWorld (createSwapChain sampleSwapChainEnv sampleWorld))
    = [CreateSwapchainKHR 5 createInfo]
    ∧ ci_imageSharingMode createInfo = VK_SHARING_MODE_EXCLUSIVE.
Proof.
  destruct (createSwapChain_concurrent_iff_families_differ sampleSwapChainEnv
              sampleWorld (finalWorld (createSwapChain sampleSwapChainEnv sampleWorld)))
    as (g & p & createInfo & Hfam & Hcalls & _ & _ & _ & Hsame & _).
  - vm_compute. reflexivity.
  - exists createInfo. split; [exact Hcalls|].
    apply Hsame. vm_compute in Hfam. congruence.
Defined.

(** ** Image views and framebuffers *)

Lemma filled_step (f : nat -> Z) (i k : nat) (x : Z) (old : list Z) :
  (i < length old)%nat → x = f i →
  take (S i) (<[i := x]> old) ++ (f <$> seq (S i) k)
    ++ drop (S i + k) (<[i := x]> old)
  = take i old ++ (f <$> seq i (S k)) ++ drop (i + S k) old.
Proof.
  intros Hi ->.
  rewrite (take_S_r (<[i := f i]> old) i (f i))
    by (apply list_lookup_insert_eq; exact Hi).
  rewrite take_insert_ge by lia.
  rewrite drop_insert_lt by lia.
  cbn [seq fmap list_fmap]. rewrite <- app_assoc. simpl.
  replace (i + S k)%nat with (S (i + k)) by lia. reflexivity.
Qed.

Lemma filled_none (i : nat) (old : list Z) :
  take i old ++ [] ++ drop (i + 0) old = old.
Proof. rewrite Nat.add_0_r. simpl. apply take_drop. Qed.

(** The loop of [createImageViews] with the first [k] creations accepted: it
    returns when these are all, and throws at the refused one otherwise,
    after [made] calls, each of which has written its vector entry. *)
Lemma createImageViews_loop_upto (env : SwapChainEnv) (images : list Z) :
  ∀ (i : nat) (w : World) (k : nat),
    let made := if decide (k = length images) then k else S k in
    (k <= length images)%nat →
    (i + length images <= length (m_swapChainImageViews (renderer w)))%nat →
    (∀ j, (j < k)%nat → fst (createImageViewResult env (i + j)) = VK_SUCCESS) →
    ((k < length images)%nat →
       fst (createImageViewResult env (i + k)) ≠ VK_SUCCESS) →
    createImageViews_loop env images i w
    = (if decide (k = length images) then Returned tt
       else Stopped (Thrown CreateImageViewFailed))
        (rendered
           (with_swapChainImageViews
              (take i (m_swapChainImageViews (renderer w))
               ++ ((λ j, snd (createImageViewResult env j)) <$> seq i made)
               ++ drop (i + made) (m_swapChainImageViews (renderer w))))
           (logged
              ((λ image, CreateImageView (m_device (renderer w)) image
                           (m_swapChainImageFormat (renderer w)))
                 <$> take made images)
              w)).
Proof.
  induction images as [|image rest IH]; intros i w k made Hk Hlen Hok Hbad;
    subst made.
  - simpl in Hk. assert (k = 0)%nat as -> by lia.
    simpl. rewrite filled_none, logged_nil, rendered_same_imageViews. reflexivity.
  - cbn [createImageViews_loop].
    erewrite bind_run by reflexivity.
    erewrite bind_run by reflexivity.
    erewrite bind_run by reflexivity.
    simpl in Hlen, Hk. cbn [length].
    destruct k as [|k].
    + assert (Hfail : fst (createImageViewResult env i) ≠ VK_SUCCESS).
      { specialize (Hbad ltac:(simpl; lia)). rewrite Nat.add_0_r in Hbad.
        exact Hbad. }
      apply Z.eqb_neq in Hfail. rewrite Hfail.
      rewrite !decide_False by lia.
      cbn [negb take seq fmap list_fmap]. unfold throw. f_equal.
      unfold rendered, logged. cbn.
      rewrite (insert_take_drop (m_swapChainImageViews (renderer w)) i) by lia.
      rewrite Nat.add_1_r. reflexivity.
    + assert (Hgood : fst (createImageViewResult env i) = VK_SUCCESS).
      { specialize (Hok 0%nat ltac:(lia)). rewrite Nat.add_0_r in Hok. exact Hok. }
      rewrite Hgood. change (negb (VK_SUCCESS =? VK_SUCCESS)) with false. cbv iota.
      match goal with
      | |- createImageViews_loop env rest (S i) ?w1 = _ =>
          set (W1 := w1); rewrite (IH (S i) W1 k); subst W1
      end.
      * destruct (decide (k = length rest)) as [Hkl|Hkl].
        -- rewrite !decide_True by lia.
           f_equal. unfold rendered, logged. cbn.
           rewrite (filled_step (λ j, snd (createImageViewResult env j)) i k _
                      (m_swapChainImageViews (renderer w))) by (lia || reflexivity).
           rewrite <- app_assoc. reflexivity.
        -- rewrite !decide_False by lia.
           remember (S k) as m eqn:Hm.
           f_equal. unfold rendered, logged. cbn.
           rewrite (filled_step (λ j, snd (createImageViewResult env j)) i m _
                      (m_swapChainImageViews (renderer w))) by (lia || reflexivity).
           rewrite <- app_assoc. reflexivity.
      * lia.
      * cbn. rewrite length_insert. lia.
      * intros j Hj. specialize (Hok (S j) ltac:(lia)).
        replace (S i + j)%nat with (i + S j)%nat by lia. exact Hok.
      * intros Hlt. replace (S i + k)%nat with (i + S k)%nat by lia.
        apply Hbad. simpl. lia.
Qed.

Lemma createImageViews_upto (env : SwapChainEnv) (w : World) (k : nat) :
  let r := renderer w in
  let n := length (m_swapChainImages r) in
  let made := if decide (k = n) then k else S k in
  (k <= n)%nat →
  (∀ i, (i < k)%nat → fst (createImageViewResult env i) = VK_SUCCESS) →
  ((k < n)%nat → fst (createImageViewResult env k) ≠ VK_SUCCESS) →
  createImageViews env w
  = (if decide (k = n) then Returned tt
     else Stopped (Thrown CreateImageViewFailed))
      (rendered
         (with_swapChainImageViews
            (((λ i, snd (createImageViewResult env i)) <$> seq 0 made)
             ++ drop made (resize (m_swapChainImageViews r) n)))
         (logged
            ((λ image, CreateImageView (m_device r) image (m_swapChainImageFormat r))
               <$> take made (m_swapChainImages r))
            w)).
Proof.
  cbv zeta. intros Hk Hok Hbad. unfold createImageViews.
  erewrite bind_run by reflexivity.
  erewrite bind_run by reflexivity.
  match goal with
  | |- context [createImageViews_loop env ?images 0%nat ?w1] =>
      set (W1 := w1);
      rewrite (createImageViews_loop_upto env images 0%nat W1 k Hk);
      subst W1
  end.
  - repeat case_decide; cbn in *; try lia;
      f_equal; unfold rendered, logged; cbn; reflexivity.
  - cbn. rewrite length_resize. lia.
  - intros j Hj. apply Hok, Hj.
  - intros Hlt. apply Hbad, Hlt.
Qed.

(** X13.  [createImageViews] makes one view per swap-chain image, in the
    order of the images and with the format of the swap chain.  When the
    driver accepts them all, the vector holds exactly the handles it
    answered.  When creation [k] is the first one refused, the function
    throws after that call, the [k+1]-th: the first [k] entries are new
    views, entry [k], whose address the refused call was given, holds
    whatever the driver left there, and the entries behind it are what
    [resize] left, handles of the previous vector or null. *)
Theorem createImageViews_view_per_image (env : SwapChainEnv) (w : World) :
  let r := renderer w in
  let n := length (m_swapChainImages r) in
  let view := λ i : nat, snd (createImageViewResult env i) in
  let creation :=
    λ image, CreateImageView (m_device r) image (m_swapChainImageFormat r) in
  ((∀ i, (i < n)%nat → fst (createImageViewResult env i) = VK_SUCCESS) →
     createImageViews env w
     = Returned tt
         (rendered (with_swapChainImageViews (view <$> seq 0 n))
            (logged (creation <$> m_swapChainImages r) w)))
  ∧ (∀ k, (k < n)%nat →
       (∀ i, (i < k)%nat → fst (createImageViewResult env i) = VK_SUCCESS) →
       fst (createImageViewResult env k) ≠ VK_SUCCESS →
       createImageViews env w
       = Stopped (Thrown CreateImageViewFailed)
           (rendered
              (with_swapChainImageViews
                 ((view <$> seq 0 k) ++ [view k]
                  ++ drop (S k) (resize (m_swapChainImageViews r) n)))
              (logged (creation <$> take (S k) (m_swapChainImages r)) w))).
Proof.
  cbv zeta. split.
  - intros Hok.
    rewrite (createImageViews_upto env w (length (m_swapChainImages (renderer w))))
      by (lia || assumption).
    rewrite !decide_True by reflexivity.
    rewrite drop_ge by (rewrite length_resize; lia).
    rewrite firstn_all, app_nil_r. reflexivity.
  - intros k Hk Hok Hbad.
    rewrite (createImageViews_upto env w k)
      by (lia || assumption || intros _; assumption).
    rewrite !decide_False by lia.
    rewrite seq_S, fmap_app, <- app_assoc. reflexivity.
Qed.

Lemma createImageViews_view_per_image_witness :
  m_swapChainImageViews
    (renderer (finalWorld (createImageViews sampleSwapChainEnv sampleWorld)))
  = [121; 122]
  ∧ createImageViews refusesSecondView sampleWorld
    = Stopped (Thrown CreateImageViewFailed)
        (rendered (with_swapChainImageViews [121; VK_NULL_HANDLE])
           (logged [CreateImageView 5 11 50; CreateImageView 5 12 50] sampleWorld)).
Proof.
  split.
  - rewrite (proj1 (createImageViews_view_per_image sampleSwapChainEnv sampleWorld))
      by (intros i _; reflexivity).
    reflexivity.
  - rewrite (proj2 (createImageViews_view_per_image refusesSecondView sampleWorld)
               1%nat).
    + reflexivity.
    + simpl. lia.
    + intros [|i] Hi; [reflexivity|lia].
    + discriminate.
Defined.

(** The loop of [createFramebuffers] with the first [k] creations accepted: it
    returns when these are all, and throws at the refused one otherwise,
    after [made] calls, each of which has written its vector entry. *)
Lemma createFramebuffers_loop_upto (env : SwapChainEnv) (views : list Z) :
  ∀ (i : nat) (w : World) (k : nat),
    let made := if decide (k = length views) then k else S k in
    (k <= length views)%nat →
    (i + length views <= length (m_swapChainFramebuffers (renderer w)))%nat →
    (∀ j, (j < k)%nat → fst (createFramebufferResult env (i + j)) = VK_SUCCESS) →
    ((k < length views)%nat →
       fst (createFramebufferResult env (i + k)) ≠ VK_SUCCESS) →
    createFramebuffers_loop env views i w
    = (if decide (k = length views) then Returned tt
       else Stopped (Thrown CreateFramebufferFailed))
        (rendered
           (with_swapChainFramebuffers
              (take i (m_swapChainFramebuffers (renderer w))
               ++ ((λ j, snd (createFramebufferResult env j)) <$> seq i made)
               ++ drop (i + made) (m_swapChainFramebuffers (renderer w))))
           (logged
              ((λ view, CreateFramebuffer (m_device (renderer w))
                          (m_renderPass (renderer w)) view
                          (m_swapChainExtent (renderer w)))
                 <$> take made views)
              w)).
Proof.
  induction views as [|view rest IH]; intros i w k made Hk Hlen Hok Hbad;
    subst made.
  - simpl in Hk. assert (k = 0)%nat as -> by lia.
    simpl. rewrite filled_none, logged_nil, rendered_same_framebuffers. reflexivity.
  - cbn [createFramebuffers_loop].
    erewrite bind_run by reflexivity.
    erewrite bind_run by reflexivity.
    erewrite bind_run by reflexivity.
    simpl in Hlen, Hk. cbn [length].
    destruct k as [|k].
    + assert (Hfail : fst (createFramebufferResult env i) ≠ VK_SUCCESS).
      { specialize (Hbad ltac:(simpl; lia)). rewrite Nat.add_0_r in Hbad.
        exact Hbad. }
      apply Z.eqb_neq in Hfail. rewrite Hfail.
      rewrite !decide_False by lia.
      cbn [negb take seq fmap list_fmap]. unfold throw. f_equal.
      unfold rendered, logged. cbn.
      rewrite (insert_take_drop (m_swapChainFramebuffers (renderer w)) i) by lia.
      rewrite Nat.add_1_r. reflexivity.
    + assert (Hgood : fst (createFramebufferResult env i) = VK_SUCCESS).
      { specialize (Hok 0%nat ltac:(lia)). rewrite Nat.add_0_r in Hok. exact Hok. }
      rewrite Hgood. change (negb (VK_SUCCESS =? VK_SUCCESS)) with false. cbv iota.
      match goal with
      | |- createFramebuffers_loop env rest (S i) ?w1 = _ =>
          set (W1 := w1); rewrite (IH (S i) W1 k); subst W1
      end.
      * destruct (decide (k = length rest)) as [Hkl|Hkl].
        -- rewrite !decide_True by lia.
           f_equal. unfold rendered, logged. cbn.
           rewrite (filled_step (λ j, snd (createFramebufferResult env j)) i k _
                      (m_swapChainFramebuffers (renderer w))) by (lia || reflexivity).
           rewrite <- app_assoc. reflexivity.
        -- rewrite !decide_False by lia.
           remember (S k) as m eqn:Hm.
           f_equal. unfold rendered, logged. cbn.
           rewrite (filled_step (λ j, snd (createFramebufferResult env j)) i m _
                      (m_swapChainFramebuffers (renderer w))) by (lia || reflexivity).
           rewrite <- app_assoc. reflexivity.
      * lia.
      * cbn. rewrite length_insert. lia.
      * intros j Hj. specialize (Hok (S j) ltac:(lia)).
        replace (S i + j)%nat with (i + S j)%nat by lia. exact Hok.
      * intros Hlt. replace (S i + k)%nat with (i + S k)%nat by lia.
        apply Hbad. simpl. lia.
Qed.

Lemma createFramebuffers_upto (env : SwapChainEnv) (w : World) (k : nat) :
  let r := renderer w in
  let n := length (m_swapChainImageViews r) in
  let made := if decide (k = n) then k else S k in
  (k <= n)%nat →
  (∀ i, (i < k)%nat → fst (createFramebufferResult env i) = VK_SUCCESS) →
  ((k < n)%nat → fst (createFramebufferResult env k) ≠ VK_SUCCESS) →
  createFramebuffers env w
  = (if decide (k = n) then Returned tt
     else Stopped (Thrown CreateFramebufferFailed))
      (rendered
         (with_swapChainFramebuffers
            (((λ i, snd (createFramebufferResult env i)) <$> seq 0 made)
             ++ drop made (resize (m_swapChainFramebuffers r) n)))
         (logged
            ((λ view, CreateFramebuffer (m_device r) (m_renderPass r) view
                        (m_swapChainExtent r))
               <$> take made (m_swapChainImageViews r))
            w)).
Proof.
  cbv zeta. intros Hk Hok Hbad. unfold createFramebuffers.
  erewrite bind_run by reflexivity.
  erewrite bind_run by reflexivity.
  erewrite bind_run by reflexivity.
  match goal with
  | |- context [createFramebuffers_loop env _ 0%nat ?w1] => set (W1 := w1)
  end.
  match goal with
  | |- context [createFramebuffers_loop env ?views 0%nat W1] =>
      rewrite (createFramebuffers_loop_upto env views 0%nat W1 k);
      subst W1
  end.
  - repeat case_decide; cbn in *; try lia;
      f_equal; unfold rendered, logged; cbn; reflexivity.
  - cbn. exact Hk.
  - cbn. rewrite length_resize. lia.
  - intros j Hj. apply Hok, Hj.
  - cbn. intros Hlt. apply Hbad, Hlt.
Qed.

(** X14.  [createFramebuffers] makes one framebuffer per image view, in the
    order of the views, on the render pass and with the extent of the swap
    chain.  When the driver accepts them all, the vector holds exactly the
    handles it answered.  When creation [k] is the first one refused, the
    function throws after that call: the first [k] entries are new
    framebuffers, entry [k], whose address the refused call was given, holds
    whatever the driver left there, and the entries behind it are as
    [resize] left them. *)
Theorem createFramebuffers_framebuffer_per_view (env : SwapChainEnv) (w : World) :
  let r := renderer w in
  let n := length (m_swapChainImageViews r) in
  let framebuffer := λ i : nat, snd (createFramebufferResult env i) in
  let creation :=
    λ view, CreateFramebuffer (m_device r) (m_renderPass r) view
              (m_swapChainExtent r) in
  ((∀ i, (i < n)%nat → fst (createFramebufferResult env i) = VK_SUCCESS) →
     createFramebuffers env w
     = Returned tt
         (rendered (with_swapChainFramebuffers (framebuffer <$> seq 0 n))
            (logged (creation <$> m_swapChainImageViews r) w)))
  ∧ (∀ k, (k < n)%nat →
       (∀ i, (i < k)%nat → fst (createFramebufferResult env i) = VK_SUCCESS) →
       fst (createFramebufferResult env k) ≠ VK_SUCCESS →
       createFramebuffers env w
       = Stopped (Thrown CreateFramebufferFailed)
           (rendered
              (with_swapChainFramebuffers
                 ((framebuffer <$> seq 0 k) ++ [framebuffer k]
                  ++ drop (S k) (resize (m_swapChainFramebuffers r) n)))
              (logged (creation <$> take (S k) (m_swapChainImageViews r)) w))).
Proof.
  cbv zeta. split.
  - intros Hok.
    rewrite (createFramebuffers_upto env w (length (m_swapChainImageViews (renderer w))))
      by (lia || assumption).
    rewrite !decide_True by reflexivity.
    rewrite drop_ge by (rewrite length_resize; lia).
    rewrite firstn_all, app_nil_r. reflexivity.
  - intros k Hk Hok Hbad.
    rewrite (createFramebuffers_upto env w k)
      by (lia || assumption || intros _; assumption).
    rewrite !decide_False by lia.
    rewrite seq_S, fmap_app, <- app_assoc. reflexivity.
Qed.

Lemma createFramebuffers_framebuffer_per_view_witness :
  createFramebuffers sampleSwapChainEnv sampleWorld
  = Returned tt
      (rendered (with_swapChainFramebuffers [131; 132])
         (logged [CreateFramebuffer 5 40 21 {| width := 800; height := 600 |};
                  CreateFramebuffer 5 40 22 {| width := 800; height := 600 |}]
            sampleWorld))
  ∧ createFramebuffers refusesFirstFramebuffer sampleWorld
    = Stopped (Thrown CreateFramebufferFailed)
        (rendered (with_swapChainFramebuffers [77; 32])
           (logged [CreateFramebuffer 5 40 21 {| width := 800; height := 600 |}]
              sampleWorld)).
Proof.
  split.
  - rewrite (proj1 (createFramebuffers_framebuffer_per_view sampleSwapChainEnv
                      sampleWorld))
      by (intros i _; reflexivity).
    reflexivity.
  - rewrite (proj2 (createFramebuffers_framebuffer_per_view refusesFirstFramebuffer
                      sampleWorld) 0%nat).
    + reflexivity.
    + simpl. lia.
    + intros i Hi. lia.
    + discriminate.
Defined.

(** ** Shutdown of an initialized renderer *)

Lemma forget_lookup_None (fences : list Z) :
  ∀ (status : gmap Z FenceStatus) (fence : Z),
    status !! fence = None → forget fences status !! fence = None.
Proof.
  unfold forget. induction fences as [|f rest IH]; intros status fence H.
  - exact H.
  - simpl. apply IH.
    destruct (decide (f = fence)) as [->|Hne].
    + apply lookup_delete_eq.
    + rewrite lookup_delete_ne by exact Hne. exact H.
Qed.

Lemma forget_lookup (fences : list Z) :
  ∀ (status : gmap Z FenceStatus) (fence : Z),
    fence ∈ fences → forget fences status !! fence = None.
Proof.
  induction fences as [|f rest IH]; intros status fence Hin.
  - apply elem_of_nil in Hin. contradiction.
  - apply elem_of_cons in Hin as [->|Hin].
    + apply (forget_lookup_None rest). apply lookup_delete_eq.
    + apply (IH (delete f status)). exact Hin.
Qed.

Lemma cleanup_syncObjects_run (count : nat) :
  ∀ (i : nat) (w : World),
    let r := renderer w in
    (i + count <= length (m_renderFinishedSemaphores r))%nat →
    (i + count <= length (m_imageAvailableSemaphores r))%nat →
    (i + count <= length (m_inFlightFences r))%nat →
    cleanup_syncObjects count (Z.of_nat i) w
    = Returned tt
        (fenced (forget (take count (drop i (m_inFlightFences r))))
           (logged
              (destroySyncObjects (m_device r)
                 (take count (drop i (m_renderFinishedSemaphores r)))
                 (take count (drop i (m_imageAvailableSemaphores r)))
                 (take count (drop i (m_inFlightFences r))))
              w)).
Proof.
  induction count as [|count IH]; intros i w r H1 H2 H3; subst r.
  - simpl. unfold fenced, logged, forget. simpl. rewrite app_nil_r.
    destruct w as [? []]. reflexivity.
  - destruct (lookup_lt_is_Some_2 (m_renderFinishedSemaphores (renderer w)) i)
      as [s1 Hs1]; [lia|].
    destruct (lookup_lt_is_Some_2 (m_imageAvailableSemaphores (renderer w)) i)
      as [s2 Hs2]; [lia|].
    destruct (lookup_lt_is_Some_2 (m_inFlightFences (renderer w)) i)
      as [f Hf]; [lia|].
    rewrite (drop_S _ _ _ Hs1), (drop_S _ _ _ Hs2), (drop_S _ _ _ Hf).
    cbn [cleanup_syncObjects take destroySyncObjects].
    erewrite bind_run by reflexivity.
    erewrite bind_run
      by (apply at_index_Some; [lia|rewrite Nat2Z.id; exact Hs1]).
    erewrite bind_run by reflexivity.
    erewrite bind_run
      by (apply at_index_Some; [lia|rewrite Nat2Z.id; exact Hs2]).
    erewrite bind_run by reflexivity.
    erewrite bind_run
      by (apply at_index_Some; [lia|rewrite Nat2Z.id; exact Hf]).
    erewrite bind_run by reflexivity.
    replace (Z.of_nat i + 1) with (Z.of_nat (S i)) by lia.
    match goal with
    | |- cleanup_syncObjects count _ ?w1 = _ => set (W1 := w1)
    end.
    rewrite (IH (S i) W1); subst W1; cbn; try lia.
    f_equal. unfold fenced, logged, forget. cbn.
    rewrite <- !app_assoc. reflexivity.
Qed.

Lemma callsOnDestroyedDevice_before (before rest : list Call) :
  Forall (λ c, ∀ device, c ≠ DestroyDevice device) before →
  callsOnDestroyedDevice [] (before ++ rest) = callsOnDestroyedDevice [] rest.
Proof.
  induction 1 as [|c before Hc _ IH]; [reflexivity|].
  simpl. rewrite <- IH.
  destruct c; simpl; try reflexivity.
  exfalso. eapply Hc. reflexivity.
Qed.

Lemma destroySyncObjects_no_device (device : Z) (renderFinished : list Z) :
  ∀ imageAvailable fences,
    Forall (λ c, ∀ device', c ≠ DestroyDevice device')
      (destroySyncObjects device renderFinished imageAvailable fences).
Proof.
  induction renderFinished as [|s1 rest IH]; intros [|s2 ia] [|f fs];
    simpl; try constructor; try discriminate.
  constructor; [discriminate|]. constructor; [discriminate|]. apply IH.
Qed.

(** [cleanup] on an initialized renderer whose synchronization vectors have
    an entry for every command buffer. *)
Lemma cleanup_run (validation : bool) (w : World) :
  let r := renderer w in
  let d := m_device r in
  let n := length (m_commandBuffers r) in
  m_initialized r = true →
  (n <= length (m_renderFinishedSemaphores r))%nat →
  (n <= length (m_imageAvailableSemaphores r))%nat →
  (n <= length (m_inFlightFences r))%nat →
  cleanup validation w
  = Returned tt
      (rendered (with_initialized false)
         (fenced (λ status, forget (take n (m_inFlightFences r)) (drain <$> status))
            (logged
               ([DeviceWaitIdle d]
                ++ (DestroyFramebuffer d <$> m_swapChainFramebuffers r)
                ++ (DestroyImageView d <$> m_swapChainImageViews r)
                ++ [DestroySwapchainKHR d (m_swapChain r);
                    DestroyPipeline d (m_graphicsPipeline r);
                    DestroyPipelineLayout d (m_pipelineLayout r);
                    DestroyRenderPass d (m_renderPass r)]
                ++ destroySyncObjects d
                     (take n (m_renderFinishedSemaphores r))
                     (take n (m_imageAvailableSemaphores r))
                     (take n (m_inFlightFences r))
                ++ [DestroyCommandPool d (m_commandPool r); DestroyDevice d]
                ++ (if validation
                    then [DestroyDebugUtilsMessengerEXT (m_instance r)
                            (m_debugMessenger r)]
                    else [])
                ++ [DestroySurfaceKHR (m_instance r) (m_surface r);
                    DestroyInstance (m_instance r)])
               w))).
Proof.
  cbv zeta. intros Hinit H1 H2 H3. unfold cleanup.
  erewrite bind_run by reflexivity.
  erewrite bind_run by reflexivity.
  rewrite Hinit.
  erewrite bind_run by apply cleanupSwapChain_run. tidy_world.
  erewrite bind_run by reflexivity. tidy_world.
  erewrite bind_run by reflexivity. tidy_world.
  erewrite bind_run by reflexivity. tidy_world.
  erewrite bind_run
    by (apply (cleanup_syncObjects_run _ 0%nat); cbn [renderer]; assumption).
  tidy_world.
  erewrite bind_run by reflexivity. tidy_world.
  erewrite bind_run by reflexivity. tidy_world.
  destruct validation.
  - erewrite bind_run by reflexivity. tidy_world.
    erewrite bind_run by reflexivity. tidy_world.
    erewrite bind_run by reflexivity. tidy_world.
    unfold assign. f_equal. unfold rendered, fenced, logged. tidy_world.
    rewrite !drop_0, <- !app_assoc. reflexivity.
  - erewrite bind_run by reflexivity. tidy_world.
    erewrite bind_run by reflexivity. tidy_world.
    erewrite bind_run by reflexivity. tidy_world.
    unfold assign. f_equal. unfold rendered, fenced, logged. tidy_world.
    rewrite !drop_0, <- !app_assoc. reflexivity.
Qed.

(** In the calls of [cleanup] nothing follows [vkDestroyDevice] but calls on
    the instance. *)
Lemma shutdownCalls_in_order (validation : bool) (r : VulkanRenderer) :
  callsOnDestroyedDevice [] (shutdownCalls validation r) = [].
Proof.
  unfold shutdownCalls. cbv zeta.
  set (d := m_device r).
  set (before :=
         [DeviceWaitIdle d]
         ++ (DestroyFramebuffer d <$> m_swapChainFramebuffers r)
         ++ (DestroyImageView d <$> m_swapChainImageViews r)
         ++ [DestroySwapchainKHR d (m_swapChain r);
             DestroyPipeline d (m_graphicsPipeline r);
             DestroyPipelineLayout d (m_pipelineLayout r);
             DestroyRenderPass d (m_renderPass r)]
         ++ destroySyncObjects d (m_renderFinishedSemaphores r)
              (m_imageAvailableSemaphores r) (m_inFlightFences r)
         ++ [DestroyCommandPool d (m_commandPool r)]).
  set (after :=
         (if validation
          then [DestroyDebugUtilsMessengerEXT (m_instance r) (m_debugMessenger r)]
          else [])
         ++ [DestroySurfaceKHR (m_instance r) (m_surface r);
             DestroyInstance (m_instance r)]).
  match goal with
  | |- callsOnDestroyedDevice [] ?l = [] =>
      replace l with (before ++ DestroyDevice d :: after)
        by (subst before after; rewrite <- !app_assoc; reflexivity)
  end.
  rewrite callsOnDestroyedDevice_before.
  - subst after. destruct validation; reflexivity.
  - subst before. rewrite !Forall_app.
    repeat split;
      try (apply Forall_fmap, Forall_true; intros x device; discriminate);
      try apply destroySyncObjects_no_device;
      repeat constructor; discriminate.
Qed.

(** X15.  [cleanup] on an initialized renderer with one semaphore pair and
    one fence per command buffer returns after this sequence of calls: the
    idle wait, the framebuffers, the image views, the swap chain, the
    pipeline, its layout, the render pass, per slot the two semaphores and
    the fence, the command pool, the device, then on the instance the debug
    messenger (validation builds only), the surface and the instance itself.
    No call is made on the device after [vkDestroyDevice]; the driver knows
    none of the fences any more; the only member assigned is
    [m_initialized], so every handle member keeps its value. *)
Theorem cleanup_shutdown_sequence (validation : bool) (w : World) :
  let r := renderer w in
  let d := m_device r in
  let n := length (m_commandBuffers r) in
  m_initialized r = true →
  length (m_renderFinishedSemaphores r) = n →
  length (m_imageAvailableSemaphores r) = n →
  length (m_inFlightFences r) = n →
  ∃ w',
    cleanup validation w = Returned tt w'
    ∧ newCalls w w'
      = [DeviceWaitIdle d]
        ++ (DestroyFramebuffer d <$> m_swapChainFramebuffers r)
        ++ (DestroyImageView d <$> m_swapChainImageViews r)
        ++ [DestroySwapchainKHR d (m_swapChain r);
            DestroyPipeline d (m_graphicsPipeline r);
            DestroyPipelineLayout d (m_pipelineLayout r);
            DestroyRenderPass d (m_renderPass r)]
        ++ destroySyncObjects d (m_renderFinishedSemaphores r)
             (m_imageAvailableSemaphores r) (m_inFlightFences r)
        ++ [DestroyCommandPool d (m_commandPool r); DestroyDevice d]
        ++ (if validation
            then [DestroyDebugUtilsMessengerEXT (m_instance r) (m_debugMessenger r)]
            else [])
        ++ [DestroySurfaceKHR (m_instance r) (m_surface r);
            DestroyInstance (m_instance r)]
    ∧ callsOnDestroyedDevice [] (newCalls w w') = []
    ∧ renderer w' = with_initialized false r
    ∧ (∀ fence, fence ∈ m_inFlightFences r →
         fenceStatus (driver w') !! fence = None).
Proof.
  cbv zeta. intros Hinit H1 H2 H3.
  eexists. split; [apply cleanup_run; (assumption || lia)|].
  rewrite !take_ge by lia.
  assert (Hcalls : ∀ l f g, newCalls w (rendered f (fenced g (logged l w))) = l).
  { intros l f g. apply newCalls_logged. reflexivity. }
  rewrite !Hcalls.
  split; [reflexivity|]. split; [|split; [reflexivity|]].
  - apply (shutdownCalls_in_order validation (renderer w)).
  - intros fence Hin. tidy_world. apply forget_lookup. exact Hin.
Qed.

Lemma cleanup_shutdown_sequence_witness :
  ∃ w',
    cleanup true sampleWorld = Returned tt w'
    ∧ callsOnDestroyedDevice [] (newCalls sampleWorld w') = []
    ∧ m_initialized (renderer w') = false.
Proof.
  destruct (cleanup_shutdown_sequence true sampleWorld)
    as (w' & Hrun & _ & Hnone & Hr & _); try reflexivity.
  exists w'. split; [exact Hrun|]. split; [exact Hnone|].
  rewrite Hr. reflexivity.
Defined.

(** ** A recreation the driver refuses *)

Lemma recreateSwapChain_refused (env : SwapChainEnv) (w : World) :
  let r := renderer w in
  let d := m_device r in
  formats (swapChainSupport env) ≠ [] →
  isComplete (findQueueFamilies (physicalDevice env) (m_surface r)) = true →
  fst (createSwapchainResult env) ≠ VK_SUCCESS →
  ∃ createInfo,
    recreateSwapChain env w
    = Stopped (Thrown CreateSwapChainFailed)
        (rendered (with_swapChain (snd (createSwapchainResult env)))
           (fenced (fmap drain)
              (logged
                 ([DeviceWaitIdle d]
                  ++ (DestroyFramebuffer d <$> m_swapChainFramebuffers r)
                  ++ (DestroyImageView d <$> m_swapChainImageViews r)
                  ++ [DestroySwapchainKHR d (m_swapChain r);
                      CreateSwapchainKHR d createInfo])
                 w))).
Proof.
  cbv zeta. intros Hfmt Hfam Hres. unfold recreateSwapChain.
  erewrite bind_run by reflexivity.
  erewrite bind_run by reflexivity.
  erewrite bind_run by apply cleanupSwapChain_run.
  tidy_world.
  match goal with
  | |- ∃ _, (createSwapChain env ≫= _) ?w2 = _ =>
      pose proof (createSwapChain_outcomes env w2) as Hout;
      destruct (createSwapChain env w2) as [[] w3|fault w3] eqn:Hrun
  end; cbv zeta in Hout.
  - destruct Hout as (_ & _ & Hok & _). congruence.
  - destruct Hout
      as (_ & _ & _ & _ & [(_ & Hnil & _)|[(_ & _ & Hinc & _)|Hthrown]]).
    + congruence.
    + cbn in Hinc. congruence.
    + destruct Hthrown as (-> & _ & _ & _ & createInfo & ->).
      exists createInfo.
      erewrite bind_stop by exact Hrun.
      f_equal. unfold rendered, fenced, logged. cbn.
      rewrite <- !app_assoc. reflexivity.
Qed.

(** X16.  When the driver refuses the new swap chain, [recreateSwapChain]
    throws after the old framebuffers, image views and swap chain have been
    destroyed.  [m_swapChainImageViews] and [m_swapChainFramebuffers] are not
    assigned and still hold the destroyed handles; [m_swapChain], whose
    address the refused call was given, holds whatever the driver left
    there.  A [cleanup] of that renderer passes every one of these
    framebuffers and image views to its destruction call a second time, and
    passes the value left in [m_swapChain] to [vkDestroySwapchainKHR]: the
    destroyed swap chain again, if the driver wrote nothing. *)
Theorem recreateSwapChain_refused_keeps_destroyed_handles
    (env : SwapChainEnv) (w : World) :
  let r := renderer w in
  let d := m_device r in
  let left := snd (createSwapchainResult env) in
  formats (swapChainSupport env) ≠ [] →
  isComplete (findQueueFamilies (physicalDevice env) (m_surface r)) = true →
  fst (createSwapchainResult env) ≠ VK_SUCCESS →
  ∃ createInfo w',
    recreateSwapChain env w = Stopped (Thrown CreateSwapChainFailed) w'
    ∧ renderer w' = with_swapChain left r
    ∧ m_swapChainImageViews (renderer w') = m_swapChainImageViews r
    ∧ m_swapChainFramebuffers (renderer w') = m_swapChainFramebuffers r
    ∧ newCalls w w'
      = [DeviceWaitIdle d]
        ++ (DestroyFramebuffer d <$> m_swapChainFramebuffers r)
        ++ (DestroyImageView d <$> m_swapChainImageViews r)
        ++ [DestroySwapchainKHR d (m_swapChain r);
            CreateSwapchainKHR d createInfo]
    ∧ (∀ validation,
         let n := length (m_commandBuffers r) in
         m_initialized r = true →
         length (m_renderFinishedSemaphores r) = n →
         length (m_imageAvailableSemaphores r) = n →
         length (m_inFlightFences r) = n →
         ∃ w'',
           cleanup validation w' = Returned tt w''
           ∧ (∀ framebuffer, framebuffer ∈ m_swapChainFramebuffers r →
                DestroyFramebuffer d framebuffer ∈ newCalls w w'
                ∧ DestroyFramebuffer d framebuffer ∈ newCalls w' w'')
           ∧ (∀ imageView, imageView ∈ m_swapChainImageViews r →
                DestroyImageView d imageView ∈ newCalls w w'
                ∧ DestroyImageView d imageView ∈ newCalls w' w'')
           ∧ DestroySwapchainKHR d left ∈ newCalls w' w''
           ∧ (left = m_swapChain r →
              DestroySwapchainKHR d (m_swapChain r) ∈ newCalls w w'
              ∧ DestroySwapchainKHR d (m_swapChain r) ∈ newCalls w' w'')).
Proof.
  cbv zeta. intros Hfmt Hfam Hres.
  destruct (recreateSwapChain_refused env w Hfmt Hfam Hres) as [createInfo Hrun].
  exists createInfo. eexists. split; [exact Hrun|].
  split; [reflexivity|]. split; [reflexivity|]. split; [reflexivity|].
  assert (Hfirst : ∀ l f g, newCalls w (rendered f (fenced g (logged l w))) = l).
  { intros l f g. apply newCalls_logged. reflexivity. }
  rewrite Hfirst.
  split; [reflexivity|].
  intros validation Hinit H1 H2 H3.
  eexists. split; [apply cleanup_run; cbn; (assumption || lia)|].
  erewrite (newCalls_logged _ (rendered _ (fenced _ (logged _ w))))
    by (tidy_world; reflexivity).
  cbn [renderer rendered fenced logged with_swapChain with_swapChainMembers
       m_device m_swapChainFramebuffers m_swapChainImageViews m_swapChain].
  split; [|split; [|split]].
  - intros framebuffer Hin.
    split; rewrite !elem_of_app; right; left;
      apply list_elem_of_fmap_2; exact Hin.
  - intros imageView Hin.
    split; rewrite !elem_of_app; right; right; left;
      apply list_elem_of_fmap_2; exact Hin.
  - rewrite !elem_of_app. right. right. right. left.
    apply elem_of_cons. left. reflexivity.
  - intros Hleft. split.
    + rewrite !elem_of_app. right. right. right.
      apply elem_of_cons. left. reflexivity.
    + rewrite !elem_of_app. right. right. right. left.
      apply elem_of_cons. left. rewrite Hleft. reflexivity.
Qed.

Lemma recreateSwapChain_refused_keeps_destroyed_handles_witness :
  ∃ w' w'',
    recreateSwapChain refusesSwapChain sampleWorld
    = Stopped (Thrown CreateSwapChainFailed) w'
    ∧ m_swapChainFramebuffers (renderer w') = [31; 32]
    ∧ cleanup true w' = Returned tt w''
    ∧ DestroyFramebuffer 5 31 ∈ newCalls sampleWorld w'
    ∧ DestroyFramebuffer 5 31 ∈ newCalls w' w''.
Proof.
  destruct (recreateSwapChain_refused_keeps_destroyed_handles refusesSwapChain
              sampleWorld)
    as (createInfo & w' & Hrun & _ & _ & Hfbs & _ & Hcleanup).
  - discriminate.
  - vm_compute. reflexivity.
  - discriminate.
  - destruct (Hcleanup true eq_refl eq_refl eq_refl eq_refl)
      as (w'' & Hclean & Hfb & _).
    exists w', w''. split; [exact Hrun|]. split; [exact Hfbs|].
    split; [exact Hclean|].
    apply (Hfb 31). simpl. apply elem_of_cons. left. reflexivity.
Defined.

(** ** The end of the initialization *)

Lemma createSyncObjects_loop_returns (env : SyncEnv) :
  accepting env →
  ∀ (count i : nat) (w : World),
    ∃ w', createSyncObjects_loop env count i w = Returned tt w'.
Proof.
  intros [_ Hia Hrf Hf]. induction count as [|count IH]; intros i w.
  - eexists. reflexivity.
  - cbn [createSyncObjects_loop].
    erewrite bind_run by reflexivity.
    erewrite bind_run by reflexivity.
    rewrite Hia. change (negb (VK_SUCCESS =? VK_SUCCESS)) with false. cbv iota.
    erewrite bind_run by reflexivity.
    erewrite bind_run by reflexivity.
    rewrite Hrf. change (negb (VK_SUCCESS =? VK_SUCCESS)) with false. cbv iota.
    erewrite bind_run by reflexivity.
    erewrite bind_run by reflexivity.
    rewrite Hf. change (negb (VK_SUCCESS =? VK_SUCCESS)) with false. cbv iota.
    erewrite bind_run by reflexivity.
    erewrite bind_run by reflexivity.
    apply IH.
Qed.

Lemma createCommandBuffers_Returned (env : SyncEnv) (w w' : World) :
  createCommandBuffers env w = Returned tt w' →
  allocateCommandBuffersResult env = VK_SUCCESS
  ∧ w' = rendered
           (with_commandBuffers
              (allocatedCommandBuffer env
                 <$> seq 0 (length (m_swapChainFramebuffers (renderer w)))))
           (logged
              [AllocateCommandBuffers (m_device (renderer w))
                 (m_commandPool (renderer w))
                 (wrap32 (Z.of_nat (length (m_swapChainFramebuffers (renderer w)))))]
              w).
Proof.
  intros Hrun. unfold createCommandBuffers in Hrun.
  erewrite bind_run in Hrun by reflexivity. cbv zeta in Hrun.
  erewrite bind_run in Hrun by reflexivity.
  erewrite bind_run in Hrun by reflexivity.
  destruct (allocateCommandBuffersResult env =? VK_SUCCESS) eqn:E; [|discriminate].
  apply Z.eqb_eq in E. split; [exact E|].
  injection Hrun as <-. unfold rendered, logged. cbn.
  destruct w as [[] ?]. reflexivity.
Qed.

Lemma createCommandBuffers_run (env : SyncEnv) (w : World) :
  allocateCommandBuffersResult env = VK_SUCCESS →
  ∃ w', createCommandBuffers env w = Returned tt w'.
Proof.
  intros E. unfold createCommandBuffers.
  erewrite bind_run by reflexivity. cbv zeta.
  erewrite bind_run by reflexivity.
  erewrite bind_run by reflexivity.
  rewrite E. change (negb (VK_SUCCESS =? VK_SUCCESS)) with false. cbv iota.
  eexists. reflexivity.
Qed.

Lemma createSyncObjects_signaled (env : SyncEnv) (w w' : World) :
  createSyncObjects env w = Returned tt w' →
  m_commandBuffers (renderer w') = m_commandBuffers (renderer w)
  ∧ ∀ fence, fence ∈ m_inFlightFences (renderer w') →
      fenceStatus (driver w') !! fence = Some Signaled.
Proof.
  intros Hrun. unfold createSyncObjects in Hrun.
  erewrite bind_run in Hrun by reflexivity.
  erewrite bind_run in Hrun by reflexivity.
  cbv zeta in Hrun.
  apply createSyncObjects_loop_inv in Hrun as (Hcb & _ & _ & _ & _ & Hall).
  - split; [exact Hcb|exact Hall].
  - simpl. apply length_resize.
  - intros j fence Hj. lia.
Qed.

(** X17.  The last two steps of [initVulkan].  Started in slot 0 with at
    least one framebuffer, [createCommandBuffers] followed by
    [createSyncObjects] leaves, whenever both return, a state of the frame
    loop: one command buffer per framebuffer, one semaphore pair and one
    fence per command buffer, and every fence signaled, so that the wait of
    the first frame in each slot comes back.  With a driver that accepts
    the allocation and every creation, both do return. *)
Theorem initVulkan_ends_in_frame_loop_state (env : SyncEnv) (w : World) :
  let n := length (m_swapChainFramebuffers (renderer w)) in
  m_currentFrame (renderer w) = 0 →
  (0 < n)%nat →
  Z.of_nat n <= UINT32_MAX →
  (∀ w', (createCommandBuffers env;; createSyncObjects env) w = Returned tt w' →
     frame_inv w'
     ∧ m_commandBuffers (renderer w') = allocatedCommandBuffer env <$> seq 0 n
     ∧ ∀ fence, fence ∈ m_inFlightFences (renderer w') →
         fenceStatus (driver w') !! fence = Some Signaled)
  ∧ (accepting env →
     ∃ w', (createCommandBuffers env;; createSyncObjects env) w = Returned tt w').
Proof.
  cbv zeta. intros Hslot Hn Hu. split.
  - intros w' Hrun.
    apply bind_Returned_inv in Hrun as ([] & w1 & Hcb & Hsync).
    pose proof (createCommandBuffers_length env w w1 Hcb) as [Hlen Hcf].
    apply createCommandBuffers_Returned in Hcb as [_ Hw1].
    split.
    + apply (createSyncObjects_frame_inv env w1 w' Hsync); rewrite ?Hlen; lia.
    + apply createSyncObjects_signaled in Hsync as [Hsame Hall].
      split; [|exact Hall].
      rewrite Hsame, Hw1; reflexivity.
  - intros Hacc.
    destruct (createCommandBuffers_run env w (accepts_commandBuffers env Hacc))
      as [w1 Hcb].
    erewrite bind_run by exact Hcb.
    unfold createSyncObjects.
    erewrite bind_run by reflexivity.
    erewrite bind_run by reflexivity.
    apply createSyncObjects_loop_returns, Hacc.
Qed.

Lemma initVulkan_ends_in_frame_loop_state_witness :
  ∃ w',
    (createCommandBuffers sampleSyncEnv;; createSyncObjects sampleSyncEnv) sampleWorld
    = Returned tt w'
    ∧ frame_inv w'
    ∧ m_commandBuffers (renderer w') = [51; 52].
Proof.
  destruct (initVulkan_ends_in_frame_loop_state sampleSyncEnv sampleWorld)
    as [Hinv Hreturns].
  - reflexivity.
  - simpl. lia.
  - simpl. unfold UINT32_MAX. lia.
  - destruct Hreturns as [w' Hrun].
    + split; intros; reflexivity.
    + exists w'. split; [exact Hrun|].
      destruct (Hinv w' Hrun) as (Hframe & Hcb & _).
      split; [exact Hframe|exact Hcb].
Defined.

(** ** One frame, step by step *)

(** [drawFrame] from the reset of the fence on, with the four vector reads
    in range: where it throws, and the world in which it looks at the result
    of the presentation. *)
Lemma drawFrame_present_run (env : FrameEnv) (w : World)
    (fence commandBuffer imageAvailable renderFinished framebuffer : Z) :
  let r := renderer w in
  let d := m_device r in
  let reset := [ResetFences d fence; ResetCommandBuffer commandBuffer] in
  let recorded := recordedCommands r commandBuffer framebuffer in
  let submit :=
    QueueSubmit (m_graphicsQueue r) imageAvailable commandBuffer renderFinished
      fence in
  let present :=
    QueuePresentKHR (m_presentQueue r) renderFinished (m_swapChain r)
      (acquireImageIndex env) in
  m_inFlightFences r !! Z.to_nat (m_currentFrame r) = Some fence →
  m_commandBuffers r !! Z.to_nat (m_currentFrame r) = Some commandBuffer →
  m_imageAvailableSemaphores r !! Z.to_nat (m_currentFrame r) = Some imageAvailable →
  m_renderFinishedSemaphores r !! Z.to_nat (m_currentFrame r) = Some renderFinished →
  0 <= m_currentFrame r →
  0 <= acquireImageIndex env →
  m_swapChainFramebuffers r !! Z.to_nat (acquireImageIndex env) = Some framebuffer →
  drawFrame_present env w
  = if negb (beginResult env =? VK_SUCCESS)
    then Stopped (Thrown BeginCommandBufferFailed)
           (fenced (insert fence Unsignaled)
              (logged (reset ++ [BeginCommandBuffer commandBuffer]) w))
    else if negb (endResult env =? VK_SUCCESS)
    then Stopped (Thrown EndCommandBufferFailed)
           (fenced (insert fence Unsignaled) (logged (reset ++ recorded) w))
    else if negb (submitResult env =? VK_SUCCESS)
    then Stopped (Thrown SubmitFailed)
           (fenced (insert fence Unsignaled)
              (logged (reset ++ recorded ++ [submit]) w))
    else (if mustRecreate env r
          then assign (setFramebufferResized false);;
               recreateSwapChain (recreateEnv env)
          else if negb (presentResult env =? VK_SUCCESS) then throw PresentFailed
          else mret tt)
           (fenced (λ status, <[fence := Pending]> (<[fence := Unsignaled]> status))
              (logged (reset ++ recorded ++ [submit; present]) w)).
Proof.
  cbv zeta. intros Hf Hcb Hi Hr H0 Hidx Hfb. unfold drawFrame_present.
  erewrite bind_run by reflexivity.
  erewrite bind_run by (apply at_index_Some; [exact H0|exact Hf]).
  erewrite bind_run by reflexivity. tidy_world.
  erewrite bind_run by (apply at_index_Some; [exact H0|exact Hcb]).
  erewrite bind_run by reflexivity. tidy_world.
  match goal with
  | |- (recordCommandBuffer env _ _ ≫= _) ?w1 = _ =>
      pose proof (recordCommandBuffer_run env commandBuffer (acquireImageIndex env)
                    w1 framebuffer Hidx Hfb) as Hrec
  end.
  tidy_world_in Hrec.
  destruct (negb (beginResult env =? VK_SUCCESS)).
  { erewrite bind_stop by exact Hrec.
    f_equal. unfold fenced, logged. tidy_world. rewrite <- !app_assoc. reflexivity. }
  destruct (negb (endResult env =? VK_SUCCESS)).
  { erewrite bind_stop by exact Hrec.
    f_equal. unfold fenced, logged. tidy_world. rewrite <- !app_assoc. reflexivity. }
  erewrite bind_run by exact Hrec. tidy_world.
  erewrite bind_run by (apply at_index_Some; [exact H0|exact Hi]).
  erewrite bind_run by (apply at_index_Some; [exact H0|exact Hr]).
  match goal with
  | |- (vkQueueSubmit env ?q ?s ?c ?s' ?f ≫= _) ?w1 = _ =>
      pose proof (vkQueueSubmit_run env q s c s' f w1) as Hsub
  end.
  destruct (submitResult env =? VK_SUCCESS); cbn [negb].
  - erewrite bind_run by exact Hsub. tidy_world.
    erewrite bind_run by reflexivity. tidy_world.
    unfold mustRecreate.
    match goal with
    | |- ?m ?w1 = ?m' ?w2 => replace w1 with w2; [reflexivity|]
    end.
    unfold fenced, logged. tidy_world. rewrite <- !app_assoc. reflexivity.
  - erewrite bind_stop by exact Hsub.
    f_equal. unfold fenced, logged. tidy_world. rewrite <- !app_assoc. reflexivity.
Qed.

(** The world of an acquisition in a state of the frame loop. *)
Lemma drawFrame_acquired (env : FrameEnv) (w : World) :
  frame_inv w →
  ∃ fence commandBuffer imageAvailable renderFinished,
    let r := renderer w in
    let acquired :=
      logged [AcquireNextImageKHR (m_device r) (m_swapChain r) imageAvailable]
        (fenced (insert fence Signaled)
           (logged [WaitForFences (m_device r) fence] w)) in
    m_inFlightFences r !! Z.to_nat (m_currentFrame r) = Some fence
    ∧ m_commandBuffers r !! Z.to_nat (m_currentFrame r) = Some commandBuffer
    ∧ m_imageAvailableSemaphores r !! Z.to_nat (m_currentFrame r)
      = Some imageAvailable
    ∧ m_renderFinishedSemaphores r !! Z.to_nat (m_currentFrame r)
      = Some renderFinished
    ∧ frame_inv acquired
    ∧ drawFrame env w
      = (if acquireResult env =? VK_ERROR_OUT_OF_DATE_KHR
         then recreateSwapChain (recreateEnv env)
         else if negb (acquireResult env =? VK_SUCCESS)
                 && negb (acquireResult env =? VK_SUBOPTIMAL_KHR)
         then throw AcquireFailed
         else drawFrame_render env) acquired.
Proof.
  intros Hinv.
  destruct (frame_inv_lookups w Hinv)
    as (fence & commandBuffer & imageAvailable & renderFinished
          & Hf & Hcb & Hi & Hr & Hs).
  pose proof (inv_currentFrame w Hinv) as Hrange.
  exists fence, commandBuffer, imageAvailable, renderFinished. cbv zeta.
  split; [exact Hf|]. split; [exact Hcb|]. split; [exact Hi|]. split; [exact Hr|].
  split; [apply frame_inv_acquired, Hinv|].
  apply drawFrame_acquire; [exact Hf|exact Hi|lia|exact Hs].
Qed.

(** X18.  A frame in which nothing is stale and the driver accepts
    everything.  [drawFrame] returns after fourteen calls: the wait for the
    fence of the slot, the acquisition that signals the slot's
    image-available semaphore, the two resets, the eight recorded commands
    (render pass on the framebuffer of the acquired image, pipeline,
    letterboxed viewport, scissor of the full extent, a draw of three
    vertices), the submission that waits for image-available and signals
    render-finished and the fence, and the presentation that waits for
    render-finished.  The fence is left in flight and the slot advances by
    one; an acquisition answered with [VK_SUBOPTIMAL_KHR] is treated alike. *)
Theorem drawFrame_presents_one_frame (env : FrameEnv) (w : World)
    (framebuffer : Z) :
  let r := renderer w in
  let d := m_device r in
  frame_inv w →
  acquireResult env = VK_SUCCESS ∨ acquireResult env = VK_SUBOPTIMAL_KHR →
  beginResult env = VK_SUCCESS →
  endResult env = VK_SUCCESS →
  submitResult env = VK_SUCCESS →
  presentResult env = VK_SUCCESS →
  m_framebufferResized r = false →
  0 <= acquireImageIndex env →
  m_swapChainFramebuffers r !! Z.to_nat (acquireImageIndex env) = Some framebuffer →
  ∃ fence commandBuffer imageAvailable renderFinished w',
    m_inFlightFences r !! Z.to_nat (m_currentFrame r) = Some fence
    ∧ m_commandBuffers r !! Z.to_nat (m_currentFrame r) = Some commandBuffer
    ∧ m_imageAvailableSemaphores r !! Z.to_nat (m_currentFrame r)
      = Some imageAvailable
    ∧ m_renderFinishedSemaphores r !! Z.to_nat (m_currentFrame r)
      = Some renderFinished
    ∧ drawFrame env w = Returned tt w'
    ∧ newCalls w w'
      = [WaitForFences d fence;
         AcquireNextImageKHR d (m_swapChain r) imageAvailable;
         ResetFences d fence;
         ResetCommandBuffer commandBuffer]
        ++ recordedCommands r commandBuffer framebuffer
        ++ [QueueSubmit (m_graphicsQueue r) imageAvailable commandBuffer
              renderFinished fence;
            QueuePresentKHR (m_presentQueue r) renderFinished (m_swapChain r)
              (acquireImageIndex env)]
    ∧ fenceStatus (driver w') = <[fence := Pending]> (fenceStatus (driver w))
    ∧ renderer w'
      = with_currentFrame
          ((m_currentFrame r + 1) mod Z.of_nat (length (m_commandBuffers r))) r.
Proof.
  cbv zeta. intros Hinv Hacq Hbegin Hend Hsubmit Hpresent Hflag Hidx Hfb.
  destruct (drawFrame_acquired env w Hinv)
    as (fence & commandBuffer & imageAvailable & renderFinished
          & Hf & Hcb & Hi & Hr & _ & Hrun).
  pose proof (inv_currentFrame w Hinv) as Hrange.
  exists fence, commandBuffer, imageAvailable, renderFinished.
  assert (Hstale : (acquireResult env =? VK_ERROR_OUT_OF_DATE_KHR) = false)
    by (destruct Hacq as [->| ->]; reflexivity).
  assert (Hok : negb (acquireResult env =? VK_SUCCESS)
                && negb (acquireResult env =? VK_SUBOPTIMAL_KHR) = false)
    by (destruct Hacq as [->| ->]; reflexivity).
  rewrite Hstale, Hok in Hrun.
  unfold drawFrame_render in Hrun.
  erewrite bind_run in Hrun.
  2:{ erewrite (drawFrame_present_run env _ fence commandBuffer imageAvailable
                  renderFinished framebuffer)
        by (tidy_world; (assumption || lia)).
      rewrite Hbegin, Hend, Hsubmit.
      change (negb (VK_SUCCESS =? VK_SUCCESS)) with false. cbv iota.
      unfold mustRecreate. tidy_world.
      rewrite Hpresent, Hflag. reflexivity. }
  rewrite advanceFrame_run in Hrun
    by (tidy_world; apply (inv_slots w Hinv)).
  tidy_world_in Hrun.
  rewrite advance_in_range in Hrun
    by (first [exact Hrange|apply (inv_slots_uint32 w Hinv)]).
  eexists. split; [exact Hf|]. split; [exact Hcb|]. split; [exact Hi|].
  split; [exact Hr|]. split; [exact Hrun|].
  split; [apply newCalls_logged; unfold rendered; tidy_world;
          rewrite <- !app_assoc; reflexivity|].
  split; [|reflexivity].
  unfold rendered. tidy_world. rewrite !insert_insert_eq. reflexivity.
Qed.

Lemma drawFrame_presents_one_frame_witness :
  ∃ w',
    drawFrame frameOk sampleWorld = Returned tt w'
    ∧ newCalls sampleWorld w'
      = [WaitForFences 5 81; AcquireNextImageKHR 5 10 61; ResetFences 5 81;
         ResetCommandBuffer 51]
        ++ recordedCommands sampleRenderer 51 31
        ++ [QueueSubmit 6 61 51 71 81; QueuePresentKHR 7 71 10 0]
    ∧ m_currentFrame (renderer w') = 1.
Proof.
  destruct (drawFrame_presents_one_frame frameOk sampleWorld 31)
    as (fence & commandBuffer & imageAvailable & renderFinished & w'
          & Hf & Hcb & Hi & Hr & Hrun & Hcalls & _ & Hrenderer);
    try reflexivity.
  - apply frame_inv_sampleWorld.
  - left. reflexivity.
  - exists w'. split; [exact Hrun|].
    injection Hf as <-. injection Hcb as <-. injection Hi as <-.
    injection Hr as <-.
    split; [exact Hcalls|]. rewrite Hrenderer. reflexivity.
Defined.

(** ** What a frame never does *)

Lemma orderly_bind {A B : Type} (m : M A) (k : A -> M B) (w : World) :
  orderly (m w) →
  (∀ a w1, m w = Returned a w1 → orderly (k a w1)) →
  orderly ((m ≫= k) w).
Proof.
  intros Hm Hk. unfold mbind, M_bind.
  destruct (m w) as [a w1|fault w1]; [apply Hk; reflexivity|exact Hm].
Qed.

Lemma orderly_createImageViews_loop (env : SwapChainEnv) (images : list Z) :
  ∀ (i : nat) (w : World), orderly (createImageViews_loop env images i w).
Proof.
  induction images as [|image rest IH]; intros i w; [exact I|].
  cbn [createImageViews_loop].
  erewrite bind_run by reflexivity.
  erewrite bind_run by reflexivity.
  destruct (negb (fst (createImageViewResult env i) =? VK_SUCCESS)); [exact I|].
  erewrite bind_run by reflexivity.
  apply IH.
Qed.

Lemma orderly_createFramebuffers_loop (env : SwapChainEnv) (views : list Z) :
  ∀ (i : nat) (w : World), orderly (createFramebuffers_loop env views i w).
Proof.
  induction views as [|view rest IH]; intros i w; [exact I|].
  cbn [createFramebuffers_loop].
  erewrite bind_run by reflexivity.
  erewrite bind_run by reflexivity.
  destruct (negb (fst (createFramebufferResult env i) =? VK_SUCCESS)); [exact I|].
  erewrite bind_run by reflexivity.
  apply IH.
Qed.

Lemma orderly_recreateSwapChain (env : SwapChainEnv) (w : World) :
  formats (swapChainSupport env) ≠ [] →
  orderly (recreateSwapChain env w).
Proof.
  intros Hfmt. unfold recreateSwapChain.
  erewrite bind_run by reflexivity.
  erewrite bind_run by reflexivity.
  erewrite bind_run by apply cleanupSwapChain_run.
  apply orderly_bind.
  - match goal with
    | |- orderly (createSwapChain env ?w1) =>
        pose proof (createSwapChain_outcomes env w1) as Hout;
        destruct (createSwapChain env w1) as [[] w2|fault w2]
    end; [exact I|].
    cbv zeta in Hout.
    destruct Hout as (_ & _ & _ & _ & [(_ & Hnil & _)|[(-> & _)|(-> & _)]]);
      [congruence|exact I|exact I].
  - intros _ w2 _. apply orderly_bind.
    + unfold createImageViews.
      erewrite bind_run by reflexivity.
      erewrite bind_run by reflexivity.
      apply orderly_createImageViews_loop.
    + intros _ w3 _. unfold createFramebuffers.
      erewrite bind_run by reflexivity.
      erewrite bind_run by reflexivity.
      erewrite bind_run by reflexivity.
      apply orderly_createFramebuffers_loop.
Qed.

Lemma orderly_drawFrame (env : FrameEnv) (w : World) :
  frame_inv w →
  0 <= acquireImageIndex env
    < Z.of_nat (length (m_swapChainFramebuffers (renderer w))) →
  formats (swapChainSupport (recreateEnv env)) ≠ [] →
  orderly (drawFrame env w).
Proof.
  intros Hinv Hidx Hfmt.
  destruct (drawFrame_acquired env w Hinv)
    as (fence & commandBuffer & imageAvailable & renderFinished
          & Hf & Hcb & Hi & Hr & Hinv1 & ->).
  pose proof (inv_currentFrame w Hinv) as Hrange.
  destruct (lookup_lt_is_Some_2 (m_swapChainFramebuffers (renderer w))
              (Z.to_nat (acquireImageIndex env))) as [framebuffer Hfb]; [lia|].
  destruct (acquireResult env =? VK_ERROR_OUT_OF_DATE_KHR);
    [apply orderly_recreateSwapChain, Hfmt|].
  destruct (negb (acquireResult env =? VK_SUCCESS)
            && negb (acquireResult env =? VK_SUBOPTIMAL_KHR)); [exact I|].
  unfold drawFrame_render.
  match goal with
  | |- orderly ((drawFrame_present env ≫= _) ?acquired) =>
      pose proof (sameSlots_drawFrame_present env acquired) as [_ Hpm];
      pose proof (drawFrame_present_run env acquired fence commandBuffer
                    imageAvailable renderFinished framebuffer
                    Hf Hcb Hi Hr (proj1 Hrange) (proj1 Hidx) Hfb) as Hrun
  end.
  cbv zeta in Hrun.
  apply orderly_bind.
  - rewrite Hrun.
    destruct (negb (beginResult env =? VK_SUCCESS)); [exact I|].
    destruct (negb (endResult env =? VK_SUCCESS)); [exact I|].
    destruct (negb (submitResult env =? VK_SUCCESS)); [exact I|].
    destruct (mustRecreate env _).
    + erewrite bind_run by reflexivity. apply orderly_recreateSwapChain, Hfmt.
    + destruct (negb (presentResult env =? VK_SUCCESS)); exact I.
  - intros [] presented Hp. rewrite Hp in Hpm. cbn [finalWorld] in Hpm.
    rewrite advanceFrame_run; [exact I|].
    pose proof (f_equal pm_commandBuffers Hpm) as Hcbs. cbn in Hcbs.
    rewrite Hcbs. apply (inv_slots w Hinv).
Qed.

(** X19.  In a state of the frame loop, with the acquired image index
    inside the framebuffer vector and a surface that still reports a
    format, [drawFrame] ends by returning or by throwing: no vector is read
    out of range, the remainder is not taken by zero, and the wait is for a
    fence that is signaled or in flight.  When it returns, the state is again
    one of the frame loop. *)
Theorem drawFrame_returns_or_throws (env : FrameEnv) (w : World) :
  frame_inv w →
  0 <= acquireImageIndex env
    < Z.of_nat (length (m_swapChainFramebuffers (renderer w))) →
  formats (swapChainSupport (recreateEnv env)) ≠ [] →
  match drawFrame env w with
  | Returned _ w' => frame_inv w'
  | Stopped fault _ => ∃ e, fault = Thrown e
  end.
Proof.
  intros Hinv Hidx Hfmt.
  pose proof (orderly_drawFrame env w Hinv Hidx Hfmt) as Hord.
  pose proof (drawFrame_step env w Hinv) as Hstep. cbv zeta in Hstep.
  destruct (drawFrame env w) as [[] w'|[e| |] w'].
  - exact (proj1 Hstep).
  - exists e. reflexivity.
  - contradiction.
  - contradiction.
Qed.

Lemma drawFrame_returns_or_throws_witness :
  frame_inv (finalWorld (drawFrame frameOk sampleWorld)).
Proof.
  pose proof (drawFrame_returns_or_throws frameOk sampleWorld
                frame_inv_sampleWorld) as H.
  assert (Hrun : drawFrame frameOk sampleWorld
                 = Returned tt (finalWorld (drawFrame frameOk sampleWorld)))
    by (vm_compute; reflexivity).
  rewrite Hrun in H. rewrite Hrun. apply H.
  - simpl. lia.
  - discriminate.
Defined.

(** ** Exceptions of a frame and the fence of the slot *)

(** X20.  An acquisition answered with an error other than out-of-date
    makes [drawFrame] throw after two calls, the wait and the acquisition.
    Nothing has been reset: the renderer is unchanged, the fence of the slot
    is signaled and the state is still one of the frame loop, so the frame
    can be tried again. *)
Theorem drawFrame_acquire_error_keeps_slot (env : FrameEnv) (w : World) :
  let r := renderer w in
  let d := m_device r in
  frame_inv w →
  acquireResult env ≠ VK_ERROR_OUT_OF_DATE_KHR →
  acquireResult env ≠ VK_SUCCESS →
  acquireResult env ≠ VK_SUBOPTIMAL_KHR →
  ∃ fence imageAvailable w',
    m_inFlightFences r !! Z.to_nat (m_currentFrame r) = Some fence
    ∧ m_imageAvailableSemaphores r !! Z.to_nat (m_currentFrame r)
      = Some imageAvailable
    ∧ drawFrame env w = Stopped (Thrown AcquireFailed) w'
    ∧ newCalls w w'
      = [WaitForFences d fence;
         AcquireNextImageKHR d (m_swapChain r) imageAvailable]
    ∧ renderer w' = r
    ∧ fenceStatus (driver w') !! fence = Some Signaled
    ∧ frame_inv w'.
Proof.
  cbv zeta. intros Hinv Hstale Hok Hsub.
  destruct (drawFrame_acquired env w Hinv)
    as (fence & commandBuffer & imageAvailable & renderFinished
          & Hf & _ & Hi & _ & Hinv1 & Hrun).
  apply Z.eqb_neq in Hstale, Hok, Hsub.
  rewrite Hstale, Hok, Hsub in Hrun. cbn [negb andb] in Hrun.
  exists fence, imageAvailable. eexists.
  split; [exact Hf|]. split; [exact Hi|]. split; [exact Hrun|].
  split; [apply newCalls_logged; tidy_world; rewrite <- app_assoc; reflexivity|].
  split; [reflexivity|]. split; [|exact Hinv1].
  tidy_world. apply lookup_insert_eq.
Qed.

Lemma drawFrame_acquire_error_keeps_slot_witness :
  ∃ w',
    drawFrame frameAcquireRefused sampleWorld = Stopped (Thrown AcquireFailed) w'
    ∧ newCalls sampleWorld w' = [WaitForFences 5 81; AcquireNextImageKHR 5 10 61]
    ∧ frame_inv w'.
Proof.
  destruct (drawFrame_acquire_error_keeps_slot frameAcquireRefused sampleWorld)
    as (fence & imageAvailable & w' & Hf & Hi & Hrun & Hcalls & _ & _ & Hinv);
    try discriminate.
  - apply frame_inv_sampleWorld.
  - exists w'. split; [exact Hrun|].
    injection Hf as <-. injection Hi as <-.
    split; [exact Hcalls|exact Hinv].
Defined.

(** A frame on a slot whose fence is unsignaled with nothing in flight. *)
Lemma drawFrame_blocked (env : FrameEnv) (w : World) (fence : Z) :
  m_inFlightFences (renderer w) !! Z.to_nat (m_currentFrame (renderer w))
  = Some fence →
  0 <= m_currentFrame (renderer w) →
  fenceStatus (driver w) !! fence = Some Unsignaled →
  drawFrame env w
  = Stopped NeverReturns (logged [WaitForFences (m_device (renderer w)) fence] w).
Proof.
  intros Hf H0 Hs. unfold drawFrame.
  erewrite bind_run by reflexivity.
  erewrite bind_run by (apply at_index_Some; [exact H0|exact Hf]).
  erewrite bind_stop; [reflexivity|].
  unfold vkWaitForFences.
  erewrite bind_run by reflexivity.
  unfold awaitFence. tidy_world. rewrite Hs. reflexivity.
Qed.

(** X21.  The fence of the slot is reset before the command buffer is
    recorded and submitted.  When recording or submission is refused,
    [drawFrame] throws with the fence unsignaled and nothing submitted that
    would signal it, the slot not advanced; the next [drawFrame] on that
    renderer makes one call, the wait for this fence, and never returns. *)
Theorem drawFrame_throw_after_reset_blocks_slot (env : FrameEnv) (w : World) :
  let r := renderer w in
  frame_inv w →
  acquireResult env = VK_SUCCESS ∨ acquireResult env = VK_SUBOPTIMAL_KHR →
  0 <= acquireImageIndex env < Z.of_nat (length (m_swapChainFramebuffers r)) →
  beginResult env ≠ VK_SUCCESS ∨ endResult env ≠ VK_SUCCESS
    ∨ submitResult env ≠ VK_SUCCESS →
  ∃ fence e w',
    m_inFlightFences r !! Z.to_nat (m_currentFrame r) = Some fence
    ∧ drawFrame env w = Stopped (Thrown e) w'
    ∧ (e = BeginCommandBufferFailed ∨ e = EndCommandBufferFailed ∨ e = SubmitFailed)
    ∧ renderer w' = r
    ∧ fenceStatus (driver w') = resetAfterWait fence (fenceStatus (driver w))
    ∧ fenceStatus (driver w') !! fence = Some Unsignaled
    ∧ ∀ next,
        drawFrame next w'
        = Stopped NeverReturns (logged [WaitForFences (m_device r) fence] w').
Proof.
  cbv zeta. intros Hinv Hacq Hidx Hrefused.
  destruct (drawFrame_acquired env w Hinv)
    as (fence & commandBuffer & imageAvailable & renderFinished
          & Hf & Hcb & Hi & Hr & _ & Hrun).
  pose proof (inv_currentFrame w Hinv) as Hrange.
  destruct (lookup_lt_is_Some_2 (m_swapChainFramebuffers (renderer w))
              (Z.to_nat (acquireImageIndex env))) as [framebuffer Hfb]; [lia|].
  assert (Hstale : (acquireResult env =? VK_ERROR_OUT_OF_DATE_KHR) = false)
    by (destruct Hacq as [->| ->]; reflexivity).
  assert (Hok : negb (acquireResult env =? VK_SUCCESS)
                && negb (acquireResult env =? VK_SUBOPTIMAL_KHR) = false)
    by (destruct Hacq as [->| ->]; reflexivity).
  rewrite Hstale, Hok in Hrun. unfold drawFrame_render in Hrun.
  match type of Hrun with
  | _ = (drawFrame_present env ≫= _) ?acquired =>
      pose proof (drawFrame_present_run env acquired fence commandBuffer
                    imageAvailable renderFinished framebuffer
                    Hf Hcb Hi Hr (proj1 Hrange) (proj1 Hidx) Hfb) as Hpresent
  end.
  cbv zeta in Hpresent. tidy_world_in Hpresent.
  assert (Hthrown :
            ∃ e calls',
              (e = BeginCommandBufferFailed ∨ e = EndCommandBufferFailed
               ∨ e = SubmitFailed)
              ∧ drawFrame env w
                = Stopped (Thrown e)
                    (fenced (resetAfterWait fence) (logged calls' w))).
  { destruct (beginResult env =? VK_SUCCESS) eqn:Hb; cbn [negb] in Hpresent.
    - destruct (endResult env =? VK_SUCCESS) eqn:He; cbn [negb] in Hpresent.
      + destruct (submitResult env =? VK_SUCCESS) eqn:Hs; cbn [negb] in Hpresent.
        * apply Z.eqb_eq in Hb, He, Hs. exfalso.
          destruct Hrefused as [H|[H|H]]; congruence.
        * exists SubmitFailed. eexists. split; [auto|].
          erewrite bind_stop in Hrun by exact Hpresent. rewrite Hrun.
          f_equal. unfold fenced, logged, resetAfterWait. tidy_world.
          rewrite <- !app_assoc. reflexivity.
      + exists EndCommandBufferFailed. eexists. split; [auto|].
        erewrite bind_stop in Hrun by exact Hpresent. rewrite Hrun.
        f_equal. unfold fenced, logged, resetAfterWait. tidy_world.
        rewrite <- !app_assoc. reflexivity.
    - exists BeginCommandBufferFailed. eexists. split; [auto|].
      erewrite bind_stop in Hrun by exact Hpresent. rewrite Hrun.
      f_equal. unfold fenced, logged, resetAfterWait. tidy_world.
      rewrite <- !app_assoc. reflexivity. }
  destruct Hthrown as (e & calls' & He & Hthrown).
  exists fence, e. eexists.
  split; [exact Hf|]. split; [exact Hthrown|]. split; [exact He|].
  split; [reflexivity|]. split; [reflexivity|].
  split; [tidy_world; apply lookup_insert_eq|].
  intros next. rewrite (drawFrame_blocked next _ fence).
  - reflexivity.
  - exact Hf.
  - exact (proj1 Hrange).
  - tidy_world. apply lookup_insert_eq.
Qed.

Lemma drawFrame_throw_after_reset_blocks_slot_witness :
  ∃ w',
    drawFrame frameSubmitRefused sampleWorld = Stopped (Thrown SubmitFailed) w'
    ∧ fenceStatus (driver w') !! 81 = Some Unsignaled
    ∧ drawFrame frameOk w' = Stopped NeverReturns (logged [WaitForFences 5 81] w').
Proof.
  destruct (drawFrame_throw_after_reset_blocks_slot frameSubmitRefused sampleWorld)
    as (fence & e & w' & Hf & Hrun & _ & _ & _ & Hstatus & Hnext).
  - apply frame_inv_sampleWorld.
  - left. reflexivity.
  - simpl. lia.
  - right. right. discriminate.
  - injection Hf as <-.
    assert (He : e = SubmitFailed).
    { assert (Hc : drawFrame frameSubmitRefused sampleWorld
                   = Stopped (Thrown SubmitFailed)
                       (finalWorld (drawFrame frameSubmitRefused sampleWorld)))
        by (vm_compute; reflexivity).
      rewrite Hrun in Hc. congruence. }
    subst e. exists w'. split; [exact Hrun|]. split; [exact Hstatus|].
    apply Hnext.
Defined.

(** X22.  A presentation answered with an error other than out-of-date,
    with no resize pending, makes [drawFrame] throw after the frame has been
    submitted: the fence of the slot is in flight, the slot is not advanced,
    and the state is still one of the frame loop. *)
Theorem drawFrame_present_error_after_submission (env : FrameEnv) (w : World) :
  let r := renderer w in
  frame_inv w →
  acquireResult env = VK_SUCCESS ∨ acquireResult env = VK_SUBOPTIMAL_KHR →
  0 <= acquireImageIndex env < Z.of_nat (length (m_swapChainFramebuffers r)) →
  beginResult env = VK_SUCCESS →
  endResult env = VK_SUCCESS →
  submitResult env = VK_SUCCESS →
  presentResult env ≠ VK_SUCCESS →
  presentResult env ≠ VK_ERROR_OUT_OF_DATE_KHR →
  presentResult env ≠ VK_SUBOPTIMAL_KHR →
  m_framebufferResized r = false →
  ∃ fence w',
    m_inFlightFences r !! Z.to_nat (m_currentFrame r) = Some fence
    ∧ drawFrame env w = Stopped (Thrown PresentFailed) w'
    ∧ existsb isPresent (newCalls w w') = true
    ∧ renderer w' = r
    ∧ fenceStatus (driver w') = <[fence := Pending]> (fenceStatus (driver w))
    ∧ frame_inv w'.
Proof.
  cbv zeta.
  intros Hinv Hacq Hidx Hbegin Hend Hsubmit Hp1 Hp2 Hp3 Hflag.
  destruct (drawFrame_acquired env w Hinv)
    as (fence & commandBuffer & imageAvailable & renderFinished
          & Hf & Hcb & Hi & Hr & _ & Hrun).
  pose proof (inv_currentFrame w Hinv) as Hrange.
  destruct (lookup_lt_is_Some_2 (m_swapChainFramebuffers (renderer w))
              (Z.to_nat (acquireImageIndex env))) as [framebuffer Hfb]; [lia|].
  assert (Hstale : (acquireResult env =? VK_ERROR_OUT_OF_DATE_KHR) = false)
    by (destruct Hacq as [->| ->]; reflexivity).
  assert (Hok : negb (acquireResult env =? VK_SUCCESS)
                && negb (acquireResult env =? VK_SUBOPTIMAL_KHR) = false)
    by (destruct Hacq as [->| ->]; reflexivity).
  rewrite Hstale, Hok in Hrun. unfold drawFrame_render in Hrun.
  erewrite bind_stop in Hrun.
  2:{ erewrite (drawFrame_present_run env _ fence commandBuffer imageAvailable
                  renderFinished framebuffer)
        by (tidy_world; (assumption || lia)).
      rewrite Hbegin, Hend, Hsubmit.
      change (negb (VK_SUCCESS =? VK_SUCCESS)) with false. cbv iota.
      unfold mustRecreate. tidy_world.
      apply Z.eqb_neq in Hp1, Hp2, Hp3.
      rewrite Hp1, Hp2, Hp3, Hflag. reflexivity. }
  exists fence. eexists.
  split; [exact Hf|]. split; [exact Hrun|].
  assert (Hstatus : ∀ status : gmap Z FenceStatus,
            <[fence := Pending]> (<[fence := Unsignaled]> (<[fence := Signaled]> status))
            = <[fence := Pending]> status)
    by (intros status; rewrite !insert_insert_eq; reflexivity).
  split.
  { erewrite newCalls_logged
      by (tidy_world; rewrite <- !app_assoc; reflexivity).
    rewrite !existsb_app. cbn [existsb isPresent].
    rewrite !orb_true_r. reflexivity. }
  split; [reflexivity|]. split; [tidy_world; apply Hstatus|].
  apply (frame_inv_transfer w _ Hinv).
  - exact Hrange.
  - reflexivity.
  - intros g Hg. tidy_world. rewrite Hstatus.
    destruct (decide (g = fence)) as [->|Hne].
    + right. apply lookup_insert_eq.
    + rewrite lookup_insert_ne by congruence.
      apply (inv_fence_status w Hinv g Hg).
Qed.

Lemma drawFrame_present_error_after_submission_witness :
  ∃ w',
    drawFrame framePresentRefused sampleWorld = Stopped (Thrown PresentFailed) w'
    ∧ m_currentFrame (renderer w') = 0
    ∧ frame_inv w'.
Proof.
  destruct (drawFrame_present_error_after_submission framePresentRefused
              sampleWorld)
    as (fence & w' & _ & Hrun & _ & Hr & _ & Hinv);
    try reflexivity; try discriminate.
  - apply frame_inv_sampleWorld.
  - left. reflexivity.
  - simpl. lia.
  - exists w'. split; [exact Hrun|]. split; [rewrite Hr; reflexivity|exact Hinv].
Defined.

(** ** The application loop *)

(** What [handleEvents] makes of a queue. *)
Lemma handleEvents_run (queue : list SDL_Event) :
  ∀ (app : GameApp) (w : World),
    ∃ app',
      handleEvents queue app w
      = Returned app'
          (if existsb isResized queue then rendered (setFramebufferResized true) w
           else w)
      ∧ m_isRunning app' = m_isRunning app && negb (existsb isQuit queue)
      ∧ (existsb isWindowState queue = false →
         m_isMinimized app' = m_isMinimized app)
      ∧ (∀ before after,
           queue = before ++ SDL_EVENT_WINDOW_MINIMIZED :: after →
           existsb isWindowState after = false →
           m_isMinimized app' = true)
      ∧ (∀ before after,
           queue = before ++ SDL_EVENT_WINDOW_RESTORED :: after →
           existsb isWindowState after = false →
           m_isMinimized app' = false).
Proof.
  induction queue as [|event rest IH]; intros app w.
  - exists app. split; [reflexivity|]. split; [symmetry; apply andb_true_r|].
    split; [reflexivity|].
    split; intros [|? ?] after H; discriminate H.
  - assert (Hstep : ∃ app1,
              handleEvent event app w
              = Returned app1
                  (if isResized event then rendered (setFramebufferResized true) w
                   else w)
              ∧ m_isRunning app1 = m_isRunning app && negb (isQuit event)
              ∧ m_isMinimized app1
                = match event with
                  | SDL_EVENT_WINDOW_MINIMIZED => true
                  | SDL_EVENT_WINDOW_RESTORED => false
                  | _ => m_isMinimized app
                  end).
    { destruct event; eexists; (split; [reflexivity|]); cbn;
        rewrite ?andb_true_r, ?andb_false_r; split; reflexivity. }
    destruct Hstep as (app1 & Hrun1 & Hrunning1 & Hmin1).
    match type of Hrun1 with
    | _ = Returned _ ?w1 => destruct (IH app1 w1)
        as (app' & Hrun & Hrunning & Hsame & Hmin & Hres)
    end.
    exists app'. cbn [handleEvents].
    erewrite bind_run by exact Hrun1.
    split.
    { rewrite Hrun. f_equal. cbn [existsb].
      destruct (isResized event), (existsb isResized rest); reflexivity. }
    split.
    { rewrite Hrunning, Hrunning1. cbn [existsb].
      destruct (m_isRunning app), (isQuit event), (existsb isQuit rest);
        reflexivity. }
    split.
    { cbn [existsb]. intros Hnone. apply orb_false_elim in Hnone as [He Hrest].
      rewrite (Hsame Hrest), Hmin1. destruct event; (reflexivity || discriminate). }
    split.
    + intros [|first before] after Hq Hafter; injection Hq as -> ->.
      * rewrite (Hsame Hafter), Hmin1. reflexivity.
      * apply (Hmin before after eq_refl Hafter).
    + intros [|first before] after Hq Hafter; injection Hq as -> ->.
      * rewrite (Hsame Hafter), Hmin1. reflexivity.
      * apply (Hres before after eq_refl Hafter).
Qed.

(** X23.  [handleEvents] empties the queue whatever it holds and makes no
    API call.  The application keeps running exactly when it was running
    and the queue holds no quit event; a quit event does not end the
    polling, the events behind it are still handled.  The renderer is told
    of a resize exactly when the queue holds a resize event, and the last
    minimize or restore event of the queue decides [m_isMinimized]. *)
Theorem handleEvents_handles_whole_queue (queue : list SDL_Event)
    (app : GameApp) (w : World) :
  ∃ app',
    handleEvents queue app w
    = Returned app'
        (if existsb isResized queue then rendered (setFramebufferResized true) w
         else w)
    ∧ m_isRunning app' = m_isRunning app && negb (existsb isQuit queue)
    ∧ (existsb isWindowState queue = false →
       m_isMinimized app' = m_isMinimized app)
    ∧ (∀ before after,
         queue = before ++ SDL_EVENT_WINDOW_MINIMIZED :: after →
         existsb isWindowState after = false →
         m_isMinimized app' = true)
    ∧ (∀ before after,
         queue = before ++ SDL_EVENT_WINDOW_RESTORED :: after →
         existsb isWindowState after = false →
         m_isMinimized app' = false).
Proof. apply handleEvents_run. Qed.

Lemma handleEvents_handles_whole_queue_witness :
  ∃ app',
    handleEvents
      [SDL_EVENT_QUIT; SDL_EVENT_WINDOW_MINIMIZED; SDL_EVENT_WINDOW_RESIZED]
      {| m_isMinimized := false; m_isRunning := true |} sampleWorld
    = Returned app' (rendered (setFramebufferResized true) sampleWorld)
    ∧ m_isRunning app' = false
    ∧ m_isMinimized app' = true.
Proof.
  destruct (handleEvents_handles_whole_queue
              [SDL_EVENT_QUIT; SDL_EVENT_WINDOW_MINIMIZED; SDL_EVENT_WINDOW_RESIZED]
              {| m_isMinimized := false; m_isRunning := true |} sampleWorld)
    as (app' & Hrun & Hrunning & _ & Hmin & _).
  exists app'. split; [exact Hrun|]. split; [exact Hrunning|].
  apply (Hmin [SDL_EVENT_QUIT] [SDL_EVENT_WINDOW_RESIZED]); reflexivity.
Defined.

(** The last minimize or restore event of a queue that holds one. *)
Lemma last_window_state (queue : list SDL_Event) :
  existsb isWindowState queue = true →
  ∃ before event after,
    queue = before ++ event :: after
    ∧ isWindowState event = true
    ∧ existsb isWindowState after = false.
Proof.
  induction queue as [|event rest IH]; [discriminate|].
  cbn [existsb]. intros H.
  destruct (existsb isWindowState rest) eqn:Hrest.
  - destruct (IH eq_refl) as (before & e & after & -> & He & Hafter).
    exists (event :: before), e, after. repeat split; assumption.
  - rewrite orb_false_r in H.
    exists [], event, rest. repeat split; assumption.
Qed.

Lemma handleEvents_stays_minimized (queue : list SDL_Event) (app : GameApp)
    (w : World) :
  m_isMinimized app = true →
  existsb isRestored queue = false →
  ∃ app',
    handleEvents queue app w
    = Returned app'
        (if existsb isResized queue then rendered (setFramebufferResized true) w
         else w)
    ∧ m_isRunning app' = m_isRunning app && negb (existsb isQuit queue)
    ∧ m_isMinimized app' = true.
Proof.
  intros Hmin Hnone.
  destruct (handleEvents_run queue app w)
    as (app' & Hrun & Hrunning & Hsame & Hminimized & _).
  exists app'. split; [exact Hrun|]. split; [exact Hrunning|].
  destruct (existsb isWindowState queue) eqn:Hstate.
  - destruct (last_window_state queue Hstate)
      as (before & event & after & -> & He & Hafter).
    destruct event; try discriminate He.
    + apply (Hminimized before after eq_refl Hafter).
    + rewrite existsb_app in Hnone. cbn in Hnone.
      rewrite orb_true_r in Hnone. discriminate.
  - rewrite (Hsame eq_refl). exact Hmin.
Qed.

Lemma handleEvents_stays_shown (queue : list SDL_Event) (app : GameApp)
    (w : World) :
  m_isMinimized app = false →
  existsb isMinimized queue = false →
  ∃ app',
    handleEvents queue app w
    = Returned app'
        (if existsb isResized queue then rendered (setFramebufferResized true) w
         else w)
    ∧ m_isRunning app' = m_isRunning app && negb (existsb isQuit queue)
    ∧ m_isMinimized app' = false.
Proof.
  intros Hmin Hnone.
  destruct (handleEvents_run queue app w)
    as (app' & Hrun & Hrunning & Hsame & _ & Hrestored).
  exists app'. split; [exact Hrun|]. split; [exact Hrunning|].
  destruct (existsb isWindowState queue) eqn:Hstate.
  - destruct (last_window_state queue Hstate)
      as (before & event & after & -> & He & Hafter).
    destruct event; try discriminate He.
    + rewrite existsb_app in Hnone. cbn in Hnone.
      rewrite orb_true_r in Hnone. discriminate.
    + apply (Hrestored before after eq_refl Hafter).
  - rewrite (Hsame eq_refl). exact Hmin.
Qed.

Lemma GameApp_run_loop_minimized (script : list Turn) :
  ∀ (app : GameApp) (w : World),
    m_isRunning app = true →
    m_isMinimized app = true →
    Forall (λ turn, existsb isQuit (eventQueue turn) = false
                    ∧ existsb isRestored (eventQueue turn) = false) script →
    GameApp_run_loop script app w
    = Returned None
        (if resizes script then rendered (setFramebufferResized true) w else w).
Proof.
  induction script as [|turn rest IH]; intros app w Hrunning Hmin Hall.
  - cbn [GameApp_run_loop]. rewrite Hrunning. reflexivity.
  - apply Forall_cons in Hall as [[Hquit Hrestored] Hall].
    destruct (handleEvents_stays_minimized (eventQueue turn) app w Hmin Hrestored)
      as (app' & Hrun & Hrunning' & Hmin').
    rewrite Hrunning, Hquit in Hrunning'. cbn in Hrunning'.
    cbn [GameApp_run_loop]. rewrite Hrunning.
    erewrite bind_run by exact Hrun.
    rewrite Hmin'. cbn [negb].
    erewrite bind_run by reflexivity.
    rewrite (IH app' _ Hrunning' Hmin' Hall).
    f_equal. unfold resizes. cbn [existsb].
    destruct (existsb isResized (eventQueue turn)),
             (existsb (λ turn, existsb isResized (eventQueue turn)) rest);
      reflexivity.
Qed.

(** X24.  While the window is minimized and no event restores it or quits,
    the loop of [run] keeps going without rendering: over any number of
    passes it makes no API call and leaves the fences alone, and the only
    thing it does to the renderer is to note a resize, which stays pending
    in [m_framebufferResized]. *)
Theorem GameApp_minimized_passes_do_not_render (script : list Turn)
    (app : GameApp) (w : World) :
  m_isRunning app = true →
  m_isMinimized app = true →
  Forall (λ turn, existsb isQuit (eventQueue turn) = false
                  ∧ existsb isRestored (eventQueue turn) = false) script →
  ∃ w',
    GameApp_run_loop script app w = Returned None w'
    ∧ driver w' = driver w
    ∧ renderer w'
      = (if resizes script then setFramebufferResized true (renderer w)
         else renderer w).
Proof.
  intros Hrunning Hmin Hall.
  eexists. split; [apply GameApp_run_loop_minimized; assumption|].
  destruct (resizes script); split; reflexivity.
Qed.

Lemma GameApp_minimized_passes_do_not_render_witness :
  ∃ w',
    GameApp_run_loop sampleMinimizedScript
      {| m_isMinimized := true; m_isRunning := true |} sampleWorld
    = Returned None w'
    ∧ calls (driver w') = []
    ∧ m_framebufferResized (renderer w') = true.
Proof.
  destruct (GameApp_minimized_passes_do_not_render sampleMinimizedScript
              {| m_isMinimized := true; m_isRunning := true |} sampleWorld)
    as (w' & Hrun & Hdriver & Hrenderer).
  - reflexivity.
  - reflexivity.
  - repeat constructor.
  - exists w'. split; [exact Hrun|].
    rewrite Hdriver, Hrenderer. split; reflexivity.
Defined.

Lemma GameApp_run_loop_shown (script : list Turn) :
  ∀ (app : GameApp) (w : World),
    m_isRunning app = true →
    m_isMinimized app = false →
    Forall (λ turn, existsb isMinimized (eventQueue turn) = false) script →
    GameApp_run_loop script app w
    = match run_loop (turnIteration <$> untilQuit script) w with
      | Returned _ w' =>
          Returned
            (if quits script
             then Some {| m_isMinimized := false; m_isRunning := false |}
             else None)
            w'
      | Stopped fault w' => Stopped fault w'
      end.
Proof.
  induction script as [|turn rest IH]; intros app w Hrunning Hmin Hall.
  - cbn [GameApp_run_loop]. rewrite Hrunning. reflexivity.
  - apply Forall_cons in Hall as [Hshown Hall].
    destruct (handleEvents_stays_shown (eventQueue turn) app w Hmin Hshown)
      as (app' & Hrun & Hrunning' & Hmin').
    rewrite Hrunning in Hrunning'. cbn [andb] in Hrunning'.
    cbn [GameApp_run_loop]. rewrite Hrunning.
    erewrite bind_run by exact Hrun.
    rewrite Hmin'. cbn [negb].
    assert (Hit : ∀ w0,
              iteration (turnIteration turn) w0
              = GameApp_render (turnEnv turn)
                  (if existsb isResized (eventQueue turn)
                   then rendered (setFramebufferResized true) w0 else w0)).
    { intros w0. unfold iteration, turnIteration, GameApp_render.
      cbn [windowResized frameEnv].
      destruct (existsb isResized (eventQueue turn));
        erewrite bind_run by reflexivity; [reflexivity|].
      destruct w0. reflexivity. }
    unfold quits. cbn [untilQuit existsb].
    destruct (existsb isQuit (eventQueue turn)) eqn:Hquit.
    + cbn [negb] in Hrunning'. cbn [fmap list_fmap run_loop orb].
      unfold mbind, M_bind. rewrite Hit.
      destruct (GameApp_render (turnEnv turn) _) as [[] w1|fault w1];
        [|reflexivity].
      destruct rest; cbn [GameApp_run_loop]; rewrite Hrunning';
        destruct app'; cbn in *; subst; reflexivity.
    + cbn [negb] in Hrunning'. cbn [fmap list_fmap run_loop orb].
      unfold mbind, M_bind. rewrite Hit.
      destruct (GameApp_render (turnEnv turn) _) as [[] w1|fault w1];
        [|reflexivity].
      apply (IH app' w1 Hrunning' Hmin' Hall).
Qed.

(** X25.  With the window shown throughout, the loop of [run] is the
    sequence of frames [run_loop] over the passes up to and including the
    first one that meets a quit event: each pass tells the renderer of a
    resize if its queue holds one and then renders; the pass that meets the
    quit event still renders its frame, the passes behind it are not
    played. *)
Theorem GameApp_run_loop_renders_until_quit (script : list Turn)
    (app : GameApp) (w : World) :
  m_isRunning app = true →
  m_isMinimized app = false →
  Forall (λ turn, existsb isMinimized (eventQueue turn) = false) script →
  GameApp_run_loop script app w
  = match run_loop (turnIteration <$> untilQuit script) w with
    | Returned _ w' =>
        Returned
          (if quits script
           then Some {| m_isMinimized := false; m_isRunning := false |}
           else None)
          w'
    | Stopped fault w' => Stopped fault w'
    end.
Proof. apply GameApp_run_loop_shown. Qed.

Lemma GameApp_run_loop_renders_until_quit_witness :
  GameApp_run_loop sampleScript {| m_isMinimized := false; m_isRunning := true |}
    sampleWorld
  = match run_loop (turnIteration <$> take 2 sampleScript) sampleWorld with
    | Returned _ w' =>
        Returned (Some {| m_isMinimized := false; m_isRunning := false |}) w'
    | Stopped fault w' => Stopped fault w'
    end.
Proof.
  rewrite (GameApp_run_loop_renders_until_quit sampleScript
             {| m_isMinimized := false; m_isRunning := true |} sampleWorld);
    [reflexivity|reflexivity|reflexivity|repeat constructor].
Defined.

(** ** What the loop leaves to the shutdown *)

Lemma keptByLoop_refl (r : VulkanRenderer) : keptByLoop r r.
Proof. destruct r. reflexivity. Qed.

Lemma keptByLoop_trans (a b c : VulkanRenderer) :
  keptByLoop a b → keptByLoop b c → keptByLoop a c.
Proof.
  destruct a, b, c. unfold keptByLoop. cbn.
  intros Hab Hbc. inversion Hab. inversion Hbc. subst. reflexivity.
Qed.

Lemma keptByLoop_sameOutsideSwapChain (r r' : VulkanRenderer) :
  sameOutsideSwapChain r r' → keptByLoop r r'.
Proof.
  destruct r, r'. unfold sameOutsideSwapChain, keptByLoop. cbn.
  intros H. inversion H. subst. reflexivity.
Qed.

Lemma keptByLoop_members (r r' : VulkanRenderer) :
  keptByLoop r r' →
  m_initialized r' = m_initialized r
  ∧ m_device r' = m_device r
  ∧ m_instance r' = m_instance r
  ∧ m_debugMessenger r' = m_debugMessenger r
  ∧ m_surface r' = m_surface r
  ∧ pipelineMembers r' = pipelineMembers r.
Proof.
  unfold keptByLoop. intros <-. destruct r'. repeat split; reflexivity.
Qed.

Lemma extendsWith_weaken (ok ok' : Call -> bool) (w w' : World) :
  (∀ c, ok c = true → ok' c = true) →
  extendsWith ok w w' → extendsWith ok' w w'.
Proof.
  intros Himp (extra & Hcalls & Hok). exists extra. split; [exact Hcalls|].
  rewrite forallb_forall in *. intros c Hc. apply Himp, Hok, Hc.
Qed.

Lemma loopStep_refl (w : World) : loopStep w w.
Proof. split; [apply keptByLoop_refl|apply extendsWith_refl]. Qed.

Lemma loopStep_trans (a b c : World) : loopStep a b → loopStep b c → loopStep a c.
Proof.
  intros [H1 H2] [K1 K2]. split.
  - eapply keptByLoop_trans; eassumption.
  - eapply extendsWith_trans; eassumption.
Qed.

Lemma loopStep_call (c : Call) : isLoopCall c = true → keeps loopStep (call c).
Proof.
  intros Hc w. split; [apply keptByLoop_refl|].
  exists [c]. split; [reflexivity|]. simpl. rewrite Hc. reflexivity.
Qed.

Lemma loopStep_setFences (f : gmap Z FenceStatus -> gmap Z FenceStatus) :
  keeps loopStep (setFences f).
Proof.
  intros w. split; [apply keptByLoop_refl|].
  exists []. split; [symmetry; apply app_nil_r|reflexivity].
Qed.

Lemma loopStep_assign (f : VulkanRenderer -> VulkanRenderer) :
  (∀ r, keptByLoop r (f r)) → keeps loopStep (assign f).
Proof.
  intros Hf w. split; [apply Hf|].
  exists []. split; [symmetry; apply app_nil_r|reflexivity].
Qed.

Lemma loopStep_awaitFence (fence : Z) : keeps loopStep (awaitFence fence).
Proof.
  intros w. unfold awaitFence.
  destruct (fenceStatus (driver w) !! fence) as [[]|];
    try apply loopStep_refl.
  apply loopStep_setFences.
Qed.

Lemma loopStep_recreateSwapChain (env : SwapChainEnv) :
  keeps loopStep (recreateSwapChain env).
Proof.
  intros w.
  destruct (recreateSwapChain_outcome env w) as (Hsame & _ & extra & Hcalls & Hok).
  split; [apply keptByLoop_sameOutsideSwapChain, Hsame|].
  exists (DeviceWaitIdle (m_device (renderer w)) :: extra).
  split; [exact Hcalls|].
  cbn [forallb isLoopCall isRecordingCall isSwapChainCall orb andb].
  rewrite forallb_forall in *. intros c Hc. specialize (Hok c Hc).
  destruct c; try discriminate Hok; reflexivity.
Qed.

Lemma loopStep_recordCommandBuffer (env : FrameEnv) (commandBuffer imageIndex : Z) :
  keeps loopStep (recordCommandBuffer env commandBuffer imageIndex).
Proof.
  intros w.
  destruct (recordCommandBuffer_step env commandBuffer imageIndex w)
    as (Hr & _ & Hcalls).
  split; [rewrite Hr; apply keptByLoop_refl|].
  apply (extendsWith_weaken isRecordingCall); [|exact Hcalls].
  intros c Hc. destruct c; try discriminate Hc; reflexivity.
Qed.

Lemma loopStep_drawFrame_present (env : FrameEnv) :
  keeps loopStep (drawFrame_present env).
Proof.
  unfold drawFrame_present.
  apply (keeps_bind _ loopStep_trans); [apply (keeps_this _ loopStep_refl)|].
  intros r.
  apply (keeps_bind _ loopStep_trans); [apply (keeps_at_index _ loopStep_refl)|].
  intros fence.
  apply (keeps_bind _ loopStep_trans).
  { unfold vkResetFences. apply (keeps_bind _ loopStep_trans);
      [apply loopStep_call; reflexivity|intros _; apply loopStep_setFences]. }
  intros _.
  apply (keeps_bind _ loopStep_trans); [apply (keeps_at_index _ loopStep_refl)|].
  intros commandBuffer.
  apply (keeps_bind _ loopStep_trans); [apply loopStep_call; reflexivity|].
  intros _.
  apply (keeps_bind _ loopStep_trans); [apply loopStep_recordCommandBuffer|].
  intros _.
  apply (keeps_bind _ loopStep_trans); [apply (keeps_at_index _ loopStep_refl)|].
  intros imageAvailable.
  apply (keeps_bind _ loopStep_trans); [apply (keeps_at_index _ loopStep_refl)|].
  intros renderFinished.
  apply (keeps_bind _ loopStep_trans).
  { unfold vkQueueSubmit. apply (keeps_bind _ loopStep_trans);
      [apply loopStep_call; reflexivity|intros _].
    apply keeps_if; [apply (keeps_throw _ loopStep_refl)|apply loopStep_setFences]. }
  intros _.
  apply (keeps_bind _ loopStep_trans); [apply loopStep_call; reflexivity|].
  intros _.
  cbv zeta. apply keeps_if.
  - apply (keeps_bind _ loopStep_trans);
      [apply loopStep_assign; intros []; reflexivity|intros _].
    apply loopStep_recreateSwapChain.
  - apply keeps_if; [apply (keeps_throw _ loopStep_refl)|].
    apply (keeps_ret _ loopStep_refl).
Qed.

Lemma loopStep_drawFrame (env : FrameEnv) : keeps loopStep (drawFrame env).
Proof.
  unfold drawFrame.
  apply (keeps_bind _ loopStep_trans); [apply (keeps_this _ loopStep_refl)|].
  intros r.
  apply (keeps_bind _ loopStep_trans); [apply (keeps_at_index _ loopStep_refl)|].
  intros fence.
  apply (keeps_bind _ loopStep_trans).
  { unfold vkWaitForFences. apply (keeps_bind _ loopStep_trans);
      [apply loopStep_call; reflexivity|intros _; apply loopStep_awaitFence]. }
  intros _.
  apply (keeps_bind _ loopStep_trans); [apply (keeps_at_index _ loopStep_refl)|].
  intros imageAvailable.
  apply (keeps_bind _ loopStep_trans); [apply loopStep_call; reflexivity|].
  intros _.
  cbv zeta. apply keeps_if; [apply loopStep_recreateSwapChain|].
  apply keeps_if; [apply (keeps_throw _ loopStep_refl)|].
  unfold drawFrame_render.
  apply (keeps_bind _ loopStep_trans); [apply loopStep_drawFrame_present|].
  intros _. unfold advanceFrame.
  apply (keeps_bind _ loopStep_trans); [apply (keeps_this _ loopStep_refl)|].
  intros r'. cbv zeta.
  apply keeps_if; [apply (keeps_undefined _ loopStep_refl)|].
  apply loopStep_assign. intros []. reflexivity.
Qed.

Lemma loopStep_handleEvents (queue : list SDL_Event) :
  ∀ app, keeps loopStep (handleEvents queue app).
Proof.
  induction queue as [|event rest IH]; intros app.
  - apply (keeps_ret _ loopStep_refl).
  - cbn [handleEvents]. apply (keeps_bind _ loopStep_trans); [|intros app'; apply IH].
    destruct event; cbn [handleEvent];
      try apply (keeps_ret _ loopStep_refl).
    apply (keeps_bind _ loopStep_trans);
      [apply loopStep_assign; intros []; reflexivity|intros _].
    apply (keeps_ret _ loopStep_refl).
Qed.

Lemma loopStep_GameApp_run_loop (script : list Turn) :
  ∀ app, keeps loopStep (GameApp_run_loop script app).
Proof.
  induction script as [|turn rest IH]; intros app.
  - cbn [GameApp_run_loop].
    destruct (m_isRunning app); apply (keeps_ret _ loopStep_refl).
  - cbn [GameApp_run_loop].
    destruct (m_isRunning app); [|apply (keeps_ret _ loopStep_refl)].
    apply (keeps_bind _ loopStep_trans); [apply loopStep_handleEvents|].
    intros app'.
    apply (keeps_bind _ loopStep_trans); [|intros _; apply IH].
    apply keeps_if; [apply loopStep_drawFrame|apply (keeps_ret _ loopStep_refl)].
Qed.

(** X26.  Whatever the events and the driver's answers, and however it
    ends, the loop of [run] makes only calls of a frame or of a swap-chain
    recreation: it never destroys the pipeline, its layout, the render
    pass, a semaphore, a fence, the command pool, the device, the debug
    messenger, the surface or the instance.  Of the renderer it changes at
    most the swap-chain members, the slot and the resize flag;
    [m_initialized] and every other handle stay. *)
Theorem GameApp_run_loop_leaves_shutdown_to_cleanup (script : list Turn)
    (app : GameApp) (w : World) :
  let w' := finalWorld (GameApp_run_loop script app w) in
  forallb isLoopCall (newCalls w w') = true
  ∧ keptByLoop (renderer w) (renderer w')
  ∧ m_initialized (renderer w') = m_initialized (renderer w)
  ∧ m_device (renderer w') = m_device (renderer w)
  ∧ m_instance (renderer w') = m_instance (renderer w)
  ∧ m_debugMessenger (renderer w') = m_debugMessenger (renderer w)
  ∧ m_surface (renderer w') = m_surface (renderer w)
  ∧ pipelineMembers (renderer w') = pipelineMembers (renderer w).
Proof.
  cbv zeta.
  destruct (loopStep_GameApp_run_loop script app w) as [Hkept (extra & Hcalls & Hok)].
  split; [rewrite (newCalls_logged extra) by exact Hcalls; exact Hok|].
  split; [exact Hkept|].
  apply keptByLoop_members, Hkept.
Qed.

Lemma GameApp_run_loop_frame_inv (script : list Turn) :
  ∀ (app : GameApp) (w : World) (result : option GameApp) (w' : World),
    frame_inv w →
    GameApp_run_loop script app w = Returned result w' →
    frame_inv w'.
Proof.
  induction script as [|turn rest IH]; intros app w result w' Hinv Hrun.
  - cbn [GameApp_run_loop] in Hrun.
    destruct (m_isRunning app); injection Hrun as _ <-; exact Hinv.
  - cbn [GameApp_run_loop] in Hrun.
    destruct (m_isRunning app); [|injection Hrun as _ <-; exact Hinv].
    apply bind_Returned_inv in Hrun as (app' & w1 & Hevents & Hrun).
    destruct (handleEvents_run (eventQueue turn) app w) as (app0 & Hw1 & _).
    rewrite Hw1 in Hevents. injection Hevents as -> <-.
    apply bind_Returned_inv in Hrun as ([] & w2 & Hrender & Hrun).
    apply (IH app' w2 result w'); [|exact Hrun].
    assert (Hinv1 : frame_inv
                      (if existsb isResized (eventQueue turn)
                       then rendered (setFramebufferResized true) w else w)).
    { destruct (existsb isResized (eventQueue turn));
        [apply frame_inv_setFramebufferResized|]; exact Hinv. }
    destruct (negb (m_isMinimized app')).
    + unfold GameApp_render, render in Hrender.
      pose proof (drawFrame_step (turnEnv turn) _ Hinv1) as Hstep.
      cbv zeta in Hstep. rewrite Hrender in Hstep. exact (proj1 Hstep).
    + injection Hrender as <-. exact Hinv1.
Qed.

Lemma cleanup_run_frame_inv (validation : bool) (w : World) :
  frame_inv w →
  m_initialized (renderer w) = true →
  cleanup validation w
  = Returned tt
      (rendered (with_initialized false)
         (fenced (λ status, forget (m_inFlightFences (renderer w)) (drain <$> status))
            (logged (shutdownCalls validation (renderer w)) w))).
Proof.
  intros Hinv Hinit.
  rewrite cleanup_run;
    [|exact Hinit|rewrite (inv_renderFinished w Hinv); lia
     |rewrite (inv_imageAvailable w Hinv); lia|rewrite (inv_fences w Hinv); lia].
  rewrite !take_ge
    by (rewrite ?(inv_renderFinished w Hinv), ?(inv_imageAvailable w Hinv),
          ?(inv_fences w Hinv); lia).
  reflexivity.
Qed.

(** X27.  When the loop of [run] ends on a quit event, [run] goes on to
    [close] and returns: started in a state of the frame loop with the
    renderer initialized, [cleanup] finds every vector entry it reads.  The
    calls of the whole run are the calls of the loop, all of them calls of
    a frame or of a recreation, followed by the shutdown sequence on the
    handles the renderer holds at that point; no call is made on the device
    after its destruction, and [m_isRunning] and [m_initialized] end
    false. *)
Theorem GameApp_run_closes_after_quit (validation : bool) (script : list Turn)
    (app app1 : GameApp) (w w1 : World) :
  frame_inv w →
  m_initialized (renderer w) = true →
  GameApp_run_loop script
    {| m_isMinimized := m_isMinimized app; m_isRunning := true |} w
  = Returned (Some app1) w1 →
  ∃ w',
    GameApp_run validation script app w
    = Returned (Some {| m_isMinimized := m_isMinimized app1; m_isRunning := false |})
        w'
    ∧ newCalls w w' = newCalls w w1 ++ shutdownCalls validation (renderer w1)
    ∧ forallb isLoopCall (newCalls w w1) = true
    ∧ callsOnDestroyedDevice [] (newCalls w w') = []
    ∧ renderer w' = with_initialized false (renderer w1)
    ∧ m_initialized (renderer w') = false.
Proof.
  intros Hinv Hinit Hloop.
  pose proof (GameApp_run_loop_frame_inv script _ w _ w1 Hinv Hloop) as Hinv1.
  pose proof (loopStep_GameApp_run_loop script
                {| m_isMinimized := m_isMinimized app; m_isRunning := true |} w)
    as [Hkept (extra & Hcalls & Hok)].
  rewrite Hloop in Hkept, Hcalls. cbn [finalWorld] in Hkept, Hcalls.
  destruct (keptByLoop_members _ _ Hkept) as (Hinit1 & _).
  rewrite Hinit in Hinit1.
  eexists. split.
  { unfold GameApp_run. erewrite bind_run by exact Hloop.
    unfold GameApp_close.
    erewrite bind_run by (erewrite bind_run; [reflexivity|];
                          apply cleanup_run_frame_inv; assumption).
    reflexivity. }
  rewrite (newCalls_logged extra w w1 Hcalls).
  assert (Hall : newCalls w
                   (rendered (with_initialized false)
                      (fenced (λ status,
                                 forget (m_inFlightFences (renderer w1))
                                   (drain <$> status))
                         (logged (shutdownCalls validation (renderer w1)) w1)))
                 = extra ++ shutdownCalls validation (renderer w1)).
  { apply newCalls_logged. tidy_world. rewrite Hcalls, app_assoc. reflexivity. }
  rewrite Hall.
  split; [reflexivity|]. split; [exact Hok|].
  split; [|split; reflexivity].
  rewrite callsOnDestroyedDevice_before; [apply shutdownCalls_in_order|].
  apply Forall_forall. intros c Hc device ->.
  rewrite forallb_forall in Hok.
  specialize (Hok (DestroyDevice device)).
  rewrite <- list_elem_of_In in Hok. specialize (Hok Hc). discriminate.
Qed.

Lemma GameApp_run_closes_after_quit_witness :
  ∃ w',
    GameApp_run true sampleScript {| m_isMinimized := false; m_isRunning := false |}
      sampleWorld
    = Returned (Some {| m_isMinimized := false; m_isRunning := false |}) w'
    ∧ callsOnDestroyedDevice [] (newCalls sampleWorld w') = []
    ∧ m_initialized (renderer w') = false.
Proof.
  destruct (GameApp_run_closes_after_quit true sampleScript
              {| m_isMinimized := false; m_isRunning := false |}
              {| m_isMinimized := false; m_isRunning := false |}
              sampleWorld
              (finalWorld
                 (GameApp_run_loop sampleScript
                    {| m_isMinimized := false; m_isRunning := true |} sampleWorld)))
    as (w' & Hrun & _ & _ & Hnone & _ & Hinit).
  - apply frame_inv_sampleWorld.
  - reflexivity.
  - vm_compute. reflexivity.
  - exists w'. split; [exact Hrun|]. split; [exact Hnone|exact Hinit].
Defined.

(** ** The device is destroyed once *)

Lemma loopCalls_keep_device (l : list Call) :
  forallb isLoopCall l = true → List.filter isDestroyDevice l = [].
Proof.
  induction l as [|c l IH]; [reflexivity|].
  cbn [forallb List.filter]. intros H. apply andb_prop in H as [Hc Hl].
  rewrite (IH Hl). destruct c; try discriminate Hc; reflexivity.
Qed.

Lemma filter_isDestroyDevice_fmap {A : Type} (f : A -> Call) (l : list A) :
  (∀ a, isDestroyDevice (f a) = false) →
  List.filter isDestroyDevice (f <$> l) = [].
Proof.
  intros Hf. induction l as [|a l IH]; [reflexivity|].
  cbn [fmap list_fmap List.filter]. rewrite Hf. exact IH.
Qed.

Lemma filter_isDestroyDevice_sync (device : Z) (renderFinished : list Z) :
  ∀ imageAvailable fences,
    List.filter isDestroyDevice
      (destroySyncObjects device renderFinished imageAvailable fences) = [].
Proof.
  induction renderFinished as [|s1 rest IH]; intros [|s2 ia] [|f fs];
    try reflexivity.
  cbn [destroySyncObjects List.filter isDestroyDevice]. apply IH.
Qed.

Lemma shutdownCalls_destroy_device_once (validation : bool) (r : VulkanRenderer) :
  List.filter isDestroyDevice (shutdownCalls validation r)
  = [DestroyDevice (m_device r)].
Proof.
  unfold shutdownCalls. cbv zeta.
  rewrite !List.filter_app.
  rewrite !filter_isDestroyDevice_fmap by reflexivity.
  rewrite filter_isDestroyDevice_sync.
  destruct validation; reflexivity.
Qed.

(** X28.  Over the life of the application the device is destroyed exactly
    once.  When the loop of [run] ends on a quit event, in a run started in a
    state of the frame loop with the renderer initialized, the calls of
    [run] hold one [vkDestroyDevice], made by [close]; [run] leaves
    [m_isRunning] false, so the destructor that follows does not close
    again: it makes no call and changes nothing. *)
Theorem GameApp_destroys_device_once (validation : bool) (script : list Turn)
    (app app1 : GameApp) (w w1 : World) :
  frame_inv w →
  m_initialized (renderer w) = true →
  GameApp_run_loop script
    {| m_isMinimized := m_isMinimized app; m_isRunning := true |} w
  = Returned (Some app1) w1 →
  ∃ closed w',
    GameApp_run validation script app w = Returned (Some closed) w'
    ∧ List.filter isDestroyDevice (newCalls w w')
      = [DestroyDevice (m_device (renderer w))]
    ∧ GameApp_destructor validation closed w' = Returned closed w'.
Proof.
  intros Hinv Hinit Hloop.
  pose proof (GameApp_run_loop_frame_inv script _ w _ w1 Hinv Hloop) as Hinv1.
  pose proof (loopStep_GameApp_run_loop script
                {| m_isMinimized := m_isMinimized app; m_isRunning := true |} w)
    as [Hkept (extra & Hcalls & Hok)].
  rewrite Hloop in Hkept, Hcalls. cbn [finalWorld] in Hkept, Hcalls.
  destruct (keptByLoop_members _ _ Hkept) as (Hinit1 & Hdevice & _).
  rewrite Hinit in Hinit1.
  eexists. eexists. split.
  { unfold GameApp_run. erewrite bind_run by exact Hloop.
    unfold GameApp_close.
    erewrite bind_run by (erewrite bind_run; [reflexivity|];
                          apply cleanup_run_frame_inv; assumption).
    reflexivity. }
  split; [|reflexivity].
  erewrite newCalls_logged
    by (tidy_world; rewrite Hcalls, <- app_assoc; reflexivity).
  rewrite List.filter_app, (loopCalls_keep_device extra Hok).
  rewrite shutdownCalls_destroy_device_once, Hdevice. reflexivity.
Qed.

Lemma GameApp_destroys_device_once_witness :
  ∃ closed w',
    GameApp_run true sampleScript {| m_isMinimized := false; m_isRunning := false |}
      sampleWorld
    = Returned (Some closed) w'
    ∧ List.filter isDestroyDevice (newCalls sampleWorld w') = [DestroyDevice 5]
    ∧ GameApp_destructor true closed w' = Returned closed w'.
Proof.
  apply (GameApp_destroys_device_once true sampleScript
           {| m_isMinimized := false; m_isRunning := false |}
           {| m_isMinimized := false; m_isRunning := false |}
           sampleWorld
           (finalWorld
              (GameApp_run_loop sampleScript
                 {| m_isMinimized := false; m_isRunning := true |} sampleWorld))).
  - apply frame_inv_sampleWorld.
  - reflexivity.
  - vm_compute. reflexivity.
Defined.
